(** * planetgen: the star-system generator of [src/generators/orbit.js]

    A shallow embedding of the generation pipeline (seeded random source,
    parent star, habitable zone, orbit layout, planet classification, planet
    properties, habitability pass, final sort) and the properties of it that
    the specification states.

    Numbers.  A JavaScript Number is modelled as a real number: [Math.sqrt],
    [Math.log], [Math.exp], [Math.max] and [Math.floor] are [sqrt], [ln],
    [exp], [Rmax] and [Zfloor].  Rounding, infinities and NaN are outside the
    model; [sqrt] and [Math.sqrt] agree on non-negative arguments only, so a
    statement that rests on the value of the square root of an arbitrary
    star's luminosity carries the hypothesis that the luminosity is not
    negative (that of a generated star is above zero).  The 32-bit integer arithmetic of the random
    source is modelled exactly, in [Z] with the wrap-around written out.

    Randomness.  The module draws from two sources: [random], the seeded
    splitmix32 closure held in a module variable, and the engine's
    [Math.random], which no seed reaches.  Both live in the [World] that every
    effectful function threads: the closure's captured variable, and a tape of
    the values [Math.random] is going to return together with the number of
    values already taken from it.

    The display code.  The functions of [src/script.js] that compute the
    star of the scene, rotation and revolution, colours, bloom, the
    atmosphere shell and the system name are embedded after the generator,
    in the same [World]; their properties follow the specification's
    claims. *)

From Stdlib Require Import Reals Lra Lia ZArith String List Sorted Permutation.
From Stdlib Require Import Ascii DecimalString.
From stdpp Require Import base list.

Open Scope R_scope.

(** ** Comparisons on numbers as booleans *)

#[global] Instance Rle_decision (x y : R) : Decision (x <= y) := Rle_dec x y.
#[global] Instance Rlt_decision (x y : R) : Decision (x < y) := Rlt_dec x y.
#[global] Instance Rge_decision (x y : R) : Decision (x >= y) := Rge_dec x y.
#[global] Instance Rgt_decision (x y : R) : Decision (x > y) := Rgt_dec x y.

(** ** 32-bit integer operators *)

Module Int32.

Definition toInt32 (z : Z) : Z := ((z + 2 ^ 31) mod 2 ^ 32 - 2 ^ 31)%Z.

Definition toUint32 (z : Z) : Z := (z mod 2 ^ 32)%Z.

(** [a ^ b] *)
Definition bxor (a b : Z) : Z := toInt32 (Z.lxor (toInt32 a) (toInt32 b)).

(** [a >>> n] *)
Definition ushr (a : Z) (n : Z) : Z := Z.shiftr (toUint32 a) n.

(** [Math.imul(a, b)] *)
Definition imul (a b : Z) : Z := toInt32 (toInt32 a * toInt32 b).

End Int32.

(** ** The world: both random sources *)

Record World := mkWorld {
  rngState : Z;            (* the variable [a] captured by the closure [random] *)
  tape : nat -> R;         (* the n-th value [Math.random()] returns *)
  taken : nat              (* how many values [Math.random()] has returned *)
}.

Inductive Outcome (A : Type) : Type :=
| Returned (a : A) (w : World)
| Thrown.                  (* a TypeError; the world it leaves is not observed *)

Arguments Returned {A} a w.
Arguments Thrown {A}.

Definition M (A : Type) : Type := World -> Outcome A.

Definition ret {A} (a : A) : M A := fun w => Returned a w.

Definition bind {A B} (c : M A) (k : A -> M B) : M B :=
  fun w => match c w with
           | Returned a w' => k a w'
           | Thrown => Thrown
           end.

Definition throw {A} : M A := fun _ => Thrown.

Notation "'let*' x ':=' c 'in' k" := (bind c (fun x => k))
  (at level 10, x name, c at level 100, k at level 200).

(** [array[i]] for a number [i]: [None] is [undefined]. *)
Definition index {A} (l : list A) (i : Z) : option A :=
  if (i <? 0)%Z then None else l !! Z.to_nat i.

(** [v === s] for a value that is a string or [undefined]. *)
Definition strictEq (v : option string) (s : string) : bool :=
  match v with
  | Some s' => String.eqb s' s
  | None => false
  end.

(** ** splitmix32 *)

(** One call of the closure that [splitmix32(a)] returns. *)
Definition splitmix32_next (a : Z) : Z * Z :=
  let a := Int32.toInt32 a in
  let a := Int32.toInt32 (a + 0x9e3779b9) in
  let t := Int32.bxor a (Int32.ushr a 16) in
  let t := Int32.imul t 0x21f0aaad in
  let t := Int32.bxor t (Int32.ushr t 15) in
  let t := Int32.imul t 0x735a2d97 in
  let t := Int32.bxor t (Int32.ushr t 15) in
  (Int32.toUint32 t, a).

Definition random : M R :=
  fun w =>
    let '(u, a) := splitmix32_next (rngState w) in
    Returned (IZR u / 4294967296) (mkWorld a (tape w) (taken w)).

Definition set_random_seed (seed : Z) : M unit :=
  fun w => Returned tt (mkWorld seed (tape w) (taken w)).

(** [Math.random()] *)
Definition mathRandom : M R :=
  fun w => Returned (tape w (taken w)) (mkWorld (rngState w) (tape w) (S (taken w))).

Definition getRandomValue (min max : R) : M R :=
  let* r := random in ret (r * (max - min) + min).

Definition getRandomAge (min max : R) : M R :=
  let* r := random in ret (r * (max - min) + min).

Definition getRandomInt (min max : Z) : M Z :=
  let* r := random in ret (Zfloor (r * IZR (max - min + 1)) + min)%Z.

(** ** Data *)

Module Zone.
Record t := mk { innerBoundary : R; outerBoundary : R }.
End Zone.

Module Star.
Record t := mk {
  type : option string;
  age : R;
  size : R;
  mass : R;
  luminosity : R;
  habitableZone : option Zone.t   (* absent until [generateOrbit] assigns it *)
}.
End Star.

Module Planet.
Record t := mk {
  type : string;
  orbitRadius : R;
  size : R;
  radius : R;
  atmosphere : option string;
  moons : Z;
  axialTilt : R
}.

(** [planet.orbitRadius = r] *)
Definition setOrbitRadius (r : R) (p : t) : t :=
  mk (type p) r (size p) (radius p) (atmosphere p) (moons p) (axialTilt p).
End Planet.

Module Orbit.
Record t := mk {
  parentStar : Star.t;
  solarSystem : list Planet.t;
  habitableZone : option Zone.t
}.
End Orbit.

(** ** The parent star *)

Definition starTypes : list string :=
  ["M"; "K"; "G"; "F"; "A"; "B"; "O"]%string.

Definition generateStarAge (type : option string) : M R :=
  if strictEq type "M" then getRandomAge 1 5000
  else if strictEq type "K" then getRandomAge 1 30
  else if strictEq type "G" then getRandomAge 1 10
  else if strictEq type "F" then getRandomAge 1 4
  else if strictEq type "A" then getRandomAge 0.1 3
  else if strictEq type "B" then getRandomAge 0.01 0.5
  else if strictEq type "O" then getRandomAge 0.001 0.1
  else ret 0.

(** The two draws of one [case] of [generateStarSizeAndMass]: size, then
    mass. *)
Definition sizeAndMass (sizeMin sizeMax massMin massMax : R) : M (R * R) :=
  let* size := getRandomValue sizeMin sizeMax in
  let* mass := getRandomValue massMin massMax in
  ret (size, mass).

Definition generateStarSizeAndMass (type : option string) (age : R) : M (R * R) :=
  if strictEq type "M" then sizeAndMass 0.1 0.7 0.08 0.45
  else if strictEq type "K" then sizeAndMass 0.7 0.96 0.45 0.8
  else if strictEq type "G" then sizeAndMass 0.96 1.15 0.8 1.04
  else if strictEq type "F" then sizeAndMass 1.15 1.4 1.04 1.4
  else if strictEq type "A" then sizeAndMass 1.4 1.8 1.4 2.1
  else if strictEq type "B" then sizeAndMass 1.8 6.6 2.1 16
  else if strictEq type "O" then sizeAndMass 6.6 20 16 90
  else ret (0, 0).

Definition generateStarLuminosity (type : option string) (size : R) : R :=
  if strictEq type "M" then size * 0.08
  else if strictEq type "K" then size * 0.6
  else if strictEq type "G" then size
  else if strictEq type "F" then size * 1.5
  else if strictEq type "A" then size * 5
  else if strictEq type "B" then size * 25
  else if strictEq type "O" then size * 50
  else 0.

Definition generateParentStar : M Star.t :=
  let* r := random in
  let type := index starTypes (Zfloor (r * INR (length starTypes))) in
  let* age := generateStarAge type in
  let* sm := generateStarSizeAndMass type age in
  let luminosity := generateStarLuminosity type (fst sm) in
  ret (Star.mk type age (fst sm) (snd sm) luminosity None).

(** ** The habitable zone *)

Definition calculateHabitableZone (luminosity : R) : Zone.t :=
  let innerBoundary := sqrt (luminosity / 1.1) in
  let outerBoundary := sqrt (luminosity / 0.53) in
  Zone.mk innerBoundary outerBoundary.

Definition isInHabitableZone (orbitRadius : R) (habitableZone : Zone.t) : bool :=
  bool_decide (orbitRadius >= Zone.innerBoundary habitableZone)
  && bool_decide (orbitRadius <= Zone.outerBoundary habitableZone).

(** ** Orbit layout *)

Definition getRandomOrbitRadius (parentStar : Star.t) (planetIndex : nat)
    (totalPlanets : Z) : R :=
  let luminosity := Star.luminosity parentStar in
  let innerHabitable := sqrt (luminosity / 1.1) in
  let outerHabitable := sqrt (luminosity / 0.53) in
  let minOrbit := 0.2 in
  let maxOrbit := Rmax 50 (outerHabitable + 20) in
  let spacingFactor := (ln maxOrbit - ln minOrbit) / IZR totalPlanets in
  exp (ln minOrbit + spacingFactor * INR planetIndex).

(** ** Planet classification *)

(** The declaration has two parameters.  Its one call site, in
    [generateSolarSystem], passes [habitableZonePlanetAdded] as a third
    argument; the embedding keeps that argument as [surplus], which the body,
    like the source's, never reads. *)
Definition determinePlanetType (parentStar : Star.t) (orbitRadius : R)
    (surplus : bool) : M string :=
  let luminosity := Star.luminosity parentStar in
  let innerHabitable := sqrt (luminosity / 1.1) in
  let outerHabitable := sqrt (luminosity / 0.53) in
  if bool_decide (orbitRadius < innerHabitable) then ret "Lava Planet"%string
  else if bool_decide (orbitRadius >= innerHabitable)
          && bool_decide (orbitRadius <= outerHabitable) then
    let* m := mathRandom in
    ret (if bool_decide (m > 0.5) then "Terrestrial" else "Ocean World")%string
  else if bool_decide (orbitRadius > outerHabitable)
          && bool_decide (orbitRadius < outerHabitable + 15) then
    ret "Gas Giant"%string
  else if bool_decide (orbitRadius >= outerHabitable + 5)
          && bool_decide (orbitRadius < 30) then
    ret "Ice Giant"%string
  else ret "Dwarf Planet"%string.

(** ** Planet properties *)

Definition getPlanetSize (planetType : string) : M R :=
  if String.eqb planetType "Lava Planet" then getRandomValue 0.3 1
  else if String.eqb planetType "Terrestrial" then getRandomValue 0.5 1.5
  else if String.eqb planetType "Ocean World" then getRandomValue 0.8 2
  else if String.eqb planetType "Gas Giant" then getRandomValue 6 15
  else if String.eqb planetType "Ice Giant" then getRandomValue 5 14
  else if String.eqb planetType "Dwarf Planet" then getRandomValue 0.1 0.3
  else ret 1.

Module Atmospheres.
Definition trace : list string := ["trace"]%string.
Definition carbon_dioxide : list string :=
  ["carbon_dioxide_type_I"; "carbon_dioxide_type_II"]%string.
Definition hydrogen_helium : list string :=
  ["hydrogen_helium_type_I"; "hydrogen_helium_type_II";
   "hydrogen_helium_type_III"]%string.
Definition ice : list string := ["ice_type_I"; "ice_type_II"]%string.
Definition nitrogen : list string :=
  ["nitrogen_type_I"; "nitrogen_type_II"; "nitrogen_type_III"]%string.
Definition carbon : list string := ["carbon_type_I"]%string.
Definition ammonia : list string := ["ammonia_type_I"]%string.
End Atmospheres.

Definition randomAtmosphere (types : list string) : M (option string) :=
  let* m := mathRandom in
  ret (index types (Zfloor (m * INR (length types)))).

(** [atmospheres['carbon'][0]] and [atmospheres['ammonia'][0]] are written as
    the one-element prefixes of these two one-element pools. *)
Definition getPlanetAtmosphere (planetType : string) (orbitRadius : R)
    (habitableZone : Zone.t) : M (option string) :=
  if String.eqb planetType "Terrestrial" then
    if isInHabitableZone orbitRadius habitableZone then
      randomAtmosphere (Atmospheres.carbon_dioxide ++ Atmospheres.nitrogen)
    else randomAtmosphere Atmospheres.carbon_dioxide
  else if String.eqb planetType "Ocean World" then
    randomAtmosphere
      (Atmospheres.carbon ++ Atmospheres.ammonia ++ Atmospheres.nitrogen)
  else if String.eqb planetType "Gas Giant" then
    randomAtmosphere (Atmospheres.hydrogen_helium ++ take 1 Atmospheres.carbon)
  else if String.eqb planetType "Ice Giant" then
    randomAtmosphere (Atmospheres.ice ++ take 1 Atmospheres.ammonia)
  else if String.eqb planetType "Lava Planet" then
    randomAtmosphere Atmospheres.carbon_dioxide
  else if String.eqb planetType "Dwarf Planet" then
    randomAtmosphere (Atmospheres.trace ++ Atmospheres.carbon_dioxide)
  else ret (Some "unknown"%string).

Definition getPlanetMoons (planetType : string) : M Z :=
  if String.eqb planetType "Terrestrial" then getRandomInt 0 3
  else if String.eqb planetType "Ocean World" then getRandomInt 0 2
  else if String.eqb planetType "Gas Giant" then getRandomInt 1 80
  else if String.eqb planetType "Ice Giant" then getRandomInt 1 50
  else if String.eqb planetType "Lava Planet" then getRandomInt 0 2
  else if String.eqb planetType "Dwarf Planet" then getRandomInt 0 5
  else ret 0%Z.

Module Range.
Record t := mk { min : R; max : R }.
End Range.

(** The own properties of the object literal [tiltRanges], in source order. *)
Definition tiltRanges : list (string * Range.t) :=
  [ ("Dwarf"%string, Range.mk 0 30);
    ("Terrestrial"%string, Range.mk 0 25);
    ("Ocean"%string, Range.mk 10 30);
    ("Lava"%string, Range.mk 0 40);
    ("Gas Giant"%string, Range.mk 15 90);
    ("Ice Giant"%string, Range.mk 10 90) ].

(** [table[key]] on own properties.  What an object literal inherits from
    [Object.prototype] is not modelled: no planet type names such a member. *)
Fixpoint property {A} (table : list (string * A)) (key : string) : option A :=
  match table with
  | [] => None
  | (k, v) :: rest => if String.eqb k key then Some v else property rest key
  end.

(** [tiltRanges[planetType] || tiltRanges['Terrestrial']]; a range object is
    truthy, so the right operand is taken exactly when the key is absent. *)
Definition tiltRange (planetType : string) : option Range.t :=
  match property tiltRanges planetType with
  | Some range => Some range
  | None => property tiltRanges "Terrestrial"
  end.

Definition getAxialTilt (planetType : string) : M R :=
  match tiltRange planetType with
  | Some range =>
      let* m := mathRandom in
      ret (m * (Range.max range - Range.min range) + Range.min range)
  | None => throw
  end.

(** ** The habitability pass *)

(** The source mutates the chosen element of [planets] in place; the planets
    of one system are distinct objects, so the list with that one element
    replaced is the array after the call.  Reading [orbitRadius] off
    [planets[i]] when that is [undefined] throws. *)
Definition adjustForHabitableZonePlanet (planets : list Planet.t)
    (habitableZone : Zone.t) : M (list Planet.t) :=
  let habitableZonePlanetExists :=
    existsb (fun planet => isInHabitableZone (Planet.orbitRadius planet) habitableZone)
            planets in
  if negb habitableZonePlanetExists then
    let* r := random in
    let i := Zfloor (r * INR (length planets)) in
    match index planets i with
    | Some planetToAdjust =>
        let midpoint :=
          (Zone.innerBoundary habitableZone + Zone.outerBoundary habitableZone) / 2 in
        ret (<[Z.to_nat i := Planet.setOrbitRadius midpoint planetToAdjust]> planets)
    | None => throw
    end
  else ret planets.

(** ** Sorting *)

(** [array.sort(compare)]: the stable sort of the language, for a comparator
    whose sign orders the elements; an element goes before the first one it
    does not compare greater than. *)
Fixpoint insertSorted {A} (compare : A -> A -> R) (x : A) (l : list A) : list A :=
  match l with
  | [] => [x]
  | y :: rest =>
      if bool_decide (compare x y <= 0) then x :: y :: rest
      else y :: insertSorted compare x rest
  end.

Definition sort {A} (compare : A -> A -> R) (l : list A) : list A :=
  foldr (insertSorted compare) [] l.

Definition byOrbitRadius (a b : Planet.t) : R :=
  Planet.orbitRadius a - Planet.orbitRadius b.

(** ** The solar system *)

(** The body of the [for] loop, run [remaining] more times from index [i]. *)
Fixpoint generatePlanets (parentStar : Star.t) (habitableZone : Zone.t)
    (numberOfPlanets : Z) (remaining : nat) (i : nat)
    (solarSystemPlanets : list Planet.t) (habitableZonePlanetAdded : bool)
    : M (list Planet.t * bool) :=
  match remaining with
  | O => ret (solarSystemPlanets, habitableZonePlanetAdded)
  | S remaining' =>
      let orbitRadius := getRandomOrbitRadius parentStar i numberOfPlanets in
      let* planetType :=
        determinePlanetType parentStar orbitRadius habitableZonePlanetAdded in
      let* planetSize := getPlanetSize planetType in
      let* planetAtmosphere :=
        getPlanetAtmosphere planetType orbitRadius habitableZone in
      let* planetMoons := getPlanetMoons planetType in
      let* axialTilt := getAxialTilt planetType in
      let habitableZonePlanetAdded :=
        if isInHabitableZone orbitRadius habitableZone then true
        else habitableZonePlanetAdded in
      generatePlanets parentStar habitableZone numberOfPlanets remaining' (S i)
        (solarSystemPlanets ++
           [Planet.mk planetType orbitRadius planetSize planetSize
                      planetAtmosphere planetMoons axialTilt])
        habitableZonePlanetAdded
  end.

(** [parentStar.habitableZone] is read inside the loop and handed to
    [isInHabitableZone], which throws on [undefined]; the loop always runs, so
    a star without the property makes the call throw. *)
Definition generateSolarSystem (parentStar : Star.t) : M (list Planet.t) :=
  let* numberOfPlanets := getRandomInt 3 18 in
  match Star.habitableZone parentStar with
  | None => throw
  | Some habitableZone =>
      let* loop :=
        generatePlanets parentStar habitableZone numberOfPlanets
          (Z.to_nat numberOfPlanets) 0 [] false in
      let* solarSystemPlanets :=
        if negb (snd loop) then
          adjustForHabitableZonePlanet (fst loop) habitableZone
        else ret (fst loop) in
      ret (sort byOrbitRadius solarSystemPlanets)
  end.

(** ** The entry point *)

(** [parentStar.habitableZone = z] *)
Definition setHabitableZone (z : Zone.t) (s : Star.t) : Star.t :=
  Star.mk (Star.type s) (Star.age s) (Star.size s) (Star.mass s)
          (Star.luminosity s) (Some z).

(** [seed] is [None] for a call without a seed ([null] or [undefined]). *)
Definition generateOrbit (seed : option Z) : M Orbit.t :=
  let* _ := match seed with
            | Some s => set_random_seed s
            | None => ret tt
            end in
  let* parentStar := generateParentStar in
  let luminosity :=
    generateStarLuminosity (Star.type parentStar) (Star.size parentStar) in
  let parentStar := setHabitableZone (calculateHabitableZone luminosity) parentStar in
  let* solarSystem := generateSolarSystem parentStar in
  ret (Orbit.mk parentStar solarSystem (Star.habitableZone parentStar)).

(** * Vocabulary of the statements *)

(** [returns c w Q]: from world [w] the computation [c] does not throw, and
    its result and final world satisfy [Q]. *)
Definition returns {A} (c : M A) (w : World) (Q : A -> World -> Prop) : Prop :=
  match c w with
  | Returned a w' => Q a w'
  | Thrown => False
  end.

(** What a call leaves of the [Math.random] tape: the same tape, read no
    further back. *)
Definition tapeKept (w w' : World) : Prop :=
  tape w' = tape w /\ (taken w <= taken w')%nat.

Definition inZone (habitableZone : Zone.t) (planet : Planet.t) : bool :=
  isInHabitableZone (Planet.orbitRadius planet) habitableZone.

(** The planet's axial tilt was computed from the [Math.random] draw number
    [n], for some [n] from [lo] up to but not including [hi], and a range of
    the tilt table. *)
Definition tiltDrawn (tp : nat -> R) (lo hi : nat) (planet : Planet.t) : Prop :=
  exists range n,
    range ∈ tiltRanges.*2 /\ (lo <= n < hi)%nat
    /\ Planet.axialTilt planet
       = tp n * (Range.max range - Range.min range) + Range.min range.

Definition zoneMidpoint (habitableZone : Zone.t) : R :=
  (Zone.innerBoundary habitableZone + Zone.outerBoundary habitableZone) / 2.

Definition orbitLe (a b : Planet.t) : Prop :=
  Planet.orbitRadius a <= Planet.orbitRadius b.

(** A tape on which [Math.random] never returns the same value twice: the
    n-th value is a little above 0.75, by less than 0.001. *)
Definition jitterTape (n : nat) : R := 0.75 + / (1000 + INR n).

(** The captured variable of [random] after one more call. *)
Definition nextState (a : Z) : Z := snd (splitmix32_next a).

(** A computation that reads and moves the seeded source only: from two
    worlds with the same captured variable it returns the same value and the
    same captured variable, and leaves each [Math.random] tape as it was. *)
Definition seededOnly {A} (c : M A) : Prop :=
  forall w1 w2,
    rngState w1 = rngState w2 ->
    exists a s,
      c w1 = Returned a (mkWorld s (tape w1) (taken w1))
      /\ c w2 = Returned a (mkWorld s (tape w2) (taken w2)).

(** The six planet types. *)
Definition knownType (planetType : string) : Prop :=
  planetType = "Lava Planet"%string \/ planetType = "Terrestrial"%string
  \/ planetType = "Ocean World"%string \/ planetType = "Gas Giant"%string
  \/ planetType = "Ice Giant"%string \/ planetType = "Dwarf Planet"%string.

Definition sameOrbit (p1 p2 : Planet.t) : Prop :=
  Planet.orbitRadius p1 = Planet.orbitRadius p2.

(** A G star of one solar luminosity, before its habitable zone is set. *)
Definition sun : Star.t := Star.mk (Some "G"%string) 5 1 1 1 None.

(** A second G star of one solar luminosity, younger and lighter. *)
Definition sunTwin : Star.t := Star.mk (Some "G"%string) 2 1 0.9 1 None.

(** [sun] as [generateOrbit] hands it to [generateSolarSystem]. *)
Definition sunWithZone : Star.t := setHabitableZone (calculateHabitableZone 1) sun.

(** A G star of luminosity 1.1, whose inner habitable boundary is 1 AU. *)
Definition warmStar : Star.t :=
  Star.mk (Some "G"%string) 1 1.1 1 1.1 (Some (calculateHabitableZone 1.1)).

(** A gas giant at 10 AU. *)
Definition gasGiant : Planet.t :=
  Planet.mk "Gas Giant" 10 8 8 (Some "carbon_type_I"%string) 12 40.

(** * The display code *)

(** The functions of [script.js] that compute numbers, colours and names for
    the scene from what the generators return.  The scene graph, the DOM and
    the clipboard are not modelled. *)

#[global] Instance Req_decision (x y : R) : Decision (x = y) := Req_dec_T x y.

Definition AU_TO_SCENE_SCALE : R := 21840.

(** ** The star *)

(** [generateStar] stores its result in [universeData.starData]; the stored
    object is the result here.  It keeps the type and the age of the star of
    [generateParentStar] and draws size and mass again. *)
Definition generateStar : M Star.t :=
  let* parentStar := generateParentStar in
  let* sm :=
    generateStarSizeAndMass (Star.type parentStar) (Star.age parentStar) in
  let luminosity := generateStarLuminosity (Star.type parentStar) (fst sm) in
  let habitableZone := calculateHabitableZone luminosity in
  ret (Star.mk (Star.type parentStar) (Star.age parentStar) (fst sm) (snd sm)
               luminosity (Some habitableZone)).

Definition calculateStarTemperature (starType : option string) : R :=
  if strictEq starType "M" then 3250
  else if strictEq starType "K" then 4250
  else if strictEq starType "G" then 5750
  else if strictEq starType "F" then 6750
  else if strictEq starType "A" then 8750
  else if strictEq starType "B" then 20000
  else if strictEq starType "O" then 35000
  else 5500.

(** The object literal [temperatures] of [calculateStarColorAndIntensity]. *)
Definition temperatures : list (string * R) :=
  [ ("O"%string, 35000); ("B"%string, 20000); ("A"%string, 8750);
    ("F"%string, 6750); ("G"%string, 5750); ("K"%string, 4250);
    ("M"%string, 3250) ].

(** [table[key]] for a key that is a string or [undefined], which names the
    property "undefined". *)
Definition propertyOf {A} (table : list (string * A)) (key : option string)
    : option A :=
  match key with
  | Some k => property table k
  | None => property table "undefined"
  end.

(** [v || d] for a number or [undefined] on the left: 0 and [undefined] are
    falsy. *)
Definition orElse (v : option R) (d : R) : R :=
  match v with
  | Some x => if bool_decide (x = 0) then d else x
  | None => d
  end.

Definition applyVisualTemperatureVariance (baseTemperature : R) : M R :=
  let variancePercentage := 0.05 in
  let varianceAmount := baseTemperature * variancePercentage in
  let* m := mathRandom in
  ret (baseTemperature + (m * 2 - 1) * varianceAmount).

(** [Math.round]: the nearest integer, a half going up. *)
Definition mathRound (x : R) : Z := Zfloor (x + 1 / 2).

(** The string of an integer-valued number. *)
Definition numberToString (n : Z) : string := NilZero.string_of_int (Z.to_int n).

Module Colors.
Definition red : list Z := [255; 0; 0]%Z.
Definition yellow : list Z := [255; 255; 0]%Z.
Definition white : list Z := [255; 255; 255]%Z.
Definition lightBlue : list Z := [173; 216; 230]%Z.
Definition blue : list Z := [0; 0; 255]%Z.
End Colors.

(** One turn of the loop of [interpolateColors].  An array read out of range
    would give [NaN], which the model has no number for: [None]. *)
Definition interpolateChannel (color1 color2 : list Z) (factor : R)
    (result : option (list Z)) (i : nat) : option (list Z) :=
  match result with
  | Some result =>
      match result !! i, color2 !! i, color1 !! i with
      | Some x, Some c2, Some c1 =>
          Some (<[i := mathRound (IZR x + factor * (IZR c2 - IZR c1))]> result)
      | _, _, _ => None
      end
  | None => None
  end.

Definition interpolateColors (color1 color2 : list Z) (factor : R)
    : option (list Z) :=
  foldl (interpolateChannel color1 color2 factor) (Some color1) [0; 1; 2]%nat.

(** The array [color] of [temperatureToRGB]. *)
Definition temperatureColor (temperature : R) : option (list Z) :=
  let minTemp := 3000 in
  let maxTemp := 40000 in
  let t := (Rmin (Rmax temperature minTemp) maxTemp - minTemp) / (maxTemp - minTemp) in
  if bool_decide (t < 0.25) then
    interpolateColors Colors.red Colors.yellow (t / 0.25)
  else if bool_decide (t < 0.5) then
    interpolateColors Colors.yellow Colors.white ((t - 0.25) / 0.25)
  else if bool_decide (t < 0.75) then
    interpolateColors Colors.white Colors.lightBlue ((t - 0.5) / 0.25)
  else
    interpolateColors Colors.lightBlue Colors.blue ((t - 0.75) / 0.25).

Definition temperatureToRGB (temperature : R) : option string :=
  match temperatureColor temperature with
  | Some color =>
      match color !! 0%nat, color !! 1%nat, color !! 2%nat with
      | Some c0, Some c1, Some c2 =>
          Some (String.append "rgb("
                 (String.append (numberToString c0)
                   (String.append ", "
                     (String.append (numberToString c1)
                       (String.append ", "
                         (String.append (numberToString c2) ")"))))))
      | _, _, _ => None
      end
  | None => None
  end.

Definition calculateStarColorAndIntensity (starType : option string)
    (starLuminosity : R) : M (option string * R) :=
  let baseTemperature := orElse (propertyOf temperatures starType) 5800 in
  let* variedTemperature := applyVisualTemperatureVariance baseTemperature in
  let color := temperatureToRGB variedTemperature in
  let baseIntensity := 1 in
  let intensity := Rmin (baseIntensity * starLuminosity) 300 in
  ret (color, intensity).

(** ** Planets *)


Definition ROTATION_SPEED_SCALE : R := 0.001.
Definition ORBITAL_SPEED_SCALE : R := 0.000000048.

Definition rotationSpeedToEarthHours (rotationSpeed : R) : R :=
  let rotationPeriodHours := 2 * PI / Rabs rotationSpeed * ROTATION_SPEED_SCALE in
  rotationPeriodHours.

Definition orbitalSpeedToEarthDays (orbitalSpeed orbitRadiusAU : R) : R :=
  let orbitalPeriodDays :=
    2 * PI * orbitRadiusAU / orbitalSpeed * ORBITAL_SPEED_SCALE in
  orbitalPeriodDays.

Definition localDaysPerOrbit (rotationSpeed orbitalSpeed orbitRadiusAU : R) : R :=
  let rotationPeriodHours := rotationSpeedToEarthHours rotationSpeed in
  let orbitalPeriodDays := orbitalSpeedToEarthDays orbitalSpeed orbitRadiusAU in
  let rotationPeriodDays := rotationPeriodHours / 24 in
  let localDays := orbitalPeriodDays / rotationPeriodDays in
  localDays.

Definition getRotationSpeed (orbitRadius : R) (habitableZone : Zone.t)
    (AU_TO_SCENE_SCALE systemOuterEdge : R) : M R :=
  let orbitRadiusAU := orbitRadius / AU_TO_SCENE_SCALE in
  let systemSizeAU := systemOuterEdge / AU_TO_SCENE_SCALE in
  let distancePercentage := orbitRadiusAU / systemSizeAU in
  let habitableZoneWidth :=
    Zone.outerBoundary habitableZone - Zone.innerBoundary habitableZone in
  let scalingFactor := 1 + habitableZoneWidth / 2 in
  let* m := mathRandom in
  let randomFactor := m * scalingFactor in
  let baseRotationSpeed := 0.0001 + distancePercentage * randomFactor * 0.0001 in
  let habCenterAU :=
    (Zone.innerBoundary habitableZone + Zone.outerBoundary habitableZone) / 2 in
  let distanceFromCenter := Rabs (orbitRadiusAU - habCenterAU) / habCenterAU in
  let speedModifier := Rmax 0.5 (1 - distanceFromCenter) in
  let finalRotationSpeed := baseRotationSpeed * speedModifier in
  let finalRotationSpeed := Rmax 0.00001 (Rmin finalRotationSpeed 0.0005) in
  let* m' := mathRandom in
  ret (finalRotationSpeed * (if bool_decide (m' < 0.5) then 1 else -1)).

(** The two values that the callback of [populateUniverseData] computes for a
    planet from this file alone: [orbitalSpeed], and [rotationSpeed] with
    [systemOuterEdge] the orbit radius of the last planet.  Reading a
    property of [undefined] throws. *)
Definition orbitalSpeedOf (planet : Planet.t) : R :=
  let baseSpeed := 0.00001 in
  let scalingFactor := 21840 in
  baseSpeed / (Planet.orbitRadius planet * scalingFactor).

Definition rotationSpeedOf (orbitData : Orbit.t) (planet : Planet.t) : M R :=
  match last (Orbit.solarSystem orbitData),
        Star.habitableZone (Orbit.parentStar orbitData) with
  | Some outermost, Some zone =>
      let systemOuterEdge := Planet.orbitRadius outermost in
      getRotationSpeed (Planet.orbitRadius planet)
        (Zone.mk (Zone.innerBoundary zone) (Zone.outerBoundary zone))
        AU_TO_SCENE_SCALE systemOuterEdge
  | _, _ => throw
  end.

(** ** Names *)

(** [s.charAt(i)]: the empty string out of range. *)
Definition charAt (s : string) (i : Z) : string :=
  if (i <? 0)%Z then EmptyString
  else match String.get (Z.to_nat i) s with
       | Some c => String c EmptyString
       | None => EmptyString
       end.

(** One of the two [for] loops of [generateSystemName], which have the same
    body, with [remaining] turns to go. *)
Fixpoint appendRandomChars (chars name : string) (remaining : nat) : M string :=
  match remaining with
  | O => ret name
  | S remaining' =>
      let* m := mathRandom in
      appendRandomChars chars
        (String.append name
           (charAt chars (Zfloor (m * INR (String.length chars)))))
        remaining'
  end.

(** [generateSystemName] stores the name in [universeData.systemName]; the
    stored name is the result here. *)
Definition generateSystemName : M string :=
  let chars := "0123456789ABCDEFGHIJKLMNOPQRSTUVWXYZ"%string in
  let name := "P"%string in
  let* name := appendRandomChars chars name 3 in
  let name := String.append name "-" in
  let* name := appendRandomChars chars name 3 in
  ret name.

(** ** The colour of the atmosphere *)

(** The object literal [baseColors] of [getAtmosphereColor]. *)
Definition baseColors : list (string * string) :=
  [ ("trace", "#E0E0E0");
    ("carbon_dioxide_type_I", "#E57373");
    ("carbon_dioxide_type_II", "#B71C1C");
    ("hydrogen_helium_type_I", "#FFF59D");
    ("hydrogen_helium_type_II", "#FFCC80");
    ("hydrogen_helium_type_III", "#FFE0B2");
    ("ice_type_I", "#B2EBF2");
    ("ice_type_II", "#64B5F6");
    ("nitrogen_type_I", "#81D4FA");
    ("nitrogen_type_II", "#42A5F5");
    ("nitrogen_type_III", "#4FC3F7");
    ("carbon_type_I", "#CE93D8");
    ("ammonia_type_I", "#AED581");
    ("unknown", "#add8e6") ]%string.

(** The value of a hexadecimal digit, capital or small. *)
Definition hexDigitValue (c : ascii) : option Z :=
  let n := Z.of_nat (nat_of_ascii c) in
  if (48 <=? n)%Z && (n <=? 57)%Z then Some (n - 48)%Z
  else if (97 <=? n)%Z && (n <=? 102)%Z then Some (n - 87)%Z
  else if (65 <=? n)%Z && (n <=? 70)%Z then Some (n - 55)%Z
  else None.

(** The digits of [s] up to the first character that is none, read onto
    [acc]. *)
Fixpoint parseDigits (s : string) (acc : Z) : Z :=
  match s with
  | EmptyString => acc
  | String c rest =>
      match hexDigitValue c with
      | Some d => parseDigits rest (acc * 16 + d)%Z
      | None => acc
      end
  end.

(** [parseInt(s, 16)] for a string without leading white space, sign or 0x
    prefix, as the colours of the table are; [None] is [NaN]. *)
Definition parseInt16 (s : string) : option Z :=
  match s with
  | EmptyString => None
  | String c _ =>
      match hexDigitValue c with
      | Some _ => Some (parseDigits s 0)
      | None => None
      end
  end.

(** The operand of a bitwise operator: a number as a 32-bit integer, [NaN]
    as 0. *)
Definition operand (v : option Z) : Z :=
  match v with
  | Some z => Int32.toInt32 z
  | None => 0%Z
  end.

(** [a >> n], [a & b] and [a << n] *)
Definition sar (a : option Z) (n : Z) : Z := Z.shiftr (operand a) n.
Definition band (a b : Z) : Z := Z.land (Int32.toInt32 a) (Int32.toInt32 b).
Definition shl (a n : Z) : Z := Int32.toInt32 (Z.shiftl (Int32.toInt32 a) n).

(** [s.substring(1)] and [s.slice(1)] *)
Definition dropFirst (s : string) : string :=
  match s with
  | EmptyString => EmptyString
  | String _ rest => rest
  end.

Definition hexDigit (d : Z) : ascii :=
  if (d <? 10)%Z then ascii_of_nat (Z.to_nat (48 + d))
  else ascii_of_nat (Z.to_nat (87 + d)).

(** The digits of [n] before [acc], the last one first; [fuel] bounds their
    number. *)
Fixpoint toHexDigits (fuel : nat) (n : Z) (acc : string) : string :=
  match fuel with
  | O => acc
  | S fuel' =>
      let acc := String (hexDigit (n mod 16)) acc in
      if (n <? 16)%Z then acc else toHexDigits fuel' (n / 16) acc
  end.

(** [n.toString(16)] for a whole number that is not negative. *)
Definition toString16 (n : Z) : string :=
  toHexDigits (S (Z.to_nat (Z.log2 n))) n EmptyString.

(** One channel with its variation: [Math.min(255, Math.max(0, c +
    Math.floor(Math.random() * 11) - 5))]. *)
Definition varied (channel : Z) : M Z :=
  let* m := mathRandom in
  ret (Z.min 255 (Z.max 0 (channel + Zfloor (m * 11) - 5))).

Definition applyRandomVariation (color : string) : M string :=
  let rgb := parseInt16 (dropFirst color) in
  let r := band (sar rgb 16) 0xFF in
  let g := band (sar rgb 8) 0xFF in
  let b := band (operand rgb) 0xFF in
  let* r := varied r in
  let* g := varied g in
  let* b := varied b in
  ret (String "#"
         (dropFirst (toString16 (shl 1 24 + shl r 16 + shl g 8 + b)))).

(** A string is truthy when it is not empty. *)
Definition getAtmosphereColor (composition : option string) : M string :=
  match propertyOf baseColors composition with
  | Some color =>
      if negb (String.eqb color EmptyString) then applyRandomVariation color
      else match property baseColors "unknown" with
           | Some unknown => applyRandomVariation unknown
           | None => throw
           end
  | None =>
      match property baseColors "unknown" with
      | Some unknown => applyRandomVariation unknown
      | None => throw
      end
  end.

(** ** Bloom *)

(** [bloomPass.strength] as [adjustBloomEffect] sets it from
    [universeData.parentStar.luminosity]. *)
Definition adjustBloomEffect (starLuminosity : R) : R :=
  let luminosityFloor := 0.75 in
  let luminosityCeiling := 1.00 in
  let minBloomStrength := 0.75 in
  let maxBloomStrength := 1.00 in
  let bloomStrength :=
    if bool_decide (starLuminosity <= luminosityCeiling) then
      let normalizedLuminosity :=
        (starLuminosity - luminosityFloor) / (luminosityCeiling - luminosityFloor) in
      maxBloomStrength - normalizedLuminosity * (maxBloomStrength - minBloomStrength)
    else
      maxBloomStrength / ln (starLuminosity - luminosityCeiling + 5) in
  Rmax bloomStrength minBloomStrength.

(** * Vocabulary of the further properties *)

(** One [case] of the star switches: the age, size and mass ranges of
    [generateStarAge] and [generateStarSizeAndMass] and the multiplier of
    [generateStarLuminosity]. *)
Module StarBand.
Record t := mk {
  ageMin : R; ageMax : R;
  sizeMin : R; sizeMax : R;
  massMin : R; massMax : R;
  multiplier : R
}.
End StarBand.

Definition starBands : list (string * StarBand.t) :=
  [ ("M"%string, StarBand.mk 1 5000 0.1 0.7 0.08 0.45 0.08);
    ("K"%string, StarBand.mk 1 30 0.7 0.96 0.45 0.8 0.6);
    ("G"%string, StarBand.mk 1 10 0.96 1.15 0.8 1.04 1);
    ("F"%string, StarBand.mk 1 4 1.15 1.4 1.04 1.4 1.5);
    ("A"%string, StarBand.mk 0.1 3 1.4 1.8 1.4 2.1 5);
    ("B"%string, StarBand.mk 0.01 0.5 1.8 6.6 2.1 16 25);
    ("O"%string, StarBand.mk 0.001 0.1 6.6 20 16 90 50) ].

(** A star as the generator makes it: a class of the table, age, size and
    mass in the ranges of the class, luminosity the size times the class
    multiplier. *)
Definition starInBand (star : Star.t) : Prop :=
  exists class band,
    Star.type star = Some class
    /\ (class, band) ∈ starBands
    /\ StarBand.ageMin band <= Star.age star < StarBand.ageMax band
    /\ StarBand.sizeMin band <= Star.size star < StarBand.sizeMax band
    /\ StarBand.massMin band <= Star.mass star < StarBand.massMax band
    /\ Star.luminosity star = Star.size star * StarBand.multiplier band.

(** One planet type: the size range of [getPlanetSize], the moon range of
    [getPlanetMoons], the largest candidate list of [getPlanetAtmosphere],
    and the range that [getAxialTilt] samples for the type: its entry of
    [tiltRanges] for Terrestrial, Gas Giant and Ice Giant, and the
    Terrestrial entry, to which the lookup falls back, for the three types
    whose names are no keys of that table. *)
Module PlanetBand.
Record t := mk {
  sizeMin : R; sizeMax : R;
  moonsMin : Z; moonsMax : Z;
  atmospheres : list string;
  tiltMin : R; tiltMax : R
}.
End PlanetBand.

Definition planetBands : list (string * PlanetBand.t) :=
  [ ("Lava Planet"%string,
     PlanetBand.mk 0.3 1 0 2 Atmospheres.carbon_dioxide 0 25);
    ("Terrestrial"%string,
     PlanetBand.mk 0.5 1.5 0 3 (Atmospheres.carbon_dioxide ++ Atmospheres.nitrogen)
       0 25);
    ("Ocean World"%string,
     PlanetBand.mk 0.8 2 0 2
       (Atmospheres.carbon ++ Atmospheres.ammonia ++ Atmospheres.nitrogen) 0 25);
    ("Gas Giant"%string,
     PlanetBand.mk 6 15 1 80
       (Atmospheres.hydrogen_helium ++ take 1 Atmospheres.carbon) 15 90);
    ("Ice Giant"%string,
     PlanetBand.mk 5 14 1 50 (Atmospheres.ice ++ take 1 Atmospheres.ammonia)
       10 90);
    ("Dwarf Planet"%string,
     PlanetBand.mk 0.1 0.3 0 5 (Atmospheres.trace ++ Atmospheres.carbon_dioxide)
       0 25) ].

(** Every value on the [Math.random] tape is one [Math.random] can return. *)
Definition unitTape (tp : nat -> R) : Prop := forall n, 0 <= tp n < 1.

(** The sampled properties of a planet fit its type; the atmosphere and the
    axial tilt, which are computed from [Math.random], under the condition
    [draws] on those values. *)
Definition propertiesInBand (draws : Prop) (planet : Planet.t) : Prop :=
  exists band,
    (Planet.type planet, band) ∈ planetBands
    /\ PlanetBand.sizeMin band <= Planet.size planet < PlanetBand.sizeMax band
    /\ Planet.radius planet = Planet.size planet
    /\ (PlanetBand.moonsMin band <= Planet.moons planet <= PlanetBand.moonsMax band)%Z
    /\ (draws ->
        (exists a, Planet.atmosphere planet = Some a
                   /\ a ∈ PlanetBand.atmospheres band)
        /\ PlanetBand.tiltMin band <= Planet.axialTilt planet
           < PlanetBand.tiltMax band).

(** The type that the ordered tests of [determinePlanetType] give an orbit
    radius around a star of the given luminosity. *)
Definition classified (luminosity orbitRadius : R) (planetType : string) : Prop :=
  let inner := sqrt (luminosity / 1.1) in
  let outer := sqrt (luminosity / 0.53) in
  (orbitRadius < inner /\ planetType = "Lava Planet"%string)
  \/ (inner <= orbitRadius <= outer
      /\ (planetType = "Terrestrial"%string \/ planetType = "Ocean World"%string))
  \/ (outer < orbitRadius < outer + 15 /\ planetType = "Gas Giant"%string)
  \/ (outer + 15 <= orbitRadius < 30 /\ planetType = "Ice Giant"%string)
  \/ (outer + 15 <= orbitRadius /\ 30 <= orbitRadius
      /\ planetType = "Dwarf Planet"%string).

(** The planet that the loop of [generateSolarSystem] builds in slot [k]. *)
Definition slotPlanet (parentStar : Star.t) (numberOfPlanets : Z) (draws : Prop)
    (k : nat) (planet : Planet.t) : Prop :=
  Planet.orbitRadius planet = getRandomOrbitRadius parentStar k numberOfPlanets
  /\ classified (Star.luminosity parentStar) (Planet.orbitRadius planet)
       (Planet.type planet)
  /\ propertiesInBand draws planet.

(** [maxOrbit] of [getRandomOrbitRadius]. *)
Definition maxOrbitOf (luminosity : R) : R :=
  Rmax 50 (sqrt (luminosity / 0.53) + 20).

(** What [generateSolarSystem] returns for a star with habitable zone
    [habitableZone]: the planets of the slots of the loop, one of them moved
    to the midpoint of the zone when none was in the zone, sorted. *)
Definition systemOf (parentStar : Star.t) (habitableZone : Zone.t) (draws : Prop)
    (planets : list Planet.t) : Prop :=
  exists (numberOfPlanets : Z) (slots : list Planet.t),
    (3 <= numberOfPlanets <= 18)%Z
    /\ length slots = Z.to_nat numberOfPlanets
    /\ (forall k planet,
          slots !! k = Some planet ->
          slotPlanet parentStar numberOfPlanets draws k planet)
    /\ ((existsb (inZone habitableZone) slots = true
         /\ planets = sort byOrbitRadius slots)
        \/ (existsb (inZone habitableZone) slots = false
            /\ exists i planet,
                 slots !! i = Some planet
                 /\ planets
                    = sort byOrbitRadius
                        (<[i := Planet.setOrbitRadius (zoneMidpoint habitableZone)
                                  planet]> slots))).

(** The text "rgb(r, g, b)". *)
Definition rgbString (r g b : Z) : string :=
  String.append "rgb("
    (String.append (numberToString r)
       (String.append ", "
          (String.append (numberToString g)
             (String.append ", " (String.append (numberToString b) ")"))))).

(** The channels of a colour "#rrggbb", read as [applyRandomVariation] reads
    them. *)
Definition channelsOf (color : string) : Z * Z * Z :=
  let rgb := parseInt16 (dropFirst color) in
  (band (sar rgb 16) 0xFF, band (sar rgb 8) 0xFF, band (operand rgb) 0xFF).

(** Two hexadecimal digits of a channel. *)
Definition hexByte (c : Z) (rest : string) : string :=
  String (hexDigit (c / 16)) (String (hexDigit (c mod 16)) rest).

(** The names that every object literal inherits from [Object.prototype].  A
    lookup of one of them finds the inherited member, which [property] and
    [propertyOf] do not model. *)
Definition inheritedNames : list string :=
  [ "constructor"; "hasOwnProperty"; "isPrototypeOf"; "propertyIsEnumerable";
    "toLocaleString"; "toString"; "valueOf"; "__proto__"; "__defineGetter__";
    "__defineSetter__"; "__lookupGetter__"; "__lookupSetter__" ]%string.

Definition notInherited (key : option string) : Prop :=
  forall name, name ∈ inheritedNames -> key <> Some name.

(** The place of a planet type in the order of the tests of
    [determinePlanetType], from the star outwards. *)
Definition typeRank (planetType : string) : nat :=
  if String.eqb planetType "Lava Planet" then 0
  else if String.eqb planetType "Terrestrial" then 1
  else if String.eqb planetType "Ocean World" then 1
  else if String.eqb planetType "Gas Giant" then 2
  else if String.eqb planetType "Ice Giant" then 3
  else 4.

Definition typeRankLe (a b : Planet.t) : Prop :=
  (typeRank (Planet.type a) <= typeRank (Planet.type b))%nat.

(** * Properties *)

(** ** Reasoning about effectful code *)

Lemma returns_ret {A} (a : A) w (Q : A -> World -> Prop) :
  Q a w -> returns (ret a) w Q.
Proof. intros H. exact H. Qed.

Lemma returns_bind {A B} (c : M A) (k : A -> M B) w (Q : B -> World -> Prop) :
  returns c w (fun a w' => returns (k a) w' Q) -> returns (bind c k) w Q.
Proof. unfold returns, bind. destruct (c w); auto. Qed.

Lemma returns_mono {A} (c : M A) w (P Q : A -> World -> Prop) :
  returns c w P -> (forall a w', P a w' -> Q a w') -> returns c w Q.
Proof. unfold returns. destruct (c w); auto. Qed.

Lemma returns_inv {A} (c : M A) w (Q : A -> World -> Prop) :
  returns c w Q -> exists a w', c w = Returned a w' /\ Q a w'.
Proof. unfold returns. destruct (c w); [eauto | tauto]. Qed.

Lemma returns_intro {A} (c : M A) w a w' (Q : A -> World -> Prop) :
  c w = Returned a w' -> Q a w' -> returns c w Q.
Proof. unfold returns. intros ->. auto. Qed.

Lemma returns_and {A} (c : M A) w (P Q : A -> World -> Prop) :
  returns c w P -> returns c w Q -> returns c w (fun a w' => P a w' /\ Q a w').
Proof. unfold returns. destruct (c w); auto. Qed.

(** A [switch] or an [if] chain: one goal for each way through it. *)
Ltac each_branch :=
  repeat (match goal with |- context [if ?b then _ else _] => destruct b end).

Lemma tapeKept_refl w : tapeKept w w.
Proof. split; [reflexivity | lia]. Qed.

Lemma tapeKept_trans w1 w2 w3 : tapeKept w1 w2 -> tapeKept w2 w3 -> tapeKept w1 w3.
Proof. intros [E1 L1] [E2 L2]. split; [congruence | lia]. Qed.

(** ** The seeded source *)

Lemma toUint32_range z : (0 <= Int32.toUint32 z < 4294967296)%Z.
Proof. unfold Int32.toUint32. apply Z.mod_pos_bound. reflexivity. Qed.

Lemma splitmix32_next_range a :
  (0 <= fst (splitmix32_next a) < 4294967296)%Z.
Proof. unfold splitmix32_next. cbn [fst]. apply toUint32_range. Qed.

Lemma random_unit w :
  returns random w (fun r w' => 0 <= r < 1 /\ tapeKept w w' /\ taken w' = taken w).
Proof.
  unfold returns, random.
  pose proof (splitmix32_next_range (rngState w)) as Hu.
  destruct (splitmix32_next (rngState w)) as [u a]. cbn [fst] in Hu.
  destruct Hu as [H0 H1]. apply IZR_le in H0. apply IZR_lt in H1.
  repeat split; cbn; try lra; try lia.
Qed.

Lemma mathRandom_draw w :
  returns mathRandom w (fun m w' =>
    m = tape w (taken w) /\ tapeKept w w' /\ rngState w' = rngState w).
Proof. unfold returns, mathRandom, tapeKept. cbn. repeat split; lia. Qed.

Lemma getRandomValue_range min max w :
  min <= max ->
  returns (getRandomValue min max) w (fun v w' =>
    min <= v <= max /\ tapeKept w w' /\ taken w' = taken w).
Proof.
  intros Hmm. unfold getRandomValue. apply returns_bind.
  eapply returns_mono; [apply random_unit |].
  intros r w' (Hr & Hk & Ht). apply returns_ret.
  split; [split; nra | auto].
Qed.

Lemma getRandomAge_returns min max w :
  returns (getRandomAge min max) w (fun _ w' => tapeKept w w' /\ taken w' = taken w).
Proof.
  unfold getRandomAge. apply returns_bind.
  eapply returns_mono; [apply random_unit |].
  intros r w' (Hr & Hk & Ht). apply returns_ret. auto.
Qed.

Lemma getRandomInt_range min max w :
  (min <= max)%Z ->
  returns (getRandomInt min max) w (fun n w' =>
    (min <= n <= max)%Z /\ tapeKept w w' /\ taken w' = taken w).
Proof.
  intros Hmm. unfold getRandomInt. apply returns_bind.
  eapply returns_mono; [apply random_unit |].
  intros r w' (Hr & Hk & Ht). apply returns_ret.
  split; [split | auto].
  - assert (0 <= Zfloor (r * IZR (max - min + 1)))%Z; [| lia].
    apply Zfloor_lub. assert (1 <= IZR (max - min + 1)) by (apply IZR_le; lia).
    simpl. nra.
  - assert (Zfloor (r * IZR (max - min + 1)) < max - min + 1)%Z; [| lia].
    apply lt_IZR. pose proof (Zfloor_bound (r * IZR (max - min + 1))).
    assert (1 <= IZR (max - min + 1)) by (apply IZR_le; lia). nra.
Qed.

(** ** The parent star *)

Lemma index_floor_in_range {A} (l : list A) (r : R) :
  0 <= r < 1 -> l <> [] -> exists x, index l (Zfloor (r * INR (length l))) = Some x /\ x ∈ l.
Proof.
  intros Hr Hl.
  assert (0 < INR (length l)) as Hpos.
  { apply lt_0_INR. destruct l; [congruence | simpl; lia]. }
  pose proof (Zfloor_bound (r * INR (length l))) as Hb.
  assert (0 <= Zfloor (r * INR (length l)))%Z as H0.
  { apply Zfloor_lub. simpl. nra. }
  assert (Z.to_nat (Zfloor (r * INR (length l))) < length l)%nat as Hlt.
  { apply INR_lt. rewrite INR_IZR_INZ, Z2Nat.id by assumption. nra. }
  unfold index. destruct (Z.ltb_spec (Zfloor (r * INR (length l))) 0); [lia |].
  destruct (lookup_lt_is_Some_2 l _ Hlt) as [x Hx].
  exists x. split; [exact Hx |]. eapply list_elem_of_lookup_2; eauto.
Qed.

Lemma generateStarAge_returns type w :
  returns (generateStarAge type) w (fun _ w' => tapeKept w w' /\ taken w' = taken w).
Proof.
  unfold generateStarAge.
  each_branch;
    lazymatch goal with
    | |- returns (getRandomAge _ _) _ _ => apply getRandomAge_returns
    | |- returns (ret _) _ _ =>
        apply returns_ret; split; [apply tapeKept_refl | reflexivity]
    end.
Qed.

Lemma sizeAndMass_range sizeMin sizeMax massMin massMax w :
  sizeMin <= sizeMax -> massMin <= massMax ->
  returns (sizeAndMass sizeMin sizeMax massMin massMax) w (fun sm w' =>
    sizeMin <= fst sm <= sizeMax /\ massMin <= snd sm <= massMax
    /\ tapeKept w w' /\ taken w' = taken w).
Proof.
  intros Hs Hm. unfold sizeAndMass. apply returns_bind.
  eapply returns_mono; [apply (getRandomValue_range _ _ _ Hs) |].
  intros size w1 (Hsize & Hk1 & Ht1). apply returns_bind.
  eapply returns_mono; [apply (getRandomValue_range _ _ _ Hm) |].
  intros mass w2 (Hmass & Hk2 & Ht2). apply returns_ret. cbn [fst snd].
  split; [tauto |]. split; [tauto |].
  split; [eapply tapeKept_trans; eauto | congruence].
Qed.

Lemma starTypes_cases (x : string) :
  x ∈ starTypes ->
  x = "M"%string \/ x = "K"%string \/ x = "G"%string \/ x = "F"%string
  \/ x = "A"%string \/ x = "B"%string \/ x = "O"%string.
Proof.
  unfold starTypes. rewrite !elem_of_cons, elem_of_nil. tauto.
Qed.

Lemma generateStarSizeAndMass_positive (x : string) age w :
  x ∈ starTypes ->
  returns (generateStarSizeAndMass (Some x) age) w (fun sm w' =>
    0 < generateStarLuminosity (Some x) (fst sm)
    /\ tapeKept w w' /\ taken w' = taken w).
Proof.
  intros Hx. apply starTypes_cases in Hx.
  destruct Hx as [-> | [-> | [-> | [-> | [-> | [-> | ->]]]]]];
    cbn [generateStarSizeAndMass generateStarLuminosity strictEq String.eqb
         Ascii.eqb Bool.eqb];
    (eapply returns_mono; [apply sizeAndMass_range; lra |]);
    intros sm w' (Hs & _ & Hk & Ht); (split; [lra | auto]).
Qed.

Lemma generateParentStar_positive w :
  returns generateParentStar w (fun star w' =>
    0 < Star.luminosity star
    /\ Star.luminosity star
       = generateStarLuminosity (Star.type star) (Star.size star)
    /\ tapeKept w w' /\ taken w' = taken w).
Proof.
  unfold generateParentStar. apply returns_bind.
  eapply returns_mono; [apply random_unit |].
  intros r w1 (Hr & Hk1 & Ht1).
  destruct (index_floor_in_range starTypes r Hr) as (x & -> & Hx);
    [discriminate |].
  apply returns_bind.
  eapply returns_mono; [apply generateStarAge_returns |].
  intros age w2 (Hk2 & Ht2). apply returns_bind.
  eapply returns_mono; [apply (generateStarSizeAndMass_positive x age w2 Hx) |].
  intros sm w3 (Hpos & Hk3 & Ht3). apply returns_ret. cbn.
  split; [exact Hpos |]. split; [reflexivity |].
  split; [eauto using tapeKept_trans | congruence].
Qed.

(** ** The habitable zone *)

Lemma isInHabitableZone_true orbitRadius habitableZone :
  isInHabitableZone orbitRadius habitableZone = true <->
  Zone.innerBoundary habitableZone <= orbitRadius <= Zone.outerBoundary habitableZone.
Proof.
  unfold isInHabitableZone. rewrite andb_true_iff, !bool_decide_eq_true.
  split; intros [H1 H2]; split; lra.
Qed.

Lemma zone_positive_ordered luminosity :
  0 < luminosity ->
  0 < sqrt (luminosity / 1.1) < sqrt (luminosity / 0.53).
Proof.
  intros HL. split.
  - apply sqrt_lt_R0. lra.
  - apply sqrt_lt_1_alt. lra.
Qed.

Lemma midpoint_in_zone habitableZone :
  Zone.innerBoundary habitableZone <= Zone.outerBoundary habitableZone ->
  isInHabitableZone
    ((Zone.innerBoundary habitableZone + Zone.outerBoundary habitableZone) / 2)
    habitableZone = true.
Proof. intros H. apply isInHabitableZone_true. lra. Qed.

(** ** Orbit layout *)

Lemma maxOrbit_above_minOrbit x : 0.2 < Rmax 50 x.
Proof. pose proof (Rmax_l 50 x). lra. Qed.

Lemma spacing_positive x (N : Z) :
  (1 <= N)%Z -> 0 < (ln (Rmax 50 x) - ln 0.2) / IZR N.
Proof.
  intros HN. apply IZR_le in HN.
  assert (ln 0.2 < ln (Rmax 50 x)) by (apply ln_increasing; [lra | apply maxOrbit_above_minOrbit]).
  apply Rdiv_lt_0_compat; lra.
Qed.

(** ** Planet properties never throw *)

Lemma determinePlanetType_returns parentStar orbitRadius surplus w :
  returns (determinePlanetType parentStar orbitRadius surplus) w (fun _ w' =>
    tapeKept w w' /\ rngState w' = rngState w).
Proof.
  unfold determinePlanetType.
  each_branch;
    lazymatch goal with
    | |- returns (ret _) _ _ =>
        apply returns_ret; split; [apply tapeKept_refl | reflexivity]
    | |- _ =>
        apply returns_bind; eapply returns_mono; [apply mathRandom_draw |];
        intros m w' (_ & Hk & Hs); apply returns_ret; auto
    end.
Qed.

Lemma getPlanetSize_returns planetType w :
  returns (getPlanetSize planetType) w (fun _ w' => tapeKept w w' /\ taken w' = taken w).
Proof.
  unfold getPlanetSize.
  each_branch;
    lazymatch goal with
    | |- returns (ret _) _ _ =>
        apply returns_ret; split; [apply tapeKept_refl | reflexivity]
    | |- _ =>
        eapply returns_mono; [apply getRandomValue_range; lra |];
        intros v w' (_ & Hk & Ht); auto
    end.
Qed.

Lemma randomAtmosphere_returns types w :
  returns (randomAtmosphere types) w (fun _ w' => tapeKept w w').
Proof.
  unfold randomAtmosphere. apply returns_bind.
  eapply returns_mono; [apply mathRandom_draw |].
  intros m w' (_ & Hk & _). apply returns_ret. exact Hk.
Qed.

Lemma getPlanetAtmosphere_returns planetType orbitRadius habitableZone w :
  returns (getPlanetAtmosphere planetType orbitRadius habitableZone) w
    (fun _ w' => tapeKept w w').
Proof.
  unfold getPlanetAtmosphere.
  each_branch;
    lazymatch goal with
    | |- returns (ret _) _ _ => apply returns_ret; apply tapeKept_refl
    | |- _ => apply randomAtmosphere_returns
    end.
Qed.

Lemma getPlanetMoons_returns planetType w :
  returns (getPlanetMoons planetType) w (fun _ w' => tapeKept w w').
Proof.
  unfold getPlanetMoons.
  each_branch;
    lazymatch goal with
    | |- returns (ret _) _ _ => apply returns_ret; apply tapeKept_refl
    | |- _ =>
        eapply returns_mono; [apply getRandomInt_range; lia |];
        intros v w' (_ & Hk & Ht); auto
    end.
Qed.

(** ** Axial tilt *)

Lemma property_elem_of {A} (table : list (string * A)) key v :
  property table key = Some v -> v ∈ table.*2.
Proof.
  induction table as [| [k x] rest IH]; cbn; [discriminate |].
  destruct (String.eqb k key).
  - intros [= ->]. apply list_elem_of_here.
  - intros H. apply list_elem_of_further. auto.
Qed.

Lemma tiltRange_defined planetType :
  exists range, tiltRange planetType = Some range /\ range ∈ tiltRanges.*2.
Proof.
  unfold tiltRange.
  destruct (property tiltRanges planetType) as [range |] eqn:E.
  - exists range. split; [reflexivity |]. eapply property_elem_of; eauto.
  - eexists. split; [reflexivity |]. cbn.
    apply list_elem_of_further, list_elem_of_here.
Qed.

Lemma getAxialTilt_draw planetType w :
  returns (getAxialTilt planetType) w (fun tilt w' =>
    (exists range, tiltRange planetType = Some range
       /\ tilt = tape w (taken w) * (Range.max range - Range.min range)
                 + Range.min range)
    /\ tapeKept w w' /\ taken w' = S (taken w)).
Proof.
  unfold getAxialTilt.
  destruct (tiltRange_defined planetType) as (range & -> & _).
  apply returns_bind. unfold returns, mathRandom, ret, tapeKept. cbn.
  split; [eauto | split; [split; [reflexivity | lia] | reflexivity]].
Qed.

(** The range each planet type gets.  The table has no key "Ocean World",
    "Lava Planet" or "Dwarf Planet", so these three get the Terrestrial
    range. *)
Lemma tiltRange_planet_types :
  tiltRange "Terrestrial" = Some (Range.mk 0 25)
  /\ tiltRange "Ocean World" = Some (Range.mk 0 25)
  /\ tiltRange "Lava Planet" = Some (Range.mk 0 25)
  /\ tiltRange "Gas Giant" = Some (Range.mk 15 90)
  /\ tiltRange "Ice Giant" = Some (Range.mk 10 90)
  /\ tiltRange "Dwarf Planet" = Some (Range.mk 0 25).
Proof. repeat split; reflexivity. Qed.

Lemma tiltRange_fallback planetType :
  property tiltRanges planetType = None ->
  tiltRange planetType = Some (Range.mk 0 25).
Proof. intros H. unfold tiltRange. rewrite H. reflexivity. Qed.

Lemma getAxialTilt_within planetType range w :
  tiltRange planetType = Some range ->
  Range.min range <= Range.max range ->
  0 <= tape w (taken w) < 1 ->
  returns (getAxialTilt planetType) w (fun tilt _ =>
    Range.min range <= tilt <= Range.max range).
Proof.
  intros Hrange Hord Hm.
  eapply returns_mono; [apply getAxialTilt_draw |].
  intros tilt w' ((range' & Hrange' & ->) & _).
  rewrite Hrange in Hrange'. injection Hrange' as <-. nra.
Qed.

(** For a [Math.random] value from 0 up to 1, every planet type but Ocean
    World gets a tilt in the range the table means for it, and a type the
    table does not know gets one in the Terrestrial range. *)
Lemma getAxialTilt_ranges_but_ocean_world planetType lo hi w :
  0 <= tape w (taken w) < 1 ->
  (planetType = "Terrestrial"%string /\ lo = 0 /\ hi = 25)
  \/ (planetType = "Lava Planet"%string /\ lo = 0 /\ hi = 40)
  \/ (planetType = "Gas Giant"%string /\ lo = 15 /\ hi = 90)
  \/ (planetType = "Ice Giant"%string /\ lo = 10 /\ hi = 90)
  \/ (planetType = "Dwarf Planet"%string /\ lo = 0 /\ hi = 30)
  \/ (property tiltRanges planetType = None /\ lo = 0 /\ hi = 25) ->
  returns (getAxialTilt planetType) w (fun tilt _ => lo <= tilt <= hi).
Proof.
  intros Hm Hcases.
  eapply returns_mono; [apply getAxialTilt_draw |].
  intros tilt w' ((range & Hrange & ->) & _).
  destruct Hcases as [(-> & -> & ->) | [(-> & -> & ->) | [(-> & -> & ->)
    | [(-> & -> & ->) | [(-> & -> & ->) | (Hnone & -> & ->)]]]]];
    try (apply tiltRange_fallback in Hnone; rewrite Hnone in Hrange);
    injection Hrange as <-; cbn [Range.min Range.max]; lra.
Qed.

(** ** The planet loop *)

Lemma tiltDrawn_weaken tp lo hi lo' hi' planet :
  (lo' <= lo)%nat -> (hi <= hi')%nat ->
  tiltDrawn tp lo hi planet -> tiltDrawn tp lo' hi' planet.
Proof.
  intros Hlo Hhi (range & n & Hin & Hn & Ht).
  exists range, n. split; [exact Hin |]. split; [lia | exact Ht].
Qed.

Lemma tiltDrawn_setOrbitRadius tp lo hi r planet :
  tiltDrawn tp lo hi planet -> tiltDrawn tp lo hi (Planet.setOrbitRadius r planet).
Proof. intros H. exact H. Qed.

Lemma generatePlanets_spec parentStar habitableZone numberOfPlanets remaining :
  forall i planets added w,
  returns (generatePlanets parentStar habitableZone numberOfPlanets remaining i
             planets added) w (fun res w' =>
    exists new,
      fst res = planets ++ new
      /\ length new = remaining
      /\ snd res = added || existsb (inZone habitableZone) new
      /\ Forall (tiltDrawn (tape w) (taken w) (taken w')) new
      /\ tapeKept w w'
      /\ (forall k planet,
            new !! k = Some planet ->
            Planet.orbitRadius planet
            = getRandomOrbitRadius parentStar (i + k) numberOfPlanets)).
Proof.
  induction remaining as [| k IH]; intros i planets added w.
  - cbn [generatePlanets]. apply returns_ret. exists []. cbn [fst snd].
    rewrite app_nil_r, orb_false_r.
    repeat split; auto using tapeKept_refl. intros k planet [=].
  - cbn [generatePlanets].
    apply returns_bind.
    eapply returns_mono; [apply determinePlanetType_returns |].
    intros planetType w1 [K1 _]. apply returns_bind.
    eapply returns_mono; [apply getPlanetSize_returns |].
    intros planetSize w2 [K2 _]. apply returns_bind.
    eapply returns_mono; [apply getPlanetAtmosphere_returns |].
    intros planetAtmosphere w3 K3. apply returns_bind.
    eapply returns_mono; [apply getPlanetMoons_returns |].
    intros planetMoons w4 K4. apply returns_bind.
    eapply returns_mono; [apply getAxialTilt_draw |].
    intros axialTilt w5 ((range & Hrange & Htilt) & K5 & T5).
    eapply returns_mono; [apply IH |].
    intros res w' (new & Hfst & Hlen & Hsnd & Hall & K' & Hradii).
    assert (tapeKept w w4) as K04.
    { apply (tapeKept_trans _ w3); [| exact K4].
      apply (tapeKept_trans _ w2); [| exact K3].
      apply (tapeKept_trans _ w1); assumption. }
    assert (tapeKept w w5) as K05 by (apply (tapeKept_trans _ w4); assumption).
    destruct K04 as [E04 L04], K05 as [E05 L05], K' as [E' L'].
    set (planet := Planet.mk planetType _ planetSize planetSize planetAtmosphere
                             planetMoons axialTilt) in *.
    exists (planet :: new).
    split; [rewrite Hfst, <- app_assoc; reflexivity |].
    split; [cbn; lia |].
    split.
    { rewrite Hsnd. cbn [existsb]. unfold inZone at 2. cbn [Planet.orbitRadius planet].
      destruct (isInHabitableZone _ habitableZone), added; reflexivity. }
    split.
    { constructor.
      - exists range, (taken w4). split.
        + unfold tiltRange in Hrange.
          destruct (property tiltRanges planetType) eqn:E.
          * injection Hrange as <-. eapply property_elem_of; eauto.
          * eapply property_elem_of; eauto.
        + split; [lia |]. cbn [Planet.axialTilt planet]. rewrite Htilt, E04. reflexivity.
      - eapply Forall_impl; [exact Hall |].
        intros p Hp. rewrite E05 in Hp. eapply tiltDrawn_weaken; [| | exact Hp]; lia. }
    split; [split; [congruence | lia] |].
    intros [| j] p Hp; cbn in Hp.
    + injection Hp as <-. cbn [Planet.orbitRadius planet].
      rewrite Nat.add_0_r. reflexivity.
    + rewrite (Hradii j p Hp). f_equal. lia.
Qed.

(** ** The habitability pass *)

Lemma adjustForHabitableZonePlanet_spec planets habitableZone w :
  planets <> [] ->
  returns (adjustForHabitableZonePlanet planets habitableZone) w (fun planets' w' =>
    ((existsb (inZone habitableZone) planets = true /\ planets' = planets)
     \/ (existsb (inZone habitableZone) planets = false
         /\ exists i planet,
              planets !! i = Some planet
              /\ planets' = <[i := Planet.setOrbitRadius (zoneMidpoint habitableZone)
                                     planet]> planets))
    /\ tapeKept w w' /\ taken w' = taken w).
Proof.
  intros Hne. unfold adjustForHabitableZonePlanet.
  change (fun planet => isInHabitableZone (Planet.orbitRadius planet) habitableZone)
    with (inZone habitableZone).
  destruct (existsb (inZone habitableZone) planets) eqn:E; cbn [negb].
  - apply returns_ret. split; [left; auto | split; [apply tapeKept_refl | reflexivity]].
  - apply returns_bind. eapply returns_mono; [apply random_unit |].
    intros r w' (Hr & Hk & Ht).
    destruct (index_floor_in_range planets r Hr Hne) as (planet & Hidx & _).
    rewrite Hidx. apply returns_ret. split; [right | auto].
    split; [reflexivity |]. unfold index in Hidx.
    destruct (Zfloor (r * INR (length planets)) <? 0)%Z; [discriminate |].
    eauto.
Qed.

(** ** Sorting *)

Lemma insertSorted_Permutation {A} (compare : A -> A -> R) x l :
  Permutation (insertSorted compare x l) (x :: l).
Proof.
  induction l as [| y rest IH]; cbn [insertSorted]; [reflexivity |].
  destruct (bool_decide (compare x y <= 0)); [reflexivity |].
  rewrite IH. apply perm_swap.
Qed.

Lemma sort_Permutation {A} (compare : A -> A -> R) l :
  Permutation (sort compare l) l.
Proof.
  induction l as [| x l IH]; cbn; [reflexivity |].
  rewrite insertSorted_Permutation. apply perm_skip. exact IH.
Qed.

Lemma insertSorted_byOrbitRadius x l :
  StronglySorted orbitLe l -> StronglySorted orbitLe (insertSorted byOrbitRadius x l).
Proof.
  induction l as [| y rest IH]; intros Hs; cbn [insertSorted].
  - repeat constructor.
  - apply StronglySorted_inv in Hs. destruct Hs as [Hrest Hy].
    case_bool_decide as Hc; unfold byOrbitRadius in Hc.
    + constructor; [constructor; assumption |].
      constructor; [unfold orbitLe; lra |].
      eapply Forall_impl; [exact Hy |]. unfold orbitLe. intros z Hz. lra.
    + constructor; [auto |].
      rewrite insertSorted_Permutation. constructor; [unfold orbitLe; lra | exact Hy].
Qed.

Lemma sort_byOrbitRadius_sorted l : StronglySorted orbitLe (sort byOrbitRadius l).
Proof.
  induction l as [| x l IH]; cbn; [constructor |].
  apply insertSorted_byOrbitRadius. exact IH.
Qed.

(** ** The solar system *)

Lemma existsb_inZone_Exists habitableZone planets :
  existsb (inZone habitableZone) planets = true ->
  Exists (fun planet => inZone habitableZone planet = true) planets.
Proof.
  intros H. apply existsb_exists in H. destruct H as (x & Hx & Hz).
  apply Exists_exists. exists x. split; [apply list_elem_of_In; exact Hx | exact Hz].
Qed.

Lemma generateSolarSystem_spec parentStar habitableZone w :
  Star.habitableZone parentStar = Some habitableZone ->
  returns (generateSolarSystem parentStar) w (fun planets w' =>
    StronglySorted orbitLe planets
    /\ (3 <= length planets <= 18)%nat
    /\ (Zone.innerBoundary habitableZone <= Zone.outerBoundary habitableZone ->
        Exists (fun planet => inZone habitableZone planet = true) planets)
    /\ Forall (tiltDrawn (tape w) (taken w) (taken w')) planets
    /\ tapeKept w w'
    /\ exists numberOfPlanets w1,
         getRandomInt 3 18 w = Returned numberOfPlanets w1
         /\ length planets = Z.to_nat numberOfPlanets).
Proof.
  intros Hz.
  assert (3 <= 18)%Z as H318 by lia.
  destruct (returns_inv _ _ _ (getRandomInt_range 3 18 w H318))
    as (N & w1 & HrunN & HN & [E1 L1] & T1).
  unfold generateSolarSystem. apply returns_bind.
  eapply returns_intro; [exact HrunN |]. rewrite Hz. apply returns_bind.
  eapply returns_mono; [apply generatePlanets_spec |].
  intros [planets added] w2 (new & Hfst & Hlen & Hsnd & Hall & [E2 L2] & _).
  cbn [fst snd app orb] in *. subst planets.
  assert (new <> []) as Hne by (intros ->; cbn in Hlen; lia).
  assert (exists planets' w3,
            (if negb added then adjustForHabitableZonePlanet new habitableZone
             else ret new) w2 = Returned planets' w3
            /\ length planets' = length new
            /\ (Zone.innerBoundary habitableZone <= Zone.outerBoundary habitableZone ->
                Exists (fun planet => inZone habitableZone planet = true) planets')
            /\ Forall (tiltDrawn (tape w1) (taken w1) (taken w2)) planets'
            /\ tapeKept w2 w3 /\ taken w3 = taken w2) as Hpass.
  { destruct added; cbn [negb].
    - exists new, w2. split; [reflexivity |]. split; [reflexivity |].
      split; [intros _; apply existsb_inZone_Exists; auto |].
      split; [exact Hall | split; [apply tapeKept_refl | reflexivity]].
    - destruct (returns_inv _ _ _
                  (adjustForHabitableZonePlanet_spec new habitableZone w2 Hne))
        as (planets' & w3 & Hrun & Hcase & K3 & T3).
      exists planets', w3. split; [exact Hrun |].
      destruct Hcase as [[Hex ->] | (Hex & i & planet & Hi & ->)].
      + split; [reflexivity |].
        split; [intros _; apply existsb_inZone_Exists; exact Hex |]. auto.
      + split; [apply length_insert |]. split.
        * intros Hord. apply Exists_exists.
          exists (Planet.setOrbitRadius (zoneMidpoint habitableZone) planet). split.
          -- eapply list_elem_of_lookup_2. apply list_lookup_insert_eq.
             eapply lookup_lt_Some; eauto.
          -- apply midpoint_in_zone. exact Hord.
        * split; [| auto]. apply Forall_insert; [exact Hall |].
          apply tiltDrawn_setOrbitRadius.
          eapply (proj1 (Forall_lookup _ _) Hall); eauto. }
  destruct Hpass as (planets' & w3 & Hrun & Hlen' & Hex & Hall' & [E3 L3] & T3).
  apply returns_bind. eapply returns_intro; [exact Hrun |]. apply returns_ret.
  pose proof (sort_Permutation byOrbitRadius planets') as Hperm.
  split; [apply sort_byOrbitRadius_sorted |].
  split; [rewrite (Permutation_length Hperm); lia |].
  split; [intros Hord; rewrite Hperm; auto |].
  split.
  { rewrite Hperm. eapply Forall_impl; [exact Hall' |].
    intros p Hp. rewrite E1 in Hp. eapply tiltDrawn_weaken; [| | exact Hp]; lia. }
  split; [split; [congruence | lia] |].
  exists N, w1. split; [exact HrunN |].
  rewrite (Permutation_length Hperm). lia.
Qed.

(** ** The entry point *)

Lemma generateOrbit_spec seed w :
  returns (generateOrbit seed) w (fun orbit w' =>
    let star := Orbit.parentStar orbit in
    let zone := calculateHabitableZone (Star.luminosity star) in
    0 < Star.luminosity star
    /\ Star.habitableZone star = Some zone
    /\ Orbit.habitableZone orbit = Some zone
    /\ StronglySorted orbitLe (Orbit.solarSystem orbit)
    /\ (3 <= length (Orbit.solarSystem orbit) <= 18)%nat
    /\ Exists (fun planet => inZone zone planet = true) (Orbit.solarSystem orbit)
    /\ Forall (tiltDrawn (tape w) (taken w) (taken w')) (Orbit.solarSystem orbit)
    /\ tapeKept w w').
Proof.
  unfold generateOrbit. apply returns_bind.
  assert (exists w0, (match seed with
                      | Some s => set_random_seed s
                      | None => ret tt
                      end) w = Returned tt w0
                     /\ tape w0 = tape w /\ taken w0 = taken w) as (w0 & Hseed & E0 & T0).
  { destruct seed; eexists; (split; [reflexivity | split; reflexivity]). }
  eapply returns_intro; [exact Hseed |]. apply returns_bind.
  eapply returns_mono; [apply generateParentStar_positive |].
  intros star w1 (Hpos & Hlum & [E1 L1] & T1). rewrite <- Hlum.
  apply returns_bind.
  eapply returns_mono; [apply generateSolarSystem_spec; reflexivity |].
  intros planets w2 (Hsorted & Hlen & Hex & Hall & [E2 L2] & _).
  apply returns_ret. cbn.
  split; [exact Hpos |]. split; [reflexivity |]. split; [reflexivity |].
  split; [exact Hsorted |]. split; [exact Hlen |]. split.
  { apply Hex. cbn. pose proof (zone_positive_ordered _ Hpos). lra. }
  split; [| split; [congruence | lia]].
  eapply Forall_impl; [exact Hall |].
  intros p Hp. rewrite E1, E0 in Hp. eapply tiltDrawn_weaken; [| | exact Hp]; lia.
Qed.

(** ** What the seed fixes *)

Lemma seededOnly_ret {A} (a : A) : seededOnly (ret a).
Proof.
  intros [s1 t1 n1] [s2 t2 n2] E. cbn in E. subst s2.
  exists a, s1. split; reflexivity.
Qed.

Lemma seededOnly_bind {A B} (c : M A) (k : A -> M B) :
  seededOnly c -> (forall a, seededOnly (k a)) -> seededOnly (bind c k).
Proof.
  intros Hc Hk w1 w2 E.
  destruct (Hc w1 w2 E) as (a & s & R1 & R2).
  destruct (Hk a (mkWorld s (tape w1) (taken w1)) (mkWorld s (tape w2) (taken w2))
              eq_refl) as (b & s' & K1 & K2).
  exists b, s'. unfold bind. rewrite R1, R2. split; assumption.
Qed.

Lemma seededOnly_random : seededOnly random.
Proof.
  intros w1 w2 E. unfold random. rewrite <- E.
  destruct (splitmix32_next (rngState w1)) as [u a].
  exists (IZR u / 4294967296), a. split; reflexivity.
Qed.

Lemma seededOnly_getRandomValue min max : seededOnly (getRandomValue min max).
Proof.
  apply seededOnly_bind; [apply seededOnly_random | intros r; apply seededOnly_ret].
Qed.

Lemma seededOnly_getRandomAge min max : seededOnly (getRandomAge min max).
Proof.
  apply seededOnly_bind; [apply seededOnly_random | intros r; apply seededOnly_ret].
Qed.

Lemma seededOnly_getRandomInt min max : seededOnly (getRandomInt min max).
Proof.
  apply seededOnly_bind; [apply seededOnly_random | intros r; apply seededOnly_ret].
Qed.

Lemma seededOnly_generateParentStar : seededOnly generateParentStar.
Proof.
  unfold generateParentStar.
  apply seededOnly_bind; [apply seededOnly_random | intros r].
  apply seededOnly_bind.
  { unfold generateStarAge. each_branch;
      first [apply seededOnly_getRandomAge | apply seededOnly_ret]. }
  intros age. apply seededOnly_bind; [| intros sm; apply seededOnly_ret].
  unfold generateStarSizeAndMass, sizeAndMass. each_branch;
    first [apply seededOnly_ret
          | apply seededOnly_bind; [apply seededOnly_getRandomValue | intros size];
            apply seededOnly_bind; [apply seededOnly_getRandomValue | intros mass];
            apply seededOnly_ret].
Qed.

Lemma random_advances w :
  returns random w (fun _ w' => rngState w' = nextState (rngState w)).
Proof.
  unfold returns, random, nextState.
  destruct (splitmix32_next (rngState w)) as [u a]. reflexivity.
Qed.

Lemma determinePlanetType_known parentStar orbitRadius surplus w :
  returns (determinePlanetType parentStar orbitRadius surplus) w (fun planetType w' =>
    knownType planetType /\ rngState w' = rngState w).
Proof.
  unfold determinePlanetType, knownType. each_branch;
    lazymatch goal with
    | |- returns (ret _) _ _ => apply returns_ret; split; [tauto | reflexivity]
    | |- _ =>
        apply returns_bind; eapply returns_mono; [apply mathRandom_draw |];
        intros m w' (_ & _ & Hs); apply returns_ret;
        split; [destruct (bool_decide (m > 0.5)); tauto | exact Hs]
    end.
Qed.

Lemma getPlanetSize_advances planetType w :
  knownType planetType ->
  returns (getPlanetSize planetType) w (fun _ w' =>
    rngState w' = nextState (rngState w)).
Proof.
  intros [-> | [-> | [-> | [-> | [-> | ->]]]]];
    cbn [getPlanetSize String.eqb Ascii.eqb Bool.eqb];
    unfold getRandomValue; apply returns_bind;
    (eapply returns_mono; [apply random_advances |]);
    intros r w' Hs; apply returns_ret; exact Hs.
Qed.

Lemma getPlanetMoons_advances planetType w :
  knownType planetType ->
  returns (getPlanetMoons planetType) w (fun _ w' =>
    rngState w' = nextState (rngState w)).
Proof.
  intros [-> | [-> | [-> | [-> | [-> | ->]]]]];
    cbn [getPlanetMoons String.eqb Ascii.eqb Bool.eqb];
    unfold getRandomInt; apply returns_bind;
    (eapply returns_mono; [apply random_advances |]);
    intros r w' Hs; apply returns_ret; exact Hs.
Qed.

Lemma getPlanetAtmosphere_rngState planetType orbitRadius habitableZone w :
  returns (getPlanetAtmosphere planetType orbitRadius habitableZone) w
    (fun _ w' => rngState w' = rngState w).
Proof.
  unfold getPlanetAtmosphere. each_branch;
    lazymatch goal with
    | |- returns (ret _) _ _ => apply returns_ret; reflexivity
    | |- _ =>
        unfold randomAtmosphere; apply returns_bind;
        eapply returns_mono; [apply mathRandom_draw |];
        intros m w' (_ & _ & Hs); apply returns_ret; exact Hs
    end.
Qed.

Lemma getAxialTilt_rngState planetType w :
  returns (getAxialTilt planetType) w (fun _ w' => rngState w' = rngState w).
Proof.
  unfold getAxialTilt.
  destruct (tiltRange_defined planetType) as (range & -> & _).
  apply returns_bind. eapply returns_mono; [apply mathRandom_draw |].
  intros m w' (_ & _ & Hs). apply returns_ret. exact Hs.
Qed.

(** Each turn of the planet loop takes two values from the seeded source,
    whatever [Math.random] returns. *)
Lemma generatePlanets_rngState parentStar habitableZone numberOfPlanets remaining :
  forall i planets added w,
  returns (generatePlanets parentStar habitableZone numberOfPlanets remaining i
             planets added) w (fun _ w' =>
    rngState w' = Nat.iter (2 * remaining) nextState (rngState w)).
Proof.
  induction remaining as [| k IH]; intros i planets added w.
  - apply returns_ret. reflexivity.
  - cbn [generatePlanets]. apply returns_bind.
    eapply returns_mono; [apply determinePlanetType_known |].
    intros planetType w1 [Hknown S1]. apply returns_bind.
    eapply returns_mono; [apply (getPlanetSize_advances _ _ Hknown) |].
    intros planetSize w2 S2. apply returns_bind.
    eapply returns_mono; [apply getPlanetAtmosphere_rngState |].
    intros planetAtmosphere w3 S3. apply returns_bind.
    eapply returns_mono; [apply (getPlanetMoons_advances _ _ Hknown) |].
    intros planetMoons w4 S4. apply returns_bind.
    eapply returns_mono; [apply getAxialTilt_rngState |].
    intros axialTilt w5 S5.
    eapply returns_mono; [apply IH |].
    intros res w' ->. rewrite S5, S4, S3, S2, S1.
    replace (2 * S k)%nat with (S (S (2 * k))) by lia.
    rewrite !Nat.iter_succ_r. reflexivity.
Qed.

Lemma existsb_inZone_sameOrbit habitableZone l1 l2 :
  Forall2 sameOrbit l1 l2 ->
  existsb (inZone habitableZone) l1 = existsb (inZone habitableZone) l2.
Proof.
  induction 1 as [| p1 p2 l1 l2 Hp _ IH]; [reflexivity |].
  cbn [existsb]. unfold inZone at 1 3. rewrite Hp, IH. reflexivity.
Qed.

Lemma insertSorted_sameOrbit x y l1 l2 :
  sameOrbit x y -> Forall2 sameOrbit l1 l2 ->
  Forall2 sameOrbit (insertSorted byOrbitRadius x l1) (insertSorted byOrbitRadius y l2).
Proof.
  intros Hxy. induction 1 as [| p1 p2 l1 l2 Hp Hl IH]; cbn [insertSorted].
  - repeat constructor. exact Hxy.
  - assert (byOrbitRadius x p1 = byOrbitRadius y p2) as E
      by (unfold byOrbitRadius; rewrite Hxy, Hp; reflexivity).
    rewrite E. case_bool_decide; repeat (constructor; try assumption).
Qed.

Lemma sort_sameOrbit l1 l2 :
  Forall2 sameOrbit l1 l2 ->
  Forall2 sameOrbit (sort byOrbitRadius l1) (sort byOrbitRadius l2).
Proof.
  induction 1 as [| p1 p2 l1 l2 Hp _ IH]; cbn; [constructor |].
  apply insertSorted_sameOrbit; assumption.
Qed.

Lemma adjustForHabitableZonePlanet_sameOrbit l1 l2 habitableZone w1 w2 :
  Forall2 sameOrbit l1 l2 -> rngState w1 = rngState w2 -> l1 <> [] ->
  exists l1' w1' l2' w2',
    adjustForHabitableZonePlanet l1 habitableZone w1 = Returned l1' w1'
    /\ adjustForHabitableZonePlanet l2 habitableZone w2 = Returned l2' w2'
    /\ Forall2 sameOrbit l1' l2'
    /\ rngState w1' = rngState w2'.
Proof.
  intros Hl E Hne. unfold adjustForHabitableZonePlanet.
  change (fun planet => isInHabitableZone (Planet.orbitRadius planet) habitableZone)
    with (inZone habitableZone).
  rewrite <- (existsb_inZone_sameOrbit habitableZone l1 l2 Hl).
  destruct (existsb (inZone habitableZone) l1); cbn [negb].
  - exists l1, w1, l2, w2. repeat split; auto.
  - destruct (seededOnly_random w1 w2 E) as (r & s & R1 & R2).
    pose proof (random_unit w1) as Hr. unfold returns in Hr. rewrite R1 in Hr.
    destruct Hr as [Hr _].
    pose proof (Forall2_length _ _ _ Hl) as Hlen.
    assert (l2 <> []) as Hne2 by (destruct l1, l2; cbn in Hlen; congruence).
    destruct (index_floor_in_range l1 r Hr Hne) as (p1 & I1 & _).
    destruct (index_floor_in_range l2 r Hr Hne2) as (p2 & I2 & _).
    unfold bind. rewrite R1, R2, I1, I2. rewrite <- Hlen.
    do 4 eexists. split; [reflexivity |]. split; [reflexivity |].
    split; [| reflexivity].
    apply Forall2_insert; [exact Hl | reflexivity].
Qed.

Lemma generateSolarSystem_sameOrbit parentStar habitableZone w1 w2 :
  Star.habitableZone parentStar = Some habitableZone ->
  rngState w1 = rngState w2 ->
  exists l1 w1' l2 w2',
    generateSolarSystem parentStar w1 = Returned l1 w1'
    /\ generateSolarSystem parentStar w2 = Returned l2 w2'
    /\ Forall2 sameOrbit l1 l2.
Proof.
  intros Hz E. unfold generateSolarSystem, bind.
  destruct (seededOnly_getRandomInt 3 18 w1 w2 E) as (N & s & R1 & R2).
  assert (3 <= 18)%Z as H318 by lia.
  pose proof (getRandomInt_range 3 18 w1 H318) as HN. unfold returns in HN.
  rewrite R1 in HN. destruct HN as [HN _].
  rewrite R1, R2, Hz.
  set (v1 := mkWorld s (tape w1) (taken w1)). set (v2 := mkWorld s (tape w2) (taken w2)).
  destruct (returns_inv _ _ _
              (returns_and _ _ _ _
                 (generatePlanets_spec parentStar habitableZone N (Z.to_nat N) 0 [] false v1)
                 (generatePlanets_rngState parentStar habitableZone N (Z.to_nat N) 0 []
                    false v1)))
    as ([planets1 added1] & u1 & L1 & (new1 & F1 & Len1 & A1 & _ & _ & Rad1) & S1).
  destruct (returns_inv _ _ _
              (returns_and _ _ _ _
                 (generatePlanets_spec parentStar habitableZone N (Z.to_nat N) 0 [] false v2)
                 (generatePlanets_rngState parentStar habitableZone N (Z.to_nat N) 0 []
                    false v2)))
    as ([planets2 added2] & u2 & L2 & (new2 & F2 & Len2 & A2 & _ & _ & Rad2) & S2).
  rewrite L1, L2. cbn [fst snd app orb] in *. subst planets1 planets2.
  assert (Forall2 sameOrbit new1 new2) as Hsame.
  { apply Forall2_same_length_lookup_2; [congruence |].
    intros j p1 p2 H1 H2. unfold sameOrbit.
    rewrite (Rad1 j p1 H1), (Rad2 j p2 H2). reflexivity. }
  assert (added2 = added1) as ->
    by (rewrite A1, A2; symmetry; apply existsb_inZone_sameOrbit; exact Hsame).
  assert (rngState u1 = rngState u2) as Eu by (rewrite S1, S2; reflexivity).
  destruct added1; cbn [negb ret].
  - do 4 eexists. split; [reflexivity |]. split; [reflexivity |].
    apply sort_sameOrbit. exact Hsame.
  - assert (new1 <> []) as Hne by (intros ->; cbn in Len1; lia).
    destruct (adjustForHabitableZonePlanet_sameOrbit new1 new2 habitableZone u1 u2
                Hsame Eu Hne) as (l1 & u1' & l2 & u2' & A1' & A2' & Hl & _).
    rewrite A1', A2'.
    do 4 eexists. split; [reflexivity |]. split; [reflexivity |].
    apply sort_sameOrbit. exact Hl.
Qed.

(** What the seed does fix: the parent star, the habitable zone, the number
    of planets and their orbit radii, slot by slot. *)
Lemma generateOrbit_seeded_part (seed : Z) (w1 w2 : World) :
  exists orbit1 w1' orbit2 w2',
    generateOrbit (Some seed) w1 = Returned orbit1 w1'
    /\ generateOrbit (Some seed) w2 = Returned orbit2 w2'
    /\ Orbit.parentStar orbit1 = Orbit.parentStar orbit2
    /\ Orbit.habitableZone orbit1 = Orbit.habitableZone orbit2
    /\ Forall2 sameOrbit (Orbit.solarSystem orbit1) (Orbit.solarSystem orbit2).
Proof.
  unfold generateOrbit, bind, set_random_seed.
  destruct (seededOnly_generateParentStar
              (mkWorld seed (tape w1) (taken w1)) (mkWorld seed (tape w2) (taken w2))
              eq_refl) as (star & s & R1 & R2).
  rewrite R1, R2. cbn [tape taken].
  set (star' := setHabitableZone _ star).
  destruct (generateSolarSystem_sameOrbit star' _
              (mkWorld s (tape w1) (taken w1)) (mkWorld s (tape w2) (taken w2))
              eq_refl eq_refl) as (l1 & u1 & l2 & u2 & G1 & G2 & Hl).
  rewrite G1, G2. do 4 eexists. split; [reflexivity |]. split; [reflexivity |].
  cbn. auto.
Qed.

(** ** Seed 42 *)

Lemma random_run w u a :
  splitmix32_next (rngState w) = (u, a) ->
  random w = Returned (IZR u / 4294967296) (mkWorld a (tape w) (taken w)).
Proof. intros H. unfold random. rewrite H. reflexivity. Qed.

(** The first five draws after [set_random_seed(42)]. *)
Lemma seed_42_draws :
  splitmix32_next 42 = (551831576, -1640531485)%Z
  /\ splitmix32_next (-1640531485) = (144025891, 1013904284)%Z
  /\ splitmix32_next 1013904284 = (322543647, -626627243)%Z
  /\ splitmix32_next (-626627243) = (3034809370, 2027808526)%Z
  /\ splitmix32_next 2027808526 = (908029994, 387276999)%Z.
Proof. repeat split; vm_compute; reflexivity. Qed.

Lemma generateParentStar_seed_42 tp n :
  generateParentStar (mkWorld 42 tp n)
  = Returned
      (Star.mk (Some "M"%string)
         (IZR 144025891 / 4294967296 * (5000 - 1) + 1)
         (IZR 322543647 / 4294967296 * (0.7 - 0.1) + 0.1)
         (IZR 3034809370 / 4294967296 * (0.45 - 0.08) + 0.08)
         ((IZR 322543647 / 4294967296 * (0.7 - 0.1) + 0.1) * 0.08)
         None)
      (mkWorld 2027808526 tp n).
Proof.
  destruct seed_42_draws as (D1 & D2 & D3 & D4 & _).
  unfold generateParentStar, bind.
  rewrite (random_run (mkWorld 42 tp n) _ _ D1). cbn [tape taken].
  replace (Zfloor (IZR 551831576 / 4294967296 * INR (length starTypes))) with 0%Z
    by (symmetry; apply Zfloor_eq; cbn; lra).
  change (index starTypes 0%Z) with (Some "M"%string).
  unfold generateStarAge, generateStarSizeAndMass, generateStarLuminosity, sizeAndMass.
  cbn [strictEq String.eqb Ascii.eqb Bool.eqb].
  unfold getRandomAge, getRandomValue, bind, ret. cbn beta.
  rewrite (random_run (mkWorld (-1640531485) tp n) _ _ D2). cbn [tape taken].
  rewrite (random_run (mkWorld 1013904284 tp n) _ _ D3). cbn [tape taken].
  rewrite (random_run (mkWorld (-626627243) tp n) _ _ D4). cbn [tape taken fst snd].
  reflexivity.
Qed.

Lemma getRandomInt_seed_42 tp n :
  getRandomInt 3 18 (mkWorld 2027808526 tp n) = Returned 6%Z (mkWorld 387276999 tp n).
Proof.
  destruct seed_42_draws as (_ & _ & _ & _ & D5).
  unfold getRandomInt, bind, ret.
  rewrite (random_run (mkWorld 2027808526 tp n) _ _ D5). cbn [tape taken].
  change (18 - 3 + 1)%Z with 16%Z.
  replace (Zfloor (IZR 908029994 / 4294967296 * IZR 16)) with 3%Z
    by (symmetry; apply Zfloor_eq; lra).
  reflexivity.
Qed.

(** Seed 42 gives an M star with six planets, whatever [Math.random] holds. *)
Lemma generateOrbit_seed_42 w :
  returns (generateOrbit (Some 42%Z)) w (fun orbit _ =>
    Star.type (Orbit.parentStar orbit) = Some "M"%string
    /\ length (Orbit.solarSystem orbit) = 6%nat).
Proof.
  unfold generateOrbit. apply returns_bind. unfold returns at 1, set_random_seed.
  apply returns_bind.
  eapply returns_intro; [apply generateParentStar_seed_42 |].
  apply returns_bind.
  eapply returns_mono; [apply generateSolarSystem_spec; reflexivity |].
  intros planets w2 (_ & _ & _ & _ & _ & N & w1 & HrunN & Hlen).
  rewrite getRandomInt_seed_42 in HrunN. injection HrunN as <- _.
  apply returns_ret. cbn. split; [reflexivity | exact Hlen].
Qed.

(** ** Two calls with one seed *)

Lemma jitterTape_unit n : 0 <= jitterTape n < 1.
Proof.
  unfold jitterTape. pose proof (pos_INR n) as Hn.
  assert (0 < / (1000 + INR n)) by (apply Rinv_0_lt_compat; lra).
  assert (/ (1000 + INR n) <= / 1000) by (apply Rinv_le_contravar; lra).
  lra.
Qed.

Lemma jitterTape_decreasing n1 n2 :
  (n1 < n2)%nat ->
  0.75 < jitterTape n2 < jitterTape n1 /\ jitterTape n1 <= 0.751.
Proof.
  intros Hlt. apply lt_INR in Hlt. unfold jitterTape.
  pose proof (pos_INR n1) as H1.
  assert (0 < / (1000 + INR n2)) by (apply Rinv_0_lt_compat; lra).
  assert (/ (1000 + INR n2) < / (1000 + INR n1)).
  { apply Rinv_lt_contravar; [apply Rmult_lt_0_compat |]; lra. }
  assert (/ (1000 + INR n1) <= / 1000) by (apply Rinv_le_contravar; lra).
  lra.
Qed.

(** On that tape a tilt tells which draw it was computed from: tilts from an
    earlier and a later stretch of the tape are never equal. *)
Lemma tiltDrawn_jitterTape_differ lo mid hi planet1 planet2 :
  tiltDrawn jitterTape lo mid planet1 ->
  tiltDrawn jitterTape mid hi planet2 ->
  Planet.axialTilt planet1 <> Planet.axialTilt planet2.
Proof.
  intros (range1 & n1 & Hin1 & Hn1 & Ht1) (range2 & n2 & Hin2 & Hn2 & Ht2) Heq.
  assert (n1 < n2)%nat as Hlt by lia.
  destruct (jitterTape_decreasing n1 n2 Hlt) as [[Hlo Hdec] Hhi].
  rewrite Ht1, Ht2 in Heq. clear Ht1 Ht2 Hn1 Hn2 Hlt.
  cbn in Hin1, Hin2. rewrite !elem_of_cons, elem_of_nil in Hin1, Hin2.
  destruct Hin1 as [-> | [-> | [-> | [-> | [-> | [-> | []]]]]]];
    destruct Hin2 as [-> | [-> | [-> | [-> | [-> | [-> | []]]]]]];
    cbn [Range.min Range.max] in Heq; lra.
Qed.

(** Whatever the seed, two calls in a row on that tape return systems that
    share no axial tilt. *)
Lemma generateOrbit_twice_differs (seed : option Z) (a : Z) (n : nat) :
  exists orbit1 w1 orbit2 w2,
    generateOrbit seed (mkWorld a jitterTape n) = Returned orbit1 w1
    /\ generateOrbit seed w1 = Returned orbit2 w2
    /\ Orbit.solarSystem orbit1 <> []
    /\ Forall (fun planet1 =>
                 Forall (fun planet2 =>
                           Planet.axialTilt planet1 <> Planet.axialTilt planet2)
                   (Orbit.solarSystem orbit2))
         (Orbit.solarSystem orbit1).
Proof.
  destruct (returns_inv _ _ _ (generateOrbit_spec seed (mkWorld a jitterTape n)))
    as (orbit1 & w1 & Hrun1 & _ & _ & _ & _ & Hlen1 & _ & Hall1 & [E1 _]).
  destruct (returns_inv _ _ _ (generateOrbit_spec seed w1))
    as (orbit2 & w2 & Hrun2 & _ & _ & _ & _ & _ & _ & Hall2 & _).
  exists orbit1, w1, orbit2, w2. split; [exact Hrun1 |]. split; [exact Hrun2 |].
  rewrite E1 in Hall2. cbn [tape taken] in *. split.
  - intros Hnil. rewrite Hnil in Hlen1. cbn in Hlen1. lia.
  - eapply Forall_impl; [exact Hall1 |]. intros planet1 H1.
    eapply Forall_impl; [exact Hall2 |]. intros planet2 H2.
    eapply tiltDrawn_jitterTape_differ; eauto.
Qed.

(** * The specification's claims *)

(** C5.  For a luminosity above zero the habitable-zone calculator returns
    the record whose inner boundary is [sqrt (luminosity / 1.1)] and whose
    outer boundary is [sqrt (luminosity / 0.53)], and the inner boundary is
    above zero and below the outer one.  The calculator is a function of its
    argument alone: it takes no world and returns none. *)
Theorem calculateHabitableZone_correct (luminosity : R) :
  0 < luminosity ->
  calculateHabitableZone luminosity
  = Zone.mk (sqrt (luminosity / 1.1)) (sqrt (luminosity / 0.53))
  /\ 0 < Zone.innerBoundary (calculateHabitableZone luminosity)
       < Zone.outerBoundary (calculateHabitableZone luminosity).
Proof.
  intros HL. split; [reflexivity |].
  cbn [calculateHabitableZone Zone.innerBoundary Zone.outerBoundary].
  apply zone_positive_ordered. exact HL.
Qed.

Lemma calculateHabitableZone_correct_witness :
  0 < 1
  /\ calculateHabitableZone 1 = Zone.mk (sqrt (1 / 1.1)) (sqrt (1 / 0.53))
  /\ 0 < Zone.innerBoundary (calculateHabitableZone 1)
       < Zone.outerBoundary (calculateHabitableZone 1).
Proof.
  split; [lra |]. apply (calculateHabitableZone_correct 1). lra.
Defined.

(** C7.  For a star and a planet count [N] of at least one, the orbit radius
    of slot [i] below [N] is
    [exp (ln 0.2 + i * (ln maxOrbit - ln 0.2) / N)] with
    [maxOrbit = max 50 (outer boundary + 20)]; it is above zero; the radii
    increase strictly with the slot; and whatever the two random sources
    hold, the loop of [generateSolarSystem] gives the planet of each slot
    exactly that radius. *)
Theorem getRandomOrbitRadius_log_spacing (parentStar : Star.t) (N : Z) :
  0 <= Star.luminosity parentStar ->
  (1 <= N)%Z ->
  let outer :=
    Zone.outerBoundary (calculateHabitableZone (Star.luminosity parentStar)) in
  let maxOrbit := Rmax 50 (outer + 20) in
  (forall i : nat,
     (Z.of_nat i < N)%Z ->
     getRandomOrbitRadius parentStar i N
     = exp (ln 0.2 + INR i * (ln maxOrbit - ln 0.2) / IZR N)
     /\ 0 < getRandomOrbitRadius parentStar i N)
  /\ (forall i j : nat,
        (i < j)%nat -> (Z.of_nat j < N)%Z ->
        getRandomOrbitRadius parentStar i N < getRandomOrbitRadius parentStar j N)
  /\ (forall habitableZone w,
        returns (generatePlanets parentStar habitableZone N (Z.to_nat N) 0 [] false)
          w (fun res _ =>
               forall i planet,
                 fst res !! i = Some planet ->
                 Planet.orbitRadius planet = getRandomOrbitRadius parentStar i N)).
Proof.
  intros HL HN outer maxOrbit.
  assert (IZR N <> 0) as HN0 by (apply IZR_le in HN; lra).
  split; [| split].
  - intros i Hi. split; [| apply exp_pos].
    unfold getRandomOrbitRadius. subst maxOrbit outer.
    cbn [calculateHabitableZone Zone.outerBoundary]. f_equal. field. exact HN0.
  - intros i j Hij Hj. unfold getRandomOrbitRadius. apply exp_increasing.
    pose proof (spacing_positive (sqrt (Star.luminosity parentStar / 0.53) + 20) N HN)
      as Hs.
    apply lt_INR in Hij. nra.
  - intros habitableZone w.
    eapply returns_mono; [apply generatePlanets_spec |].
    intros res w' (new & Hfst & _ & _ & _ & _ & Hradii). cbn [app] in Hfst.
    intros i planet Hi. rewrite Hfst in Hi. exact (Hradii i planet Hi).
Qed.

Lemma getRandomOrbitRadius_log_spacing_witness :
  0 <= Star.luminosity sun
  /\ (1 <= 5)%Z
  /\ 0 < getRandomOrbitRadius sun 0 5 < getRandomOrbitRadius sun 1 5.
Proof.
  assert (0 <= Star.luminosity sun) as HL by (cbn; lra).
  assert (1 <= 5)%Z as HN by lia.
  destruct (getRandomOrbitRadius_log_spacing sun 5 HL HN) as (Hslot & Hincr & _).
  split; [exact HL |]. split; [exact HN |]. split.
  - apply (Hslot 0%nat). lia.
  - apply Hincr; lia.
Defined.

(** C3.  With the inner habitable boundary below the outer one,
    [determinePlanetType] returns, in this order of precedence: Lava Planet
    below the inner boundary; Terrestrial or Ocean World from the inner to the
    outer boundary, both included; Gas Giant above the outer boundary and
    below outer + 15; Ice Giant from outer + 5 and below 30 where the Gas
    Giant test fails; Dwarf Planet where no test holds.  Where the Gas Giant
    and Ice Giant bands overlap, from outer + 5 and below outer + 15, the
    result is Gas Giant. *)
Theorem determinePlanetType_ordered_branches (parentStar : Star.t)
    (orbitRadius : R) (surplus : bool) (w : World) :
  let zone := calculateHabitableZone (Star.luminosity parentStar) in
  let inner := Zone.innerBoundary zone in
  let outer := Zone.outerBoundary zone in
  inner < outer ->
  returns (determinePlanetType parentStar orbitRadius surplus) w (fun planetType _ =>
    (orbitRadius < inner -> planetType = "Lava Planet"%string)
    /\ (inner <= orbitRadius <= outer ->
        planetType = "Terrestrial"%string \/ planetType = "Ocean World"%string)
    /\ (outer < orbitRadius < outer + 15 -> planetType = "Gas Giant"%string)
    /\ (outer + 5 <= orbitRadius < 30 -> ~ (outer < orbitRadius < outer + 15) ->
        planetType = "Ice Giant"%string)
    /\ (~ orbitRadius < inner -> ~ (inner <= orbitRadius <= outer) ->
        ~ (outer < orbitRadius < outer + 15) -> ~ (outer + 5 <= orbitRadius < 30) ->
        planetType = "Dwarf Planet"%string)
    /\ (outer + 5 <= orbitRadius < outer + 15 -> planetType = "Gas Giant"%string)).
Proof.
  intros zone inner outer Hord. unfold determinePlanetType.
  change (sqrt (Star.luminosity parentStar / 1.1)) with inner.
  change (sqrt (Star.luminosity parentStar / 0.53)) with outer.
  repeat case_bool_decide; cbn [andb];
    lazymatch goal with
    | |- returns (ret _) _ _ =>
        apply returns_ret; repeat split; intros; try reflexivity; exfalso; lra
    | |- _ =>
        apply returns_bind; eapply returns_mono; [apply mathRandom_draw |];
        intros m w' _; apply returns_ret;
        repeat split; intros; try (exfalso; lra);
        destruct (bool_decide (m > 0.5)); auto
    end.
Qed.

Lemma determinePlanetType_ordered_branches_witness :
  Zone.innerBoundary (calculateHabitableZone (Star.luminosity sun))
  < Zone.outerBoundary (calculateHabitableZone (Star.luminosity sun))
  /\ returns (determinePlanetType sun 10 false) (mkWorld 0 (fun _ => 0) 0)
       (fun planetType _ => planetType = "Gas Giant"%string).
Proof.
  assert (0 < sqrt (1 / 1.1) < sqrt (1 / 0.53)) as Hz
    by (apply zone_positive_ordered; lra).
  assert (sqrt (1 / 0.53) < 2) as Hout.
  { replace 2 with (sqrt 4) by (replace 4 with (2 * 2) by lra; apply sqrt_square; lra).
    apply sqrt_lt_1_alt. lra. }
  assert (Zone.innerBoundary (calculateHabitableZone (Star.luminosity sun))
          < Zone.outerBoundary (calculateHabitableZone (Star.luminosity sun)))
    as Hord by (cbn; lra).
  split; [exact Hord |].
  eapply returns_mono.
  - apply (determinePlanetType_ordered_branches sun 10 false _ Hord).
  - cbn. intros planetType _ (_ & _ & _ & _ & _ & Hgas). apply Hgas. lra.
Defined.

(** C10.  The third argument that [generateSolarSystem] hands to
    [determinePlanetType] has no effect: for stars of the same luminosity and
    the same orbit radius the call returns the same type and leaves the same
    world whatever that argument is, and the planets that the loop of
    [generateSolarSystem] builds are the same whether or not a planet of the
    habitable zone is recorded as already placed. *)
Theorem determinePlanetType_ignores_habitableZonePlanetAdded
    (star1 star2 : Star.t) (orbitRadius : R) (added1 added2 : bool) (w : World) :
  Star.luminosity star1 = Star.luminosity star2 ->
  determinePlanetType star1 orbitRadius added1 w
  = determinePlanetType star2 orbitRadius added2 w
  /\ (forall habitableZone N remaining i planets,
        match generatePlanets star1 habitableZone N remaining i planets added1 w,
              generatePlanets star1 habitableZone N remaining i planets added2 w with
        | Returned res1 w1, Returned res2 w2 => fst res1 = fst res2 /\ w1 = w2
        | Thrown, Thrown => True
        | _, _ => False
        end).
Proof.
  intros HL. split.
  - unfold determinePlanetType. rewrite HL. reflexivity.
  - intros habitableZone N remaining. revert added1 added2 w.
    induction remaining as [| k IH]; intros added1 added2 w i planets.
    + cbn. auto.
    + cbn [generatePlanets]. unfold bind.
      change (determinePlanetType star1 (getRandomOrbitRadius star1 i N) added2 w)
        with (determinePlanetType star1 (getRandomOrbitRadius star1 i N) added1 w).
      destruct (determinePlanetType star1 _ added1 w) as [planetType w1 |]; [| exact I].
      destruct (getPlanetSize planetType w1) as [planetSize w2 |]; [| exact I].
      destruct (getPlanetAtmosphere planetType _ habitableZone w2)
        as [planetAtmosphere w3 |]; [| exact I].
      destruct (getPlanetMoons planetType w3) as [planetMoons w4 |]; [| exact I].
      destruct (getAxialTilt planetType w4) as [axialTilt w5 |]; [| exact I].
      apply IH.
Qed.

Lemma determinePlanetType_ignores_habitableZonePlanetAdded_witness :
  Star.luminosity sun = Star.luminosity sun
  /\ determinePlanetType sun 10 true (mkWorld 42 (fun _ => 0) 0)
     = determinePlanetType sun 10 false (mkWorld 42 (fun _ => 0) 0).
Proof.
  split; [reflexivity |].
  apply (determinePlanetType_ignores_habitableZonePlanetAdded sun sun 10 true false
           (mkWorld 42 (fun _ => 0) 0)).
  reflexivity.
Defined.

(** C4, as the code has it.  [determinePlanetType] flips a [Math.random]
    coin inside the habitable band, so the type is a function of the
    habitable-zone boundaries, the orbit radius and, inside the band only,
    the value [Math.random] returns: two calls with the same boundaries and
    the same orbit radius return the same type when the orbit radius is
    outside the band or the two draws are the same; inside the band the type
    is Terrestrial for a draw above 0.5 and Ocean World otherwise. *)
Theorem determinePlanetType_function_of_zone_and_draw
    (star1 star2 : Star.t) (orbitRadius : R) (surplus1 surplus2 : bool)
    (w1 w2 : World) :
  calculateHabitableZone (Star.luminosity star1)
  = calculateHabitableZone (Star.luminosity star2) ->
  (Zone.innerBoundary (calculateHabitableZone (Star.luminosity star1)) <= orbitRadius
   <= Zone.outerBoundary (calculateHabitableZone (Star.luminosity star1)) ->
   tape w1 (taken w1) = tape w2 (taken w2)) ->
  exists planetType w1' w2',
    determinePlanetType star1 orbitRadius surplus1 w1 = Returned planetType w1'
    /\ determinePlanetType star2 orbitRadius surplus2 w2 = Returned planetType w2'
    /\ (Zone.innerBoundary (calculateHabitableZone (Star.luminosity star1))
        <= orbitRadius
        <= Zone.outerBoundary (calculateHabitableZone (Star.luminosity star1)) ->
        planetType = if bool_decide (tape w1 (taken w1) > 0.5)
                     then "Terrestrial"%string else "Ocean World"%string).
Proof.
  unfold calculateHabitableZone. cbn [Zone.innerBoundary Zone.outerBoundary].
  intros [= Hin Hout] Hdraw. unfold determinePlanetType.
  rewrite <- Hin, <- Hout.
  repeat case_bool_decide; cbn [andb];
    try (do 3 eexists; split; [reflexivity |]; split; [reflexivity |];
         intros Hband; exfalso; lra).
  all: unfold bind, mathRandom, ret; rewrite <- Hdraw by lra;
    do 3 eexists; split; [reflexivity |]; split; [reflexivity |]; intros _;
    first [ rewrite bool_decide_eq_true_2 by assumption; reflexivity
          | rewrite bool_decide_eq_false_2 by assumption; reflexivity ].
Qed.

Lemma determinePlanetType_function_of_zone_and_draw_witness :
  calculateHabitableZone (Star.luminosity sun)
  = calculateHabitableZone (Star.luminosity sunTwin)
  /\ exists planetType w1' w2',
       determinePlanetType sun 1 true (mkWorld 1 (fun _ => 0.75) 0)
       = Returned planetType w1'
       /\ determinePlanetType sunTwin 1 false (mkWorld 2 (fun _ => 0.75) 3)
          = Returned planetType w2'.
Proof.
  split; [reflexivity |].
  destruct (determinePlanetType_function_of_zone_and_draw sun sunTwin 1 true false
              (mkWorld 1 (fun _ => 0.75) 0) (mkWorld 2 (fun _ => 0.75) 3)
              eq_refl (fun _ => eq_refl))
    as (planetType & w1' & w2' & Hrun1 & Hrun2 & _).
  exists planetType, w1', w2'. split; assumption.
Defined.

(** C4, as the specification states it, fails: the same star and the same
    orbit radius, inside the habitable band, give Ocean World when
    [Math.random] returns 0 and Terrestrial when it returns 0.75. *)
Lemma determinePlanetType_not_a_function_of_zone_and_radius :
  determinePlanetType warmStar 1 false (mkWorld 0 (fun _ => 0) 0)
  = Returned "Ocean World"%string (mkWorld 0 (fun _ => 0) 1)
  /\ determinePlanetType warmStar 1 false (mkWorld 0 (fun _ => 0.75) 0)
     = Returned "Terrestrial"%string (mkWorld 0 (fun _ => 0.75) 1)
  /\ "Ocean World"%string <> "Terrestrial"%string.
Proof.
  assert (sqrt (1.1 / 1.1) = 1) as Hin by (replace (1.1 / 1.1) with 1 by lra; apply sqrt_1).
  assert (1 <= sqrt (1.1 / 0.53)) as Hout.
  { rewrite <- sqrt_1 at 1. apply sqrt_le_1_alt. lra. }
  unfold determinePlanetType, warmStar. cbn [Star.luminosity]. rewrite Hin.
  rewrite (bool_decide_eq_false_2 (1 < 1)) by lra.
  rewrite (bool_decide_eq_true_2 (1 >= 1)) by lra.
  rewrite (bool_decide_eq_true_2 (1 <= sqrt (1.1 / 0.53))) by lra.
  cbn [andb]. unfold bind, mathRandom, ret. cbn [tape taken rngState].
  rewrite (bool_decide_eq_false_2 (0 > 0.5)) by lra.
  rewrite (bool_decide_eq_true_2 (0.75 > 0.5)) by lra.
  split; [reflexivity |]. split; [reflexivity | discriminate].
Qed.

(** C8.  The tilt table is keyed by 'Ocean', 'Lava' and 'Dwarf', the planet
    types are "Ocean World", "Lava Planet" and "Dwarf Planet": the lookup
    misses for the three and the Terrestrial range is used.  For an Ocean
    World, with [Math.random] returning 0.1, the tilt is 2.5, below the 10 to
    30 that the table and the specification give the type. *)
Theorem getAxialTilt_ocean_world_below_range :
  getAxialTilt "Ocean World" (mkWorld 0 (fun _ => 0.1) 0)
  = Returned (0.1 * (25 - 0) + 0) (mkWorld 0 (fun _ => 0.1) 1)
  /\ ~ (10 <= 0.1 * (25 - 0) + 0 <= 30).
Proof. split; [reflexivity | lra]. Qed.

(** C9.  On a non-empty list the habitability pass returns either the list
    it was given, when a planet is already in the zone, or the list in which
    one planet has its orbit radius set to the midpoint of the zone: that
    planet keeps its type, size, radius, atmosphere, moons and axial tilt, and
    every other planet is the planet it was. *)
Theorem adjustForHabitableZonePlanet_frame (planets : list Planet.t)
    (habitableZone : Zone.t) (w : World) :
  planets <> [] ->
  returns (adjustForHabitableZonePlanet planets habitableZone) w (fun planets' _ =>
    (existsb (inZone habitableZone) planets = true /\ planets' = planets)
    \/ (existsb (inZone habitableZone) planets = false
        /\ length planets' = length planets
        /\ exists i before after,
             planets !! i = Some before
             /\ planets' !! i = Some after
             /\ Planet.orbitRadius after
                = (Zone.innerBoundary habitableZone
                   + Zone.outerBoundary habitableZone) / 2
             /\ Planet.type after = Planet.type before
             /\ Planet.size after = Planet.size before
             /\ Planet.radius after = Planet.radius before
             /\ Planet.atmosphere after = Planet.atmosphere before
             /\ Planet.moons after = Planet.moons before
             /\ Planet.axialTilt after = Planet.axialTilt before
             /\ forall j, j <> i -> planets' !! j = planets !! j)).
Proof.
  intros Hne.
  eapply returns_mono; [apply (adjustForHabitableZonePlanet_spec _ _ _ Hne) |].
  intros planets' w' ([[Hex ->] | (Hex & i & planet & Hi & ->)] & _); [left; auto |].
  right. split; [exact Hex |]. split; [apply length_insert |].
  exists i, planet, (Planet.setOrbitRadius (zoneMidpoint habitableZone) planet).
  split; [exact Hi |].
  split; [apply list_lookup_insert_eq; eapply lookup_lt_Some; eauto |].
  repeat (split; [reflexivity |]).
  intros j Hj. apply list_lookup_insert_ne. auto.
Qed.

Lemma adjustForHabitableZonePlanet_frame_witness :
  [gasGiant] <> []
  /\ returns (adjustForHabitableZonePlanet [gasGiant] (Zone.mk 1 2))
       (mkWorld 42 (fun _ => 0) 0)
       (fun planets' _ => length planets' = 1%nat).
Proof.
  assert ([gasGiant] <> []) as Hne by discriminate.
  split; [exact Hne |].
  eapply returns_mono;
    [apply (adjustForHabitableZonePlanet_frame _ (Zone.mk 1 2)
              (mkWorld 42 (fun _ => 0) 0) Hne) |].
  intros planets' _ [[_ ->] | (_ & Hlen & _)]; [reflexivity | exact Hlen].
Defined.

(** C2.  Whatever the seed and whatever the two random sources hold,
    [generateOrbit] returns a system in which some planet has its orbit
    radius in the habitable zone, boundaries included.  On its own, with the
    inner boundary below the outer one, the habitability pass leaves a planet
    in the zone in every non-empty list: the midpoint it relocates a planet
    to is in the zone. *)
Theorem generateOrbit_has_habitable_planet (seed : option Z) (w : World)
    (planets : list Planet.t) (habitableZone : Zone.t) :
  planets <> [] ->
  Zone.innerBoundary habitableZone < Zone.outerBoundary habitableZone ->
  returns (generateOrbit seed) w (fun orbit _ =>
    exists zone,
      Orbit.habitableZone orbit = Some zone
      /\ Exists (fun planet =>
                   isInHabitableZone (Planet.orbitRadius planet) zone = true
                   /\ Zone.innerBoundary zone <= Planet.orbitRadius planet
                      <= Zone.outerBoundary zone)
           (Orbit.solarSystem orbit))
  /\ returns (adjustForHabitableZonePlanet planets habitableZone) w (fun planets' _ =>
       Exists (fun planet =>
                 isInHabitableZone (Planet.orbitRadius planet) habitableZone = true)
         planets')
  /\ isInHabitableZone
       ((Zone.innerBoundary habitableZone + Zone.outerBoundary habitableZone) / 2)
       habitableZone = true.
Proof.
  intros Hne Hord. split; [| split].
  - eapply returns_mono; [apply generateOrbit_spec |].
    intros orbit w' (_ & _ & Hzone & _ & _ & Hex & _). cbn zeta in *.
    eexists. split; [exact Hzone |].
    eapply Exists_impl; [exact Hex |].
    intros planet Hp. split; [exact Hp | apply isInHabitableZone_true; exact Hp].
  - eapply returns_mono; [apply (adjustForHabitableZonePlanet_spec _ _ _ Hne) |].
    intros planets' w' ([[Hex ->] | (Hex & i & planet & Hi & ->)] & _).
    + apply existsb_inZone_Exists. exact Hex.
    + apply Exists_exists.
      exists (Planet.setOrbitRadius (zoneMidpoint habitableZone) planet). split.
      * eapply list_elem_of_lookup_2. apply list_lookup_insert_eq.
        eapply lookup_lt_Some; eauto.
      * apply midpoint_in_zone. lra.
  - apply midpoint_in_zone. lra.
Qed.

Lemma generateOrbit_has_habitable_planet_witness :
  [gasGiant] <> []
  /\ Zone.innerBoundary (Zone.mk 1 2) < Zone.outerBoundary (Zone.mk 1 2)
  /\ isInHabitableZone
       ((Zone.innerBoundary (Zone.mk 1 2) + Zone.outerBoundary (Zone.mk 1 2)) / 2)
       (Zone.mk 1 2) = true.
Proof.
  assert ([gasGiant] <> []) as Hne by discriminate.
  assert (Zone.innerBoundary (Zone.mk 1 2) < Zone.outerBoundary (Zone.mk 1 2))
    as Hord by (cbn; lra).
  split; [exact Hne |]. split; [exact Hord |].
  apply (generateOrbit_has_habitable_planet (Some 42%Z) (mkWorld 0 (fun _ => 0) 0)
           _ _ Hne Hord).
Defined.

(** C6.  [generateOrbit] returns a solar system sorted by orbit radius,
    smallest first, of at least 3 and at most 18 planets; so does
    [generateSolarSystem] for a star that has its habitable zone. *)
Theorem generateSolarSystem_sorted_3_to_18 (seed : option Z)
    (parentStar : Star.t) (habitableZone : Zone.t) (w : World) :
  Star.habitableZone parentStar = Some habitableZone ->
  returns (generateOrbit seed) w (fun orbit _ =>
    StronglySorted
      (fun a b => Planet.orbitRadius a <= Planet.orbitRadius b)
      (Orbit.solarSystem orbit)
    /\ (3 <= length (Orbit.solarSystem orbit) <= 18)%nat)
  /\ returns (generateSolarSystem parentStar) w (fun planets _ =>
       StronglySorted
         (fun a b => Planet.orbitRadius a <= Planet.orbitRadius b) planets
       /\ (3 <= length planets <= 18)%nat).
Proof.
  intros Hz. split.
  - eapply returns_mono; [apply generateOrbit_spec |].
    intros orbit w' (_ & _ & _ & Hs & Hlen & _). auto.
  - eapply returns_mono; [apply (generateSolarSystem_spec _ _ _ Hz) |].
    intros planets w' (Hs & Hlen & _). auto.
Qed.

Lemma generateSolarSystem_sorted_3_to_18_witness :
  Star.habitableZone sunWithZone = Some (calculateHabitableZone 1)
  /\ returns (generateSolarSystem sunWithZone) (mkWorld 42 (fun _ => 0) 0)
       (fun planets _ => (3 <= length planets <= 18)%nat).
Proof.
  split; [reflexivity |].
  eapply returns_mono.
  - apply (generateSolarSystem_sorted_3_to_18 (Some 42%Z) sunWithZone
             (calculateHabitableZone 1) (mkWorld 42 (fun _ => 0) 0)).
    reflexivity.
  - intros planets _ [_ Hlen]. exact Hlen.
Defined.

(** C1.  With seed 42, and [Math.random] returning the values of
    [jitterTape], two calls of [generateOrbit] one after the other return the
    same parent star, an M star, the same habitable zone and six planets on
    the same orbit radii, and yet the two results differ: no axial tilt of
    the first solar system is an axial tilt of the second.  The seed does not
    reach the [Math.random] draws behind the axial tilts. *)
Theorem generateOrbit_seed_42_not_reproducible :
  exists orbit1 w1 orbit2 w2,
    generateOrbit (Some 42%Z) (mkWorld 0 jitterTape 0) = Returned orbit1 w1
    /\ generateOrbit (Some 42%Z) w1 = Returned orbit2 w2
    /\ Orbit.parentStar orbit1 = Orbit.parentStar orbit2
    /\ Star.type (Orbit.parentStar orbit1) = Some "M"%string
    /\ Orbit.habitableZone orbit1 = Orbit.habitableZone orbit2
    /\ length (Orbit.solarSystem orbit1) = 6%nat
    /\ length (Orbit.solarSystem orbit2) = 6%nat
    /\ Forall2 (fun planet1 planet2 =>
                  Planet.orbitRadius planet1 = Planet.orbitRadius planet2)
         (Orbit.solarSystem orbit1) (Orbit.solarSystem orbit2)
    /\ Forall (fun planet1 =>
                 Forall (fun planet2 =>
                           Planet.axialTilt planet1 <> Planet.axialTilt planet2)
                   (Orbit.solarSystem orbit2))
         (Orbit.solarSystem orbit1)
    /\ orbit1 <> orbit2.
Proof.
  destruct (generateOrbit_twice_differs (Some 42%Z) 0 0)
    as (orbit1 & w1 & orbit2 & w2 & Hrun1 & Hrun2 & Hne & Hdiff).
  pose proof (generateOrbit_seed_42 (mkWorld 0 jitterTape 0)) as H1.
  pose proof (generateOrbit_seed_42 w1) as H2.
  unfold returns in H1, H2. rewrite Hrun1 in H1. rewrite Hrun2 in H2.
  destruct H1 as [Ht1 Hl1], H2 as [Ht2 Hl2].
  destruct (generateOrbit_seeded_part 42 (mkWorld 0 jitterTape 0) w1)
    as (o1 & v1 & o2 & v2 & G1 & G2 & Hstar & Hzone & Hradii).
  rewrite Hrun1 in G1. rewrite Hrun2 in G2.
  injection G1 as <- _. injection G2 as <- _.
  exists orbit1, w1, orbit2, w2.
  repeat (split; [assumption |]).
  intros Heq. rewrite <- Heq in Hdiff.
  destruct (Orbit.solarSystem orbit1) as [| planet rest]; [congruence |].
  apply Forall_cons in Hdiff. destruct Hdiff as [Hp _].
  apply Forall_cons in Hp. destruct Hp as [Hp _]. congruence.
Qed.

(** * Further properties of the code *)

(** ** The seeded source *)

Lemma toInt32_wrap z k : Int32.toInt32 (z + k * 4294967296) = Int32.toInt32 z.
Proof.
  unfold Int32.toInt32. change (2 ^ 32)%Z with 4294967296%Z.
  replace (z + k * 4294967296 + 2 ^ 31)%Z with (z + 2 ^ 31 + k * 4294967296)%Z by lia.
  rewrite Z.mod_add by lia. reflexivity.
Qed.

Lemma toInt32_range z : (- 2147483648 <= Int32.toInt32 z < 2147483648)%Z.
Proof.
  unfold Int32.toInt32.
  pose proof (Z.mod_pos_bound (z + 2 ^ 31) (2 ^ 32) ltac:(lia)). lia.
Qed.

Lemma splitmix32_next_wrap seed k :
  splitmix32_next (seed + k * 4294967296) = splitmix32_next seed.
Proof. unfold splitmix32_next. rewrite toInt32_wrap. reflexivity. Qed.

(** X1.  A seed is used modulo 2^32: [generateOrbit] returns the same result
    and leaves the same world for two seeds that differ by a multiple of
    4294967296. *)
Theorem generateOrbit_seed_modulo_2_32 (seed k : Z) (w : World) :
  generateOrbit (Some (seed + k * 4294967296)%Z) w = generateOrbit (Some seed) w.
Proof.
  assert (random (mkWorld (seed + k * 4294967296) (tape w) (taken w))
          = random (mkWorld seed (tape w) (taken w))) as Hdraw.
  { unfold random. cbn [rngState]. rewrite splitmix32_next_wrap. reflexivity. }
  unfold generateOrbit, set_random_seed, generateParentStar.
  unfold bind at 1 2 3. unfold bind at 4 5 6. rewrite Hdraw. reflexivity.
Qed.

Lemma random_unit_interval_aux (w : World) :
  exists u a,
    random w = Returned (IZR u / 4294967296) (mkWorld a (tape w) (taken w))
    /\ (0 <= u < 4294967296)%Z
    /\ 0 <= IZR u / 4294967296 < 1
    /\ (- 2147483648 <= a < 2147483648)%Z.
Proof.
  unfold random.
  pose proof (splitmix32_next_range (rngState w)) as Hu.
  assert (- 2147483648 <= snd (splitmix32_next (rngState w)) < 2147483648)%Z as Ha
    by (unfold splitmix32_next; cbn [snd]; apply toInt32_range).
  destruct (splitmix32_next (rngState w)) as [u a]. cbn [fst snd] in *.
  exists u, a. split; [reflexivity |]. split; [exact Hu |]. split; [| exact Ha].
  destruct Hu as [H0 H1]. apply IZR_le in H0. apply IZR_lt in H1. lra.
Qed.

(** X2.  Every call of [random] returns a multiple of 2^-32 from 0 up to but
    not including 1, leaves the closure's variable a 32-bit signed integer,
    and does not touch [Math.random]. *)
Theorem random_unit_interval (w : World) :
  exists u a,
    random w = Returned (IZR u / 4294967296) (mkWorld a (tape w) (taken w))
    /\ (0 <= u < 4294967296)%Z
    /\ 0 <= IZR u / 4294967296 < 1
    /\ (- 2147483648 <= a < 2147483648)%Z.
Proof.
  unfold random.
  pose proof (splitmix32_next_range (rngState w)) as Hu.
  assert (- 2147483648 <= snd (splitmix32_next (rngState w)) < 2147483648)%Z as Ha
    by (unfold splitmix32_next; cbn [snd]; apply toInt32_range).
  destruct (splitmix32_next (rngState w)) as [u a]. cbn [fst snd] in *.
  exists u, a. split; [reflexivity |]. split; [exact Hu |]. split; [| exact Ha].
  destruct Hu as [H0 H1]. apply IZR_le in H0. apply IZR_lt in H1. lra.
Qed.

Lemma random_draw w :
  exists r,
    random w = Returned r (mkWorld (nextState (rngState w)) (tape w) (taken w))
    /\ 0 <= r < 1.
Proof.
  destruct (random_unit_interval_aux w) as (u & a & Hrun & _ & Hr & _).
  exists (IZR u / 4294967296). split; [| exact Hr].
  pose proof (random_advances w) as H. unfold returns in H. rewrite Hrun in H.
  cbn [rngState] in H. rewrite <- H. exact Hrun.
Qed.

Lemma getRandomValue_draw min max w :
  min < max ->
  returns (getRandomValue min max) w (fun v w' =>
    min <= v < max /\ w' = mkWorld (nextState (rngState w)) (tape w) (taken w)).
Proof.
  intros Hmm. destruct (random_draw w) as (r & Hrun & Hr).
  unfold getRandomValue, returns, bind. rewrite Hrun. cbn [ret].
  split; [nra | reflexivity].
Qed.

Lemma getRandomAge_draw min max w :
  min < max ->
  returns (getRandomAge min max) w (fun v w' =>
    min <= v < max /\ w' = mkWorld (nextState (rngState w)) (tape w) (taken w)).
Proof.
  intros Hmm. destruct (random_draw w) as (r & Hrun & Hr).
  unfold getRandomAge, returns, bind. rewrite Hrun. cbn [ret].
  split; [nra | reflexivity].
Qed.

Lemma getRandomInt_draw (min max : Z) w :
  (min <= max)%Z ->
  returns (getRandomInt min max) w (fun n w' =>
    (min <= n <= max)%Z
    /\ w' = mkWorld (nextState (rngState w)) (tape w) (taken w)).
Proof.
  intros Hmm. destruct (random_draw w) as (r & Hrun & Hr).
  unfold getRandomInt, returns, bind. rewrite Hrun. cbn [ret].
  split; [| reflexivity].
  assert (1 <= IZR (max - min + 1)) by (apply IZR_le; lia).
  pose proof (Zfloor_bound (r * IZR (max - min + 1))) as Hb.
  split.
  - assert (0 <= Zfloor (r * IZR (max - min + 1)))%Z; [| lia].
    apply Zfloor_lub. simpl. nra.
  - assert (Zfloor (r * IZR (max - min + 1)) < max - min + 1)%Z; [| lia].
    apply lt_IZR. nra.
Qed.

(** X3.  For [min] at most [max], [getRandomInt] returns an integer from
    [min] to [max], both included, taking one value from the seeded source
    and none from [Math.random]; for [min] below [max], [getRandomValue]
    returns a number from [min] up to but not including [max]. *)
Theorem getRandomInt_getRandomValue_bounds (w : World) :
  (forall min max : Z,
     (min <= max)%Z ->
     returns (getRandomInt min max) w (fun n w' =>
       (min <= n <= max)%Z
       /\ w' = mkWorld (nextState (rngState w)) (tape w) (taken w)))
  /\ (forall min max : R,
        min < max ->
        returns (getRandomValue min max) w (fun v w' =>
          min <= v < max
          /\ w' = mkWorld (nextState (rngState w)) (tape w) (taken w))).
Proof.
  split; intros min max Hmm; [apply getRandomInt_draw | apply getRandomValue_draw];
    exact Hmm.
Qed.

Lemma getRandomInt_getRandomValue_bounds_witness :
  (3 <= 18)%Z
  /\ returns (getRandomInt 3 18) (mkWorld 42 (fun _ => 0) 0)
       (fun n _ => (3 <= n <= 18)%Z).
Proof.
  assert (3 <= 18)%Z as H by lia. split; [exact H |].
  eapply returns_mono.
  - apply (proj1 (getRandomInt_getRandomValue_bounds (mkWorld 42 (fun _ => 0) 0)) 3%Z
             18%Z H).
  - intros n w' [Hn _]. exact Hn.
Defined.

(** ** The parent star *)

Lemma generateStarAge_band class band w :
  (class, band) ∈ starBands ->
  returns (generateStarAge (Some class)) w (fun age w' =>
    StarBand.ageMin band <= age < StarBand.ageMax band
    /\ w' = mkWorld (nextState (rngState w)) (tape w) (taken w)).
Proof.
  unfold starBands. rewrite !elem_of_cons, elem_of_nil.
  intros [[= -> ->] | [[= -> ->] | [[= -> ->] | [[= -> ->] | [[= -> ->]
    | [[= -> ->] | [[= -> ->] | []]]]]]]];
    cbn [generateStarAge strictEq String.eqb Ascii.eqb Bool.eqb
         StarBand.ageMin StarBand.ageMax];
    apply getRandomAge_draw; lra.
Qed.

Lemma generateStarSizeAndMass_band class band age w :
  (class, band) ∈ starBands ->
  returns (generateStarSizeAndMass (Some class) age) w (fun sm w' =>
    StarBand.sizeMin band <= fst sm < StarBand.sizeMax band
    /\ StarBand.massMin band <= snd sm < StarBand.massMax band
    /\ generateStarLuminosity (Some class) (fst sm)
       = fst sm * StarBand.multiplier band
    /\ w' = mkWorld (nextState (nextState (rngState w))) (tape w) (taken w)).
Proof.
  unfold starBands. rewrite !elem_of_cons, elem_of_nil.
  intros [[= -> ->] | [[= -> ->] | [[= -> ->] | [[= -> ->] | [[= -> ->]
    | [[= -> ->] | [[= -> ->] | []]]]]]]];
    cbn [generateStarSizeAndMass generateStarLuminosity strictEq String.eqb
         Ascii.eqb Bool.eqb StarBand.sizeMin StarBand.sizeMax StarBand.massMin
         StarBand.massMax StarBand.multiplier];
    unfold sizeAndMass; apply returns_bind;
    (eapply returns_mono; [apply getRandomValue_draw; lra |]);
    intros size w1 [Hsize ->]; apply returns_bind;
    (eapply returns_mono; [apply getRandomValue_draw; lra |]);
    intros mass w2 [Hmass ->]; apply returns_ret; cbn [fst snd rngState tape taken];
    (split; [exact Hsize |]); (split; [exact Hmass |]);
    (split; [lra | reflexivity]).
Qed.

Lemma starTypes_starBands class :
  class ∈ starTypes -> exists band, (class, band) ∈ starBands.
Proof.
  intros H. apply starTypes_cases in H.
  destruct H as [-> | [-> | [-> | [-> | [-> | [-> | ->]]]]]];
    eexists; unfold starBands; rewrite !elem_of_cons; tauto.
Qed.

Lemma generateParentStar_inBand w :
  returns generateParentStar w (fun star w' =>
    starInBand star
    /\ Star.habitableZone star = None
    /\ w' = mkWorld (nextState (nextState (nextState (nextState (rngState w)))))
                 (tape w) (taken w)).
Proof.
  unfold generateParentStar. apply returns_bind.
  destruct (random_draw w) as (r & Hrun & Hr).
  eapply returns_intro; [exact Hrun |].
  destruct (index_floor_in_range starTypes r Hr) as (class & -> & Hclass);
    [discriminate |].
  destruct (starTypes_starBands class Hclass) as (band & Hband).
  apply returns_bind.
  eapply returns_mono; [apply (generateStarAge_band class band _ Hband) |].
  intros age w2 [Hage ->]. apply returns_bind.
  eapply returns_mono; [apply (generateStarSizeAndMass_band class band age _ Hband) |].
  intros sm w3 (Hsize & Hmass & Hlum & ->). apply returns_ret.
  cbn [rngState tape taken Star.habitableZone].
  split; [| split; reflexivity].
  exists class, band.
  cbn [Star.type Star.age Star.size Star.mass Star.luminosity].
  split; [reflexivity |]. split; [exact Hband |]. split; [exact Hage |].
  split; [exact Hsize |]. split; [exact Hmass | exact Hlum].
Qed.

(** X4.  The star that [generateParentStar] returns has one of the seven
    classes, age, size and mass in the ranges of its class (lower end
    included, upper end not), luminosity equal to the size times the class
    multiplier, and no habitable zone yet; the call takes four values from
    the seeded source and none from [Math.random]. *)
Theorem generateParentStar_within_class_ranges (w : World) :
  returns generateParentStar w (fun star w' =>
    (exists class band,
       Star.type star = Some class
       /\ (class, band) ∈ starBands
       /\ StarBand.ageMin band <= Star.age star < StarBand.ageMax band
       /\ StarBand.sizeMin band <= Star.size star < StarBand.sizeMax band
       /\ StarBand.massMin band <= Star.mass star < StarBand.massMax band
       /\ Star.luminosity star = Star.size star * StarBand.multiplier band)
    /\ Star.habitableZone star = None
    /\ w' = mkWorld (nextState (nextState (nextState (nextState (rngState w)))))
                 (tape w) (taken w)).
Proof. exact (generateParentStar_inBand w). Qed.

Lemma starInBand_luminosity star :
  starInBand star -> 0.008 <= Star.luminosity star < 1000.
Proof.
  intros (class & band & _ & Hband & _ & Hsize & _ & ->).
  unfold starBands in Hband. rewrite !elem_of_cons, elem_of_nil in Hband.
  destruct Hband as [[= -> ->] | [[= -> ->] | [[= -> ->] | [[= -> ->] | [[= -> ->]
    | [[= -> ->] | [[= -> ->] | []]]]]]]];
    cbn [StarBand.sizeMin StarBand.sizeMax StarBand.multiplier] in *; lra.
Qed.

(** X5.  A star type that is none of the seven classes (also [undefined])
    gets age 0, size 0 and mass 0 without a value being taken from either
    random source, and luminosity 0, for which both habitable-zone
    boundaries are 0. *)
Theorem unknown_star_type_defaults (type : option string) (age size : R)
    (w : World) :
  (forall class, class ∈ starTypes -> type <> Some class) ->
  generateStarAge type w = Returned 0 w
  /\ generateStarSizeAndMass type age w = Returned (0, 0) w
  /\ generateStarLuminosity type size = 0
  /\ calculateHabitableZone (generateStarLuminosity type size) = Zone.mk 0 0.
Proof.
  intros Hnot.
  assert (forall class, class ∈ starTypes -> strictEq type class = false) as Hfalse.
  { intros class Hclass. destruct type as [s |]; [| reflexivity]. cbn.
    apply String.eqb_neq. intros ->. exact (Hnot class Hclass eq_refl). }
  assert (generateStarLuminosity type size = 0) as Hlum.
  { unfold generateStarLuminosity.
    rewrite !Hfalse by (unfold starTypes; rewrite !elem_of_cons; tauto).
    reflexivity. }
  unfold generateStarAge, generateStarSizeAndMass.
  rewrite !Hfalse by (unfold starTypes; rewrite !elem_of_cons; tauto).
  split; [reflexivity |]. split; [reflexivity |]. split; [exact Hlum |].
  rewrite Hlum. unfold calculateHabitableZone.
  replace (0 / 1.1) with 0 by lra. replace (0 / 0.53) with 0 by lra.
  rewrite sqrt_0. reflexivity.
Qed.

Lemma unknown_star_type_defaults_witness :
  (forall class, class ∈ starTypes -> Some "X"%string <> Some class)
  /\ generateStarAge (Some "X"%string) (mkWorld 42 (fun _ => 0) 0)
     = Returned 0 (mkWorld 42 (fun _ => 0) 0).
Proof.
  assert (forall class, class ∈ starTypes -> Some "X"%string <> Some class) as H.
  { intros class Hclass [= <-]. apply starTypes_cases in Hclass.
    destruct Hclass as [H | [H | [H | [H | [H | [H | H]]]]]]; discriminate H. }
  split; [exact H |].
  apply (unknown_star_type_defaults (Some "X"%string) 0 0 (mkWorld 42 (fun _ => 0) 0) H).
Defined.

(** ** The planets of the loop *)

Lemma property_pair_elem_of {A} (table : list (string * A)) key v :
  property table key = Some v -> (key, v) ∈ table.
Proof.
  induction table as [| [k x] rest IH]; cbn; [discriminate |].
  destruct (String.eqb_spec k key) as [-> | Hne].
  - intros [= ->]. apply list_elem_of_here.
  - intros H. apply list_elem_of_further. auto.
Qed.

Lemma knownType_band planetType :
  knownType planetType -> exists band, property planetBands planetType = Some band.
Proof.
  intros [-> | [-> | [-> | [-> | [-> | ->]]]]]; eexists; reflexivity.
Qed.

Lemma planetBands_cases planetType band :
  property planetBands planetType = Some band ->
  (planetType, band) ∈ planetBands /\ knownType planetType.
Proof.
  intros H. apply property_pair_elem_of in H. split; [exact H |].
  unfold planetBands in H. rewrite !elem_of_cons, elem_of_nil in H. unfold knownType.
  destruct H as [[= -> _] | [[= -> _] | [[= -> _] | [[= -> _] | [[= -> _]
    | [[= -> _] | []]]]]]]; tauto.
Qed.

Lemma determinePlanetType_classified parentStar orbitRadius surplus w :
  returns (determinePlanetType parentStar orbitRadius surplus) w (fun planetType w' =>
    classified (Star.luminosity parentStar) orbitRadius planetType
    /\ knownType planetType
    /\ tapeKept w w' /\ rngState w' = rngState w).
Proof.
  eapply returns_mono.
  - apply returns_and; [apply determinePlanetType_known |].
    apply returns_and; [apply determinePlanetType_returns |].
    instantiate (1 := fun planetType _ =>
      classified (Star.luminosity parentStar) orbitRadius planetType).
    unfold determinePlanetType, classified.
    repeat case_bool_decide; cbn [andb];
      lazymatch goal with
      | |- returns (ret _) _ _ =>
          apply returns_ret;
          first [ left; split; [lra | reflexivity]
                | right; right; left; split; [lra | reflexivity]
                | right; right; right; left; split; [lra | reflexivity]
                | right; right; right; right;
                  split; [lra | split; [lra | reflexivity]] ]
      | |- _ =>
          apply returns_bind; eapply returns_mono; [apply mathRandom_draw |];
          intros m w' _; apply returns_ret;
          destruct (bool_decide (m > 0.5)); right; left; (split; [lra | tauto])
      end.
  - cbn beta. intros planetType w' ([Hknown _] & [Hk Hs] & Hc). auto.
Qed.

Lemma planetBands_literal planetType band :
  property planetBands planetType = Some band ->
  (planetType, band) = ("Lava Planet"%string,
                        PlanetBand.mk 0.3 1 0 2 Atmospheres.carbon_dioxide 0 25)
  \/ (planetType, band)
     = ("Terrestrial"%string,
        PlanetBand.mk 0.5 1.5 0 3 (Atmospheres.carbon_dioxide ++ Atmospheres.nitrogen)
       0 25)
  \/ (planetType, band)
     = ("Ocean World"%string,
        PlanetBand.mk 0.8 2 0 2
          (Atmospheres.carbon ++ Atmospheres.ammonia ++ Atmospheres.nitrogen) 0 25)
  \/ (planetType, band)
     = ("Gas Giant"%string,
        PlanetBand.mk 6 15 1 80
          (Atmospheres.hydrogen_helium ++ take 1 Atmospheres.carbon) 15 90)
  \/ (planetType, band)
     = ("Ice Giant"%string,
        PlanetBand.mk 5 14 1 50 (Atmospheres.ice ++ take 1 Atmospheres.ammonia)
       10 90)
  \/ (planetType, band)
     = ("Dwarf Planet"%string,
        PlanetBand.mk 0.1 0.3 0 5 (Atmospheres.trace ++ Atmospheres.carbon_dioxide)
       0 25).
Proof.
  intros H. apply property_pair_elem_of in H.
  unfold planetBands in H. rewrite !elem_of_cons, elem_of_nil in H. tauto.
Qed.

Lemma getPlanetSize_band planetType band w :
  property planetBands planetType = Some band ->
  returns (getPlanetSize planetType) w (fun size w' =>
    PlanetBand.sizeMin band <= size < PlanetBand.sizeMax band
    /\ w' = mkWorld (nextState (rngState w)) (tape w) (taken w)).
Proof.
  intros H. apply planetBands_literal in H.
  destruct H as [[= -> ->] | [[= -> ->] | [[= -> ->] | [[= -> ->] | [[= -> ->]
    | [= -> ->]]]]]];
    cbn [getPlanetSize String.eqb Ascii.eqb Bool.eqb PlanetBand.sizeMin
         PlanetBand.sizeMax];
    apply getRandomValue_draw; lra.
Qed.

Lemma getPlanetMoons_band planetType band w :
  property planetBands planetType = Some band ->
  returns (getPlanetMoons planetType) w (fun moons w' =>
    (PlanetBand.moonsMin band <= moons <= PlanetBand.moonsMax band)%Z
    /\ w' = mkWorld (nextState (rngState w)) (tape w) (taken w)).
Proof.
  intros H. apply planetBands_literal in H.
  destruct H as [[= -> ->] | [[= -> ->] | [[= -> ->] | [[= -> ->] | [[= -> ->]
    | [= -> ->]]]]]];
    cbn [getPlanetMoons String.eqb Ascii.eqb Bool.eqb PlanetBand.moonsMin
         PlanetBand.moonsMax];
    apply getRandomInt_draw; lia.
Qed.

Lemma randomAtmosphere_member types w :
  types <> [] ->
  0 <= tape w (taken w) < 1 ->
  returns (randomAtmosphere types) w (fun a w' =>
    (exists s, a = Some s /\ s ∈ types) /\ tapeKept w w' /\ rngState w' = rngState w).
Proof.
  intros Hne Hm. unfold randomAtmosphere. apply returns_bind.
  eapply returns_mono; [apply mathRandom_draw |].
  intros m w' (-> & Hk & Hs). apply returns_ret.
  destruct (index_floor_in_range types _ Hm Hne) as (s & Hs' & Hin). eauto.
Qed.

Lemma getPlanetAtmosphere_member planetType band orbitRadius habitableZone w :
  property planetBands planetType = Some band ->
  0 <= tape w (taken w) < 1 ->
  returns (getPlanetAtmosphere planetType orbitRadius habitableZone) w (fun a w' =>
    (exists s, a = Some s /\ s ∈ PlanetBand.atmospheres band)
    /\ tapeKept w w' /\ rngState w' = rngState w).
Proof.
  intros H Hm. apply planetBands_literal in H.
  destruct H as [[= -> ->] | [[= -> ->] | [[= -> ->] | [[= -> ->] | [[= -> ->]
    | [= -> ->]]]]]];
    cbn [getPlanetAtmosphere String.eqb Ascii.eqb Bool.eqb PlanetBand.atmospheres];
    try (apply randomAtmosphere_member; [discriminate | exact Hm]).
  destruct (isInHabitableZone orbitRadius habitableZone).
  - apply randomAtmosphere_member; [discriminate | exact Hm].
  - eapply returns_mono; [apply randomAtmosphere_member; [discriminate | exact Hm] |].
    intros a w' ((s & -> & Hs) & Hrest). split; [| exact Hrest].
    exists s. split; [reflexivity |].
    change (s ∈ Atmospheres.carbon_dioxide ++ Atmospheres.nitrogen).
    apply elem_of_app. left. exact Hs.
Qed.

Lemma tiltRange_in_table planetType range :
  tiltRange planetType = Some range -> range ∈ tiltRanges.*2.
Proof.
  unfold tiltRange. destruct (property tiltRanges planetType) eqn:E.
  - intros [= <-]. eapply property_elem_of; eauto.
  - apply property_elem_of.
Qed.

Lemma getAxialTilt_band planetType band w :
  property planetBands planetType = Some band ->
  0 <= tape w (taken w) < 1 ->
  returns (getAxialTilt planetType) w (fun tilt w' =>
    PlanetBand.tiltMin band <= tilt < PlanetBand.tiltMax band
    /\ tapeKept w w' /\ rngState w' = rngState w).
Proof.
  intros H Hm. apply planetBands_literal in H.
  destruct H as [[= -> ->] | [[= -> ->] | [[= -> ->] | [[= -> ->] | [[= -> ->]
    | [= -> ->]]]]]];
    cbn [getAxialTilt tiltRange tiltRanges property String.eqb Ascii.eqb Bool.eqb
         PlanetBand.tiltMin PlanetBand.tiltMax Range.min Range.max];
    apply returns_bind; (eapply returns_mono; [apply mathRandom_draw |]);
    intros m w' (-> & Hk & Hs); apply returns_ret;
    (split; [lra | split; [exact Hk | exact Hs]]).
Qed.

Lemma getPlanetAtmosphere_drawn planetType band orbitRadius habitableZone w :
  property planetBands planetType = Some band ->
  returns (getPlanetAtmosphere planetType orbitRadius habitableZone) w (fun a w' =>
    (0 <= tape w (taken w) < 1 ->
     exists s, a = Some s /\ s ∈ PlanetBand.atmospheres band)
    /\ tapeKept w w' /\ rngState w' = rngState w).
Proof.
  intros Hband.
  destruct (Rle_dec 0 (tape w (taken w))) as [H0 | H0];
    [destruct (Rlt_dec (tape w (taken w)) 1) as [H1 | H1] |].
  - eapply returns_mono;
      [apply (getPlanetAtmosphere_member _ _ _ _ _ Hband (conj H0 H1)) |].
    intros a w' (Hmem & Hrest). auto.
  - eapply returns_mono.
    + apply returns_and;
        [apply getPlanetAtmosphere_returns | apply getPlanetAtmosphere_rngState].
    + cbn beta. intros a w' [Hk Hs]. split; [intros [_ H]; contradiction | auto].
  - eapply returns_mono.
    + apply returns_and;
        [apply getPlanetAtmosphere_returns | apply getPlanetAtmosphere_rngState].
    + cbn beta. intros a w' [Hk Hs]. split; [intros [H _]; contradiction | auto].
Qed.

Lemma getAxialTilt_drawn planetType band w :
  property planetBands planetType = Some band ->
  returns (getAxialTilt planetType) w (fun tilt w' =>
    (0 <= tape w (taken w) < 1 ->
     PlanetBand.tiltMin band <= tilt < PlanetBand.tiltMax band)
    /\ tapeKept w w' /\ rngState w' = rngState w).
Proof.
  intros Hband.
  destruct (Rle_dec 0 (tape w (taken w))) as [H0 | H0];
    [destruct (Rlt_dec (tape w (taken w)) 1) as [H1 | H1] |].
  - eapply returns_mono; [apply (getAxialTilt_band _ _ _ Hband (conj H0 H1)) |].
    intros a w' (Hmem & Hrest). auto.
  - eapply returns_mono.
    + apply returns_and; [apply getAxialTilt_draw | apply getAxialTilt_rngState].
    + cbn beta. intros a w' [(_ & Hk & _) Hs].
      split; [intros [_ H]; contradiction | auto].
  - eapply returns_mono.
    + apply returns_and; [apply getAxialTilt_draw | apply getAxialTilt_rngState].
    + cbn beta. intros a w' [(_ & Hk & _) Hs].
      split; [intros [H _]; contradiction | auto].
Qed.

Lemma generatePlanets_slots parentStar habitableZone numberOfPlanets remaining :
  forall i planets added w,
  returns (generatePlanets parentStar habitableZone numberOfPlanets remaining i
             planets added) w (fun res w' =>
    exists new,
      fst res = planets ++ new
      /\ length new = remaining
      /\ snd res = added || existsb (inZone habitableZone) new
      /\ (forall k planet,
            new !! k = Some planet ->
            slotPlanet parentStar numberOfPlanets (unitTape (tape w)) (i + k) planet)
      /\ tapeKept w w').
Proof.
  induction remaining as [| n IH]; intros i planets added w.
  - cbn [generatePlanets]. apply returns_ret. exists []. cbn [fst snd].
    rewrite app_nil_r, orb_false_r.
    split; [reflexivity |]. split; [reflexivity |]. split; [reflexivity |].
    split; [intros k planet [=] | apply tapeKept_refl].
  - cbn [generatePlanets]. apply returns_bind.
    eapply returns_mono; [apply determinePlanetType_classified |].
    intros planetType w1 (Hclass & Hknown & [E1 L1] & _).
    destruct (knownType_band planetType Hknown) as (band & Hband).
    apply returns_bind.
    eapply returns_mono; [apply (getPlanetSize_band _ _ _ Hband) |].
    intros planetSize w2 [Hsize ->]. apply returns_bind.
    eapply returns_mono; [apply (getPlanetAtmosphere_drawn _ _ _ _ _ Hband) |].
    cbn [tape taken]. intros planetAtmosphere w3 (Hatm & [E3 L3] & _).
    cbn [tape taken] in E3, L3. apply returns_bind.
    eapply returns_mono; [apply (getPlanetMoons_band _ _ _ Hband) |].
    intros planetMoons w4 [Hmoons ->]. apply returns_bind.
    eapply returns_mono; [apply (getAxialTilt_drawn _ _ _ Hband) |].
    cbn [tape taken]. intros axialTilt w5 (Htilt & [E5 L5] & _).
    cbn [tape taken] in E5, L5.
    eapply returns_mono; [apply IH |].
    intros res w' (new & Hfst & Hlen & Hsnd & Hslots & [E' L']).
    set (planet := Planet.mk planetType _ planetSize planetSize planetAtmosphere
                             planetMoons axialTilt) in *.
    exists (planet :: new).
    split; [rewrite Hfst, <- app_assoc; reflexivity |].
    split; [cbn; lia |].
    split.
    { rewrite Hsnd. cbn [existsb]. unfold inZone at 2. cbn [Planet.orbitRadius planet].
      destruct (isInHabitableZone _ habitableZone), added; reflexivity. }
    split; [| split; [congruence | lia]].
    intros [| k] p Hp; cbn in Hp.
    + injection Hp as <-. rewrite Nat.add_0_r.
      split; [reflexivity |]. split; [exact Hclass |].
      exists band. cbn [Planet.type Planet.size Planet.radius Planet.moons
                        Planet.atmosphere Planet.axialTilt planet].
      split; [apply (planetBands_cases _ _ Hband) |]. split; [exact Hsize |].
      split; [reflexivity |]. split; [exact Hmoons |].
      intros Hunit. split.
      * apply Hatm. rewrite E1. apply Hunit.
      * apply Htilt. rewrite E3, E1. apply Hunit.
    + replace (i + S k)%nat with (S i + k)%nat by lia.
      assert (tape w5 = tape w) as E05 by congruence.
      rewrite E05 in Hslots. exact (Hslots k p Hp).
Qed.

(** ** The structure of a generated system *)

Lemma generateSolarSystem_systemOf parentStar habitableZone w :
  Star.habitableZone parentStar = Some habitableZone ->
  returns (generateSolarSystem parentStar) w (fun planets w' =>
    systemOf parentStar habitableZone (unitTape (tape w)) planets
    /\ tapeKept w w').
Proof.
  intros Hz.
  assert (3 <= 18)%Z as H318 by lia.
  unfold generateSolarSystem. apply returns_bind.
  eapply returns_mono; [apply (getRandomInt_draw 3 18 w H318) |].
  intros N w1 [HN ->]. rewrite Hz. apply returns_bind.
  eapply returns_mono; [apply generatePlanets_slots |].
  cbn [tape taken].
  intros [slots added] w2 (new & Hfst & Hlen & Hsnd & Hslots & [E2 L2]).
  cbn [fst snd app orb tape taken] in *. subst slots.
  assert (new <> []) as Hne by (intros ->; cbn in Hlen; lia).
  destruct added; cbn [negb].
  - apply returns_bind, returns_ret, returns_ret.
    split; [| split; [exact E2 | exact L2]].
    exists N, new. split; [exact HN |]. split; [exact Hlen |].
    split; [exact Hslots |]. left. split; [symmetry; exact Hsnd | reflexivity].
  - apply returns_bind.
    eapply returns_mono; [apply (adjustForHabitableZonePlanet_spec _ _ _ Hne) |].
    intros planets' w3 (Hcase & [E3 L3] & T3). apply returns_ret.
    split; [| split; [congruence | lia]].
    exists N, new. split; [exact HN |]. split; [exact Hlen |].
    split; [exact Hslots |].
    destruct Hcase as [[Hex ->] | (Hex & i & planet & Hi & ->)].
    + left. split; [exact Hex | reflexivity].
    + right. split; [exact Hex |]. exists i, planet. split; [exact Hi | reflexivity].
Qed.

Lemma starInBand_setHabitableZone zone star :
  starInBand star -> starInBand (setHabitableZone zone star).
Proof. intros H. exact H. Qed.

Lemma generateOrbit_systemOf seed w :
  returns (generateOrbit seed) w (fun orbit w' =>
    starInBand (Orbit.parentStar orbit)
    /\ Star.habitableZone (Orbit.parentStar orbit)
       = Some (calculateHabitableZone (Star.luminosity (Orbit.parentStar orbit)))
    /\ Orbit.habitableZone orbit
       = Some (calculateHabitableZone (Star.luminosity (Orbit.parentStar orbit)))
    /\ systemOf (Orbit.parentStar orbit)
         (calculateHabitableZone (Star.luminosity (Orbit.parentStar orbit)))
         (unitTape (tape w)) (Orbit.solarSystem orbit)).
Proof.
  unfold generateOrbit. apply returns_bind.
  assert (exists w0, (match seed with
                      | Some s => set_random_seed s
                      | None => ret tt
                      end) w = Returned tt w0
                     /\ tape w0 = tape w) as (w0 & Hseed & E0).
  { destruct seed; eexists; (split; [reflexivity | reflexivity]). }
  eapply returns_intro; [exact Hseed |]. apply returns_bind.
  eapply returns_mono.
  { apply returns_and; [apply generateParentStar_inBand | apply generateParentStar_positive]. }
  cbn beta. intros star w1 [(Hband & _ & ->) (_ & Hlum & _)]. rewrite <- Hlum.
  apply returns_bind.
  eapply returns_mono; [apply generateSolarSystem_systemOf; reflexivity |].
  cbn [tape taken]. intros planets w2 [Hsys _]. apply returns_ret.
  cbn [Orbit.parentStar Orbit.habitableZone Orbit.solarSystem].
  split; [apply starInBand_setHabitableZone; exact Hband |].
  split; [reflexivity |]. split; [reflexivity |].
  rewrite E0 in Hsys. exact Hsys.
Qed.

Lemma systemOf_Forall parentStar habitableZone draws planets (P : Planet.t -> Prop) :
  systemOf parentStar habitableZone draws planets ->
  (forall N k planet,
     (3 <= N <= 18)%Z -> (k < Z.to_nat N)%nat ->
     slotPlanet parentStar N draws k planet ->
     P planet /\ P (Planet.setOrbitRadius (zoneMidpoint habitableZone) planet)) ->
  Forall P planets.
Proof.
  intros (N & slots & HN & Hlen & Hslots & Hcase) HP.
  assert (Forall (fun planet =>
            P planet
            /\ P (Planet.setOrbitRadius (zoneMidpoint habitableZone) planet)) slots)
    as Hall.
  { apply Forall_lookup. intros k planet Hk. apply (HP N k); [exact HN | |].
    - rewrite <- Hlen. eapply lookup_lt_Some; eauto.
    - apply Hslots. exact Hk. }
  destruct Hcase as [[_ ->] | (_ & i & planet & Hi & ->)];
    rewrite sort_Permutation.
  - eapply Forall_impl; [exact Hall |]. intros p [Hp _]. exact Hp.
  - apply Forall_insert.
    + eapply Forall_impl; [exact Hall |]. intros p [Hp _]. exact Hp.
    + exact (proj2 (proj1 (Forall_lookup _ _) Hall i planet Hi)).
Qed.

Lemma propertiesInBand_setOrbitRadius draws r planet :
  propertiesInBand draws planet ->
  propertiesInBand draws (Planet.setOrbitRadius r planet).
Proof. intros H. exact H. Qed.

(** X6.  In every system that [generateOrbit] returns, each planet has one
    of the six planet types, a size in the size range of its type (lower end
    included, upper end not), a radius equal to its size, and a whole number
    of moons in the moon range of its type, both ends included. *)
Theorem generateOrbit_planet_size_and_moons_fit_type (seed : option Z) (w : World) :
  returns (generateOrbit seed) w (fun orbit _ =>
    Forall (fun planet =>
              exists band,
                (Planet.type planet, band) ∈ planetBands
                /\ PlanetBand.sizeMin band <= Planet.size planet
                   < PlanetBand.sizeMax band
                /\ Planet.radius planet = Planet.size planet
                /\ (PlanetBand.moonsMin band <= Planet.moons planet
                    <= PlanetBand.moonsMax band)%Z)
      (Orbit.solarSystem orbit)).
Proof.
  eapply returns_mono; [apply generateOrbit_systemOf |].
  intros orbit w' (_ & _ & _ & Hsys).
  eapply systemOf_Forall; [exact Hsys |].
  intros N k planet _ _ (_ & _ & band & Hband & Hsize & Hradius & Hmoons & _).
  split; exists band; auto.
Qed.

Lemma candidates_not_unknown planetType band :
  (planetType, band) ∈ planetBands ->
  ~ "unknown"%string ∈ PlanetBand.atmospheres band.
Proof.
  unfold planetBands. rewrite !elem_of_cons, elem_of_nil.
  intros [[= _ ->] | [[= _ ->] | [[= _ ->] | [[= _ ->] | [[= _ ->]
    | [[= _ ->] | []]]]]]];
    cbn [PlanetBand.atmospheres];
    unfold Atmospheres.carbon_dioxide, Atmospheres.nitrogen, Atmospheres.carbon,
      Atmospheres.ammonia, Atmospheres.hydrogen_helium, Atmospheres.ice,
      Atmospheres.trace;
    cbn [app take]; rewrite !elem_of_cons, elem_of_nil;
    intros H; repeat (destruct H as [H | H]; [discriminate H |]); exact H.
Qed.

Lemma planetBands_tilt planetType band :
  (planetType, band) ∈ planetBands ->
  (PlanetBand.tiltMin band, PlanetBand.tiltMax band)
  = (if String.eqb planetType "Gas Giant" then (15, 90)
     else if String.eqb planetType "Ice Giant" then (10, 90)
          else (0, 25)).
Proof.
  unfold planetBands. rewrite !elem_of_cons, elem_of_nil.
  intros [[= -> ->] | [[= -> ->] | [[= -> ->] | [[= -> ->] | [[= -> ->]
    | [[= -> ->] | []]]]]]]; reflexivity.
Qed.

(** X7.  When [Math.random] returns values from 0 up to but not including 1,
    each planet of a system that [generateOrbit] returns has an atmosphere
    (never [undefined], never "unknown") from the candidate list of its type,
    and an axial tilt in the range that [getAxialTilt] uses for its type,
    lower end included, upper end not: 15 to 90 for a Gas Giant, 10 to 90
    for an Ice Giant, and 0 to 25 for every other type. *)
Theorem generateOrbit_atmosphere_from_candidates (seed : option Z) (w : World) :
  (forall n, 0 <= tape w n < 1) ->
  returns (generateOrbit seed) w (fun orbit _ =>
    Forall (fun planet =>
              exists band a,
                (Planet.type planet, band) ∈ planetBands
                /\ Planet.atmosphere planet = Some a
                /\ a ∈ PlanetBand.atmospheres band
                /\ a <> "unknown"%string
                /\ PlanetBand.tiltMin band <= Planet.axialTilt planet
                   < PlanetBand.tiltMax band
                /\ (PlanetBand.tiltMin band, PlanetBand.tiltMax band)
                   = (if String.eqb (Planet.type planet) "Gas Giant" then (15, 90)
                      else if String.eqb (Planet.type planet) "Ice Giant"
                           then (10, 90)
                           else (0, 25)))
      (Orbit.solarSystem orbit)).
Proof.
  intros Hunit.
  eapply returns_mono; [apply generateOrbit_systemOf |].
  intros orbit w' (_ & _ & _ & Hsys).
  eapply systemOf_Forall; [exact Hsys |].
  intros N k planet _ _ (_ & _ & band & Hband & _ & _ & _ & Hdraws).
  destruct (Hdraws Hunit) as [(a & Ha & Hin) Htilt].
  pose proof (candidates_not_unknown _ _ Hband) as Hknown.
  assert (a <> "unknown"%string) as Hne by (intros ->; exact (Hknown Hin)).
  pose proof (planetBands_tilt _ _ Hband) as Hrange.
  split; exists band, a; auto 10.
Qed.

Lemma generateOrbit_atmosphere_from_candidates_witness :
  (forall n, 0 <= tape (mkWorld 0 (fun _ => 0) 0) n < 1)
  /\ returns (generateOrbit (Some 42%Z)) (mkWorld 0 (fun _ => 0) 0) (fun orbit _ =>
       Forall (fun planet => exists a, Planet.atmosphere planet = Some a)
         (Orbit.solarSystem orbit)).
Proof.
  assert (forall n, 0 <= tape (mkWorld 0 (fun _ => 0) 0) n < 1) as H
    by (intros n; cbn; lra).
  split; [exact H |].
  eapply returns_mono.
  - apply (generateOrbit_atmosphere_from_candidates (Some 42%Z) _ H).
  - intros orbit w' Hall. eapply Forall_impl; [exact Hall |].
    intros planet (band & a & _ & Ha & _). exists a. exact Ha.
Defined.

(** X8.  In every system that [generateOrbit] returns, each planet either
    has the type that the ordered tests of [determinePlanetType] give its
    orbit radius, or sits at the midpoint of the habitable zone: the
    habitability pass moves a planet without classifying it again. *)
Theorem generateOrbit_type_matches_orbit_or_midpoint (seed : option Z) (w : World) :
  returns (generateOrbit seed) w (fun orbit _ =>
    let luminosity := Star.luminosity (Orbit.parentStar orbit) in
    let zone := calculateHabitableZone luminosity in
    Forall (fun planet =>
              classified luminosity (Planet.orbitRadius planet) (Planet.type planet)
              \/ Planet.orbitRadius planet
                 = (Zone.innerBoundary zone + Zone.outerBoundary zone) / 2)
      (Orbit.solarSystem orbit)).
Proof.
  eapply returns_mono; [apply generateOrbit_systemOf |].
  intros orbit w' (_ & _ & _ & Hsys). cbn zeta.
  eapply systemOf_Forall; [exact Hsys |].
  intros N k planet _ _ (_ & Hclass & _).
  split; [left; exact Hclass | right; reflexivity].
Qed.

(** ** Orbit radii *)

Lemma getRandomOrbitRadius_first parentStar N :
  getRandomOrbitRadius parentStar 0 N = 0.2.
Proof.
  unfold getRandomOrbitRadius. cbn [INR]. rewrite Rmult_0_r, Rplus_0_r.
  apply exp_ln. lra.
Qed.

Lemma getRandomOrbitRadius_increasing parentStar (N : Z) (i j : nat) :
  (1 <= N)%Z -> (i < j)%nat ->
  getRandomOrbitRadius parentStar i N < getRandomOrbitRadius parentStar j N.
Proof.
  intros HN Hij. unfold getRandomOrbitRadius. apply exp_increasing.
  pose proof (spacing_positive (sqrt (Star.luminosity parentStar / 0.53) + 20) N HN)
    as Hs.
  apply lt_INR in Hij. nra.
Qed.

Lemma getRandomOrbitRadius_range parentStar (N : Z) (i : nat) :
  (1 <= N)%Z -> (Z.of_nat i < N)%Z ->
  0.2 <= getRandomOrbitRadius parentStar i N
  < maxOrbitOf (Star.luminosity parentStar).
Proof.
  intros HN Hi. split.
  - destruct i as [| i]; [rewrite getRandomOrbitRadius_first; lra |].
    rewrite <- (getRandomOrbitRadius_first parentStar N). left.
    apply getRandomOrbitRadius_increasing; [exact HN | lia].
  - unfold getRandomOrbitRadius, maxOrbitOf.
    set (maxOrbit := Rmax 50 (sqrt (Star.luminosity parentStar / 0.53) + 20)).
    pose proof (maxOrbit_above_minOrbit (sqrt (Star.luminosity parentStar / 0.53) + 20))
      as Hmax. fold maxOrbit in Hmax.
    pose proof (spacing_positive (sqrt (Star.luminosity parentStar / 0.53) + 20) N HN)
      as Hs. fold maxOrbit in Hs.
    rewrite <- (exp_ln maxOrbit) at 2 by lra. apply exp_increasing.
    assert (INR i < IZR N) as Hlt by (rewrite INR_IZR_INZ; apply IZR_lt; exact Hi).
    assert (IZR N <> 0) as HN0 by (apply IZR_le in HN; lra).
    assert ((ln maxOrbit - ln 0.2) / IZR N * IZR N = ln maxOrbit - ln 0.2) as Heq
      by (field; exact HN0).
    pose proof (Rmult_lt_compat_l _ _ _ Hs Hlt) as Hmul. lra.
Qed.

(** X9.  For a planet count of at least one, the orbit radius of every slot
    below the count is at least 0.2, the radius of slot 0, and below
    [maxOrbit], which no slot reaches; in every system that [generateOrbit]
    returns each orbit radius is above zero and below [maxOrbit]. *)
Theorem orbit_radii_between_minOrbit_and_maxOrbit (parentStar : Star.t) (N : Z)
    (seed : option Z) (w : World) :
  0 <= Star.luminosity parentStar ->
  (1 <= N)%Z ->
  getRandomOrbitRadius parentStar 0 N = 0.2
  /\ (forall i : nat,
        (Z.of_nat i < N)%Z ->
        0.2 <= getRandomOrbitRadius parentStar i N
        < Rmax 50 (sqrt (Star.luminosity parentStar / 0.53) + 20))
  /\ returns (generateOrbit seed) w (fun orbit _ =>
       Forall (fun planet =>
                 0 < Planet.orbitRadius planet
                 < Rmax 50 (sqrt (Star.luminosity (Orbit.parentStar orbit) / 0.53)
                            + 20))
         (Orbit.solarSystem orbit)).
Proof.
  intros _ HN. split; [apply getRandomOrbitRadius_first |].
  split; [intros i Hi; apply getRandomOrbitRadius_range; assumption |].
  eapply returns_mono; [apply generateOrbit_systemOf |].
  intros orbit w' (Hband & _ & _ & Hsys).
  pose proof (starInBand_luminosity _ Hband) as HL.
  assert (0 < Star.luminosity (Orbit.parentStar orbit)) as Hpos by lra.
  pose proof (zone_positive_ordered _ Hpos) as Hzone.
  pose proof (Rmax_r 50 (sqrt (Star.luminosity (Orbit.parentStar orbit) / 0.53) + 20))
    as Hmax.
  eapply systemOf_Forall; [exact Hsys |].
  intros M k planet HM Hk (Hr & _). split.
  - rewrite Hr.
    pose proof (getRandomOrbitRadius_range (Orbit.parentStar orbit) M k) as Hrange.
    unfold maxOrbitOf in Hrange. assert (1 <= M)%Z as H1 by lia.
    assert (Z.of_nat k < M)%Z as H2 by lia. specialize (Hrange H1 H2). lra.
  - cbn [Planet.orbitRadius Planet.setOrbitRadius]. unfold zoneMidpoint.
    cbn [calculateHabitableZone Zone.innerBoundary Zone.outerBoundary]. lra.
Qed.

Lemma orbit_radii_between_minOrbit_and_maxOrbit_witness :
  0 <= Star.luminosity sun
  /\ (1 <= 5)%Z
  /\ 0.2 <= getRandomOrbitRadius sun 4 5
     < Rmax 50 (sqrt (Star.luminosity sun / 0.53) + 20).
Proof.
  assert (0 <= Star.luminosity sun) as HL by (cbn; lra).
  assert (1 <= 5)%Z as HN by lia.
  split; [exact HL |]. split; [exact HN |].
  apply (orbit_radii_between_minOrbit_and_maxOrbit sun 5 None
           (mkWorld 0 (fun _ => 0) 0) HL HN). lia.
Defined.

(** ** Planet types and the habitable zone *)

Lemma classified_zone luminosity orbitRadius planetType :
  classified luminosity orbitRadius planetType ->
  (planetType = "Terrestrial"%string \/ planetType = "Ocean World"%string)
  <-> isInHabitableZone orbitRadius (calculateHabitableZone luminosity) = true.
Proof.
  unfold classified. rewrite isInHabitableZone_true.
  cbn [calculateHabitableZone Zone.innerBoundary Zone.outerBoundary].
  intros [[Hr ->] | [[Hr Ht] | [[Hr ->] | [[Hr ->] | (Hr & Hr' & ->)]]]];
    (split; [intros [Ht' | Ht']; try discriminate Ht'; lra
            | intros Hz; try lra; try tauto]).
Qed.

(** X10.  [determinePlanetType] answers Terrestrial or Ocean World exactly
    when [isInHabitableZone] holds of the orbit radius and the zone that
    [calculateHabitableZone] gives the star's luminosity; so for a
    Terrestrial planet of the loop [getPlanetAtmosphere] always draws from
    the carbon dioxide and nitrogen candidates together, never from carbon
    dioxide alone. *)
Theorem determinePlanetType_habitable_type_iff_in_zone (parentStar : Star.t)
    (orbitRadius : R) (surplus : bool) (w : World) :
  returns (determinePlanetType parentStar orbitRadius surplus) w (fun planetType _ =>
    let zone := calculateHabitableZone (Star.luminosity parentStar) in
    ((planetType = "Terrestrial"%string \/ planetType = "Ocean World"%string)
     <-> isInHabitableZone orbitRadius zone = true)
    /\ (planetType = "Terrestrial"%string ->
        getPlanetAtmosphere planetType orbitRadius zone
        = randomAtmosphere (Atmospheres.carbon_dioxide ++ Atmospheres.nitrogen))).
Proof.
  eapply returns_mono; [apply determinePlanetType_classified |].
  intros planetType w' (Hclass & _). cbn zeta.
  pose proof (classified_zone _ _ _ Hclass) as Hiff.
  split; [exact Hiff |]. intros ->.
  unfold getPlanetAtmosphere. cbn [String.eqb Ascii.eqb Bool.eqb].
  rewrite (proj1 Hiff) by (left; reflexivity). reflexivity.
Qed.

Lemma existsb_inZone_false habitableZone planets :
  existsb (inZone habitableZone) planets = false ->
  Forall (fun planet => inZone habitableZone planet = false) planets.
Proof.
  induction planets as [| p l IH]; cbn [existsb]; [constructor |].
  intros H. apply orb_false_iff in H. destruct H as [Hp Hl].
  constructor; auto.
Qed.

Lemma systemOf_habitable parentStar draws planets :
  0 < Star.luminosity parentStar ->
  systemOf parentStar (calculateHabitableZone (Star.luminosity parentStar)) draws
    planets ->
  let zone := calculateHabitableZone (Star.luminosity parentStar) in
  (Forall (fun planet =>
             classified (Star.luminosity parentStar) (Planet.orbitRadius planet)
               (Planet.type planet)) planets
   /\ Exists (fun planet =>
                inZone zone planet = true
                /\ (Planet.type planet = "Terrestrial"%string
                    \/ Planet.type planet = "Ocean World"%string)) planets)
  \/ (Forall (fun planet =>
                Planet.type planet <> "Terrestrial"%string
                /\ Planet.type planet <> "Ocean World"%string
                /\ (inZone zone planet = true ->
                    Planet.orbitRadius planet = zoneMidpoint zone)) planets
      /\ Exists (fun planet =>
                   inZone zone planet = true
                   /\ Planet.orbitRadius planet = zoneMidpoint zone) planets).
Proof.
  intros HL (N & slots & HN & Hlen & Hslots & Hcase). cbn zeta.
  set (zone := calculateHabitableZone (Star.luminosity parentStar)) in *.
  assert (Forall (fun planet =>
            classified (Star.luminosity parentStar) (Planet.orbitRadius planet)
              (Planet.type planet)) slots) as Hclass.
  { apply Forall_lookup. intros k planet Hk.
    destruct (Hslots k planet Hk) as (_ & Hc & _). exact Hc. }
  destruct Hcase as [[Hex ->] | (Hex & i & planet & Hi & ->)].
  - left. rewrite !sort_Permutation. split; [exact Hclass |].
    apply existsb_inZone_Exists in Hex. apply Exists_exists in Hex.
    destruct Hex as (p & Hp & Hz). apply Exists_exists. exists p.
    split; [exact Hp |]. split; [exact Hz |].
    apply (proj2 (classified_zone _ _ _ (proj1 (Forall_forall _ _) Hclass p Hp))).
    exact Hz.
  - right. rewrite !sort_Permutation.
    apply existsb_inZone_false in Hex.
    assert (Forall (fun planet =>
              Planet.type planet <> "Terrestrial"%string
              /\ Planet.type planet <> "Ocean World"%string) slots) as Htypes.
    { apply Forall_forall. intros p Hp.
      pose proof (proj1 (Forall_forall _ _) Hclass p Hp) as Hc.
      pose proof (proj1 (Forall_forall _ _) Hex p Hp) as Hz.
      apply classified_zone in Hc. unfold inZone in Hz. fold zone in Hc.
      split; intros Ht; rewrite (proj1 Hc) in Hz by tauto; discriminate Hz. }
    assert (inZone zone (Planet.setOrbitRadius (zoneMidpoint zone) planet) = true)
      as Hmid.
    { unfold inZone. cbn [Planet.orbitRadius Planet.setOrbitRadius].
      apply midpoint_in_zone. subst zone.
      cbn [calculateHabitableZone Zone.innerBoundary Zone.outerBoundary].
      pose proof (zone_positive_ordered _ HL). lra. }
    split.
    + apply Forall_insert.
      * apply Forall_forall. intros p Hp.
        destruct (proj1 (Forall_forall _ _) Htypes p Hp) as [H1 H2].
        pose proof (proj1 (Forall_forall _ _) Hex p Hp) as Hz.
        split; [exact H1 |]. split; [exact H2 |]. rewrite Hz. discriminate.
      * apply list_elem_of_lookup_2 in Hi.
        destruct (proj1 (Forall_forall _ _) Htypes planet Hi) as [H1 H2].
        split; [exact H1 |]. split; [exact H2 |]. reflexivity.
    + apply Exists_exists.
      exists (Planet.setOrbitRadius (zoneMidpoint zone) planet).
      split; [| split; [exact Hmid | reflexivity]].
      apply list_elem_of_lookup. exists i. apply list_lookup_insert_eq.
      eapply lookup_lt_Some; eauto.
Qed.

(** X11.  A system that [generateOrbit] returns is of one of two kinds.
    Either every planet has the type that [determinePlanetType] gives its
    orbit radius, and a Terrestrial or Ocean World planet lies in the
    habitable zone; or the system has no Terrestrial and no Ocean World
    planet at all, and its only planets in the habitable zone sit at the
    midpoint of the zone, with the type of the orbit they were moved from. *)
Theorem generateOrbit_habitable_planet_or_relocated (seed : option Z) (w : World) :
  returns (generateOrbit seed) w (fun orbit _ =>
    let luminosity := Star.luminosity (Orbit.parentStar orbit) in
    let zone := calculateHabitableZone luminosity in
    let midpoint := (Zone.innerBoundary zone + Zone.outerBoundary zone) / 2 in
    (Forall (fun planet =>
               classified luminosity (Planet.orbitRadius planet) (Planet.type planet))
       (Orbit.solarSystem orbit)
     /\ Exists (fun planet =>
                  isInHabitableZone (Planet.orbitRadius planet) zone = true
                  /\ (Planet.type planet = "Terrestrial"%string
                      \/ Planet.type planet = "Ocean World"%string))
          (Orbit.solarSystem orbit))
    \/ (Forall (fun planet =>
                  Planet.type planet <> "Terrestrial"%string
                  /\ Planet.type planet <> "Ocean World"%string
                  /\ (isInHabitableZone (Planet.orbitRadius planet) zone = true ->
                      Planet.orbitRadius planet = midpoint))
          (Orbit.solarSystem orbit)
        /\ Exists (fun planet =>
                     isInHabitableZone (Planet.orbitRadius planet) zone = true
                     /\ Planet.orbitRadius planet = midpoint)
             (Orbit.solarSystem orbit))).
Proof.
  eapply returns_mono; [apply generateOrbit_systemOf |].
  intros orbit w' (Hband & _ & _ & Hsys).
  pose proof (starInBand_luminosity _ Hband) as HL.
  assert (0 < Star.luminosity (Orbit.parentStar orbit)) as Hpos by lra.
  exact (systemOf_habitable _ _ _ Hpos Hsys).
Qed.

(** X12.  Around a star so dim that the outer boundary of its habitable zone
    is inside the innermost orbit (0.2), [generateSolarSystem] returns Gas
    Giants, Ice Giants and Dwarf Planets only; the planet it leaves in the
    habitable zone is one of them, moved to the midpoint of the zone. *)
Theorem generateSolarSystem_dim_star (parentStar : Star.t) (w : World) :
  let zone := calculateHabitableZone (Star.luminosity parentStar) in
  0 < Star.luminosity parentStar ->
  Zone.outerBoundary zone < 0.2 ->
  Star.habitableZone parentStar = Some zone ->
  returns (generateSolarSystem parentStar) w (fun planets _ =>
    Forall (fun planet =>
              Planet.type planet = "Gas Giant"%string
              \/ Planet.type planet = "Ice Giant"%string
              \/ Planet.type planet = "Dwarf Planet"%string) planets
    /\ Exists (fun planet =>
                 isInHabitableZone (Planet.orbitRadius planet) zone = true
                 /\ Planet.orbitRadius planet
                    = (Zone.innerBoundary zone + Zone.outerBoundary zone) / 2)
         planets).
Proof.
  intros zone HL Hdim Hz.
  eapply returns_mono; [apply (generateSolarSystem_systemOf _ _ _ Hz) |].
  intros planets w' [Hsys _].
  pose proof (zone_positive_ordered _ HL) as Hzone.
  assert (forall N k planet,
            (3 <= N <= 18)%Z -> (k < Z.to_nat N)%nat ->
            slotPlanet parentStar N (unitTape (tape w)) k planet ->
            Planet.orbitRadius planet > Zone.outerBoundary zone
            /\ (Planet.type planet = "Gas Giant"%string
                \/ Planet.type planet = "Ice Giant"%string
                \/ Planet.type planet = "Dwarf Planet"%string)) as Hslot.
  { intros N k planet HN Hk (Hr & Hclass & _).
    assert (0.2 <= Planet.orbitRadius planet) as Hmin.
    { rewrite Hr. apply getRandomOrbitRadius_range; lia. }
    split; [lra |]. unfold classified in Hclass.
    subst zone. cbn [calculateHabitableZone Zone.outerBoundary] in Hdim.
    destruct Hclass as [[H _] | [[H _] | [[_ ->] | [[_ ->] | (_ & _ & ->)]]]];
      [lra | lra | tauto | tauto | tauto]. }
  split.
  - eapply systemOf_Forall; [exact Hsys |].
    intros N k planet HN Hk Hp. destruct (Hslot N k planet HN Hk Hp) as [_ Ht].
    split; exact Ht.
  - destruct (systemOf_habitable _ _ _ HL Hsys) as [[_ Hex] | [_ Hex]];
      [| exact Hex].
    exfalso. fold zone in Hex. apply Exists_exists in Hex.
    destruct Hex as (p & Hp & Hin & Ht).
    assert (Forall (fun planet =>
              Planet.type planet <> "Terrestrial"%string
              /\ Planet.type planet <> "Ocean World"%string) planets) as Hno.
    { eapply systemOf_Forall; [exact Hsys |].
      intros N k planet HN Hk Hsl. destruct (Hslot N k planet HN Hk Hsl) as [_ Hty].
      cbn [Planet.type Planet.setOrbitRadius].
      split; split; intros E; rewrite E in Hty;
        destruct Hty as [Hty | [Hty | Hty]]; discriminate Hty. }
    destruct (proj1 (Forall_forall _ _) Hno p Hp) as [H1 H2]. tauto.
Qed.

Lemma generateSolarSystem_dim_star_witness :
  returns
    (generateSolarSystem
       (Star.mk (Some "M"%string) 100 0.125 0.2 0.01
          (Some (calculateHabitableZone 0.01))))
    (mkWorld 7 (fun _ => 0) 0) (fun planets _ =>
      Forall (fun planet =>
                Planet.type planet = "Gas Giant"%string
                \/ Planet.type planet = "Ice Giant"%string
                \/ Planet.type planet = "Dwarf Planet"%string) planets).
Proof.
  eapply returns_mono.
  - apply (generateSolarSystem_dim_star
             (Star.mk (Some "M"%string) 100 0.125 0.2 0.01
                (Some (calculateHabitableZone 0.01)))).
    + cbn [Star.luminosity]. lra.
    + cbn [Star.luminosity calculateHabitableZone Zone.outerBoundary].
      replace 0.2 with (sqrt (0.2 * 0.2)) by (apply sqrt_square; lra).
      apply sqrt_lt_1_alt. lra.
    + reflexivity.
  - intros planets w' [H _]. exact H.
Defined.

(** ** The order of the planets *)

Lemma insertSorted_below x l :
  Forall (orbitLe x) l -> insertSorted byOrbitRadius x l = x :: l.
Proof.
  destruct l as [| y rest]; [reflexivity |].
  intros H. apply Forall_cons in H. destruct H as [Hy _]. cbn [insertSorted].
  unfold orbitLe in Hy. unfold byOrbitRadius.
  rewrite bool_decide_eq_true_2 by lra. reflexivity.
Qed.

Lemma sort_sorted l :
  StronglySorted orbitLe l -> sort byOrbitRadius l = l.
Proof.
  induction 1 as [| x l Hl IH Hx]; [reflexivity |].
  change (sort byOrbitRadius (x :: l))
    with (insertSorted byOrbitRadius x (sort byOrbitRadius l)).
  rewrite IH. apply insertSorted_below. exact Hx.
Qed.

Lemma StronglySorted_lookup {A} (rel : A -> A -> Prop) (l : list A) :
  (forall i j a b, (i < j)%nat -> l !! i = Some a -> l !! j = Some b -> rel a b) ->
  StronglySorted rel l.
Proof.
  induction l as [| x l IH]; intros H; constructor.
  - apply IH. intros i j a b Hij Ha Hb. apply (H (S i) (S j)); [lia | exact Ha | exact Hb].
  - apply Forall_lookup. intros j b Hb. apply (H 0%nat (S j)); [lia | reflexivity | exact Hb].
Qed.

Lemma slots_sorted parentStar N draws slots :
  (1 <= N)%Z ->
  (forall k planet, slots !! k = Some planet -> slotPlanet parentStar N draws k planet) ->
  StronglySorted orbitLe slots.
Proof.
  intros HN Hslots. apply StronglySorted_lookup.
  intros i j a b Hij Ha Hb. unfold orbitLe.
  destruct (Hslots i a Ha) as (-> & _). destruct (Hslots j b Hb) as (-> & _).
  left. apply getRandomOrbitRadius_increasing; assumption.
Qed.

Lemma slots_radii parentStar N draws slots :
  length slots = Z.to_nat N ->
  (forall k planet, slots !! k = Some planet -> slotPlanet parentStar N draws k planet) ->
  Planet.orbitRadius <$> slots
  = (fun k => getRandomOrbitRadius parentStar k N) <$> seq 0 (Z.to_nat N).
Proof.
  intros Hlen Hslots. apply list_eq. intros k.
  rewrite !list_lookup_fmap.
  destruct (slots !! k) as [planet |] eqn:Hk; cbn [fmap option_fmap option_map].
  - destruct (Hslots k planet Hk) as (-> & _).
    rewrite lookup_seq_lt by (rewrite <- Hlen; eapply lookup_lt_Some; eauto).
    reflexivity.
  - apply lookup_ge_None in Hk. rewrite lookup_seq_ge by lia. reflexivity.
Qed.

(** X13.  The orbit radii of a system that [generateSolarSystem] returns for
    a star that carries the habitable zone of its luminosity: with N the
    number of planets, either planet k is on the orbit of slot k for every k,
    in the order of the loop, or no slot is in the habitable zone and the
    radii are those of the slots with one of them replaced by the midpoint
    of the zone, in increasing order. *)
Theorem generateSolarSystem_orbit_radii (parentStar : Star.t) (w : World) :
  let zone := calculateHabitableZone (Star.luminosity parentStar) in
  Star.habitableZone parentStar = Some zone ->
  returns (generateSolarSystem parentStar) w (fun planets _ =>
    exists N : Z,
      (3 <= N <= 18)%Z
      /\ length planets = Z.to_nat N
      /\ let slotRadii :=
           (fun k => getRandomOrbitRadius parentStar k N) <$> seq 0 (Z.to_nat N) in
         Planet.orbitRadius <$> planets = slotRadii
         \/ (Forall (fun r => isInHabitableZone r zone = false) slotRadii
             /\ exists i : nat,
                  (i < Z.to_nat N)%nat
                  /\ Permutation (Planet.orbitRadius <$> planets)
                       (<[i := (Zone.innerBoundary zone + Zone.outerBoundary zone) / 2]>
                          slotRadii))).
Proof.
  intros zone Hz.
  eapply returns_mono; [apply (generateSolarSystem_systemOf _ _ _ Hz) |].
  intros planets w' [(N & slots & HN & Hlen & Hslots & Hcase) _].
  exists N. split; [exact HN |].
  pose proof (slots_radii _ _ _ _ Hlen Hslots) as Hradii.
  destruct Hcase as [[_ ->] | (Hex & i & planet & Hi & ->)].
  - rewrite sort_sorted by (eapply slots_sorted; [| exact Hslots]; lia).
    split; [exact Hlen |]. left. exact Hradii.
  - split.
    { rewrite (Permutation_length (sort_Permutation _ _)), length_insert.
      exact Hlen. }
    cbn zeta. right. split.
    + rewrite <- Hradii. apply Forall_fmap.
      exact (existsb_inZone_false _ _ Hex).
    + exists i. split; [rewrite <- Hlen; eapply lookup_lt_Some; eauto |].
      rewrite sort_Permutation, list_fmap_insert, Hradii. reflexivity.
Qed.

Lemma generateSolarSystem_orbit_radii_witness :
  returns (generateSolarSystem sunWithZone) (mkWorld 7 (fun _ => 0) 0)
    (fun planets _ => (3 <= length planets <= 18)%nat).
Proof.
  eapply returns_mono.
  - apply (generateSolarSystem_orbit_radii sunWithZone). reflexivity.
  - intros planets w' (N & HN & Hlen & _). lia.
Defined.

(** ** The habitability pass *)

Lemma adjustForHabitableZonePlanet_settled planets habitableZone w :
  existsb (inZone habitableZone) planets = true ->
  adjustForHabitableZonePlanet planets habitableZone w = Returned planets w.
Proof.
  intros H. unfold adjustForHabitableZonePlanet.
  change (fun planet => isInHabitableZone (Planet.orbitRadius planet) habitableZone)
    with (inZone habitableZone).
  rewrite H. reflexivity.
Qed.

(** X14.  For a zone whose inner boundary is not above the outer one,
    [adjustForHabitableZonePlanet] throws on an empty list and on no other;
    after a call that returns, the list has a planet in the zone, so that a
    second call returns the list as it is and takes no random value. *)
Theorem adjustForHabitableZonePlanet_once (planets : list Planet.t)
    (habitableZone : Zone.t) (w : World) :
  Zone.innerBoundary habitableZone <= Zone.outerBoundary habitableZone ->
  (planets = [] -> adjustForHabitableZonePlanet planets habitableZone w = Thrown)
  /\ (planets <> [] ->
      returns (adjustForHabitableZonePlanet planets habitableZone) w
        (fun planets' w' =>
           length planets' = length planets
           /\ existsb (fun planet =>
                         isInHabitableZone (Planet.orbitRadius planet) habitableZone)
                planets' = true
           /\ adjustForHabitableZonePlanet planets' habitableZone w'
              = Returned planets' w')).
Proof.
  intros Hzone. split.
  - intros ->. unfold adjustForHabitableZonePlanet, bind, random, index.
    cbn [existsb negb length INR]. destruct (splitmix32_next (rngState w)) as [u a].
    rewrite Rmult_0_r.
    replace (Zfloor 0) with 0%Z by (symmetry; apply Zfloor_eq; lra).
    reflexivity.
  - intros Hne.
    eapply returns_mono; [apply (adjustForHabitableZonePlanet_spec _ _ _ Hne) |].
    intros planets' w' (Hcase & _).
    assert (length planets' = length planets
            /\ existsb (inZone habitableZone) planets' = true) as [Hlen Hex].
    { destruct Hcase as [[Hex ->] | (Hex & i & planet & Hi & ->)].
      - split; [reflexivity | exact Hex].
      - split; [apply length_insert |].
        apply existsb_exists.
        exists (Planet.setOrbitRadius (zoneMidpoint habitableZone) planet). split.
        + apply list_elem_of_In, list_elem_of_lookup. exists i.
          apply list_lookup_insert_eq. eapply lookup_lt_Some; eauto.
        + unfold inZone. cbn [Planet.orbitRadius Planet.setOrbitRadius].
          apply midpoint_in_zone. exact Hzone. }
    split; [exact Hlen |]. split; [exact Hex |].
    apply adjustForHabitableZonePlanet_settled. exact Hex.
Qed.

Lemma adjustForHabitableZonePlanet_once_witness :
  Zone.innerBoundary (calculateHabitableZone 1)
  <= Zone.outerBoundary (calculateHabitableZone 1)
  /\ returns (adjustForHabitableZonePlanet [gasGiant] (calculateHabitableZone 1))
       (mkWorld 7 (fun _ => 0) 0) (fun planets' _ => length planets' = 1%nat).
Proof.
  assert (Zone.innerBoundary (calculateHabitableZone 1)
          <= Zone.outerBoundary (calculateHabitableZone 1)) as Hzone.
  { cbn [calculateHabitableZone Zone.innerBoundary Zone.outerBoundary].
    assert (0 < 1) as H1 by lra. pose proof (zone_positive_ordered 1 H1). lra. }
  split; [exact Hzone |].
  eapply returns_mono.
  - apply (proj2 (adjustForHabitableZonePlanet_once [gasGiant]
                    (calculateHabitableZone 1) (mkWorld 7 (fun _ => 0) 0) Hzone)).
    discriminate.
  - intros planets' w' (Hlen & _). exact Hlen.
Defined.

(** ** What the seed fixes *)

Lemma generateSolarSystem_sameState parentStar habitableZone w1 w2 :
  Star.habitableZone parentStar = Some habitableZone ->
  rngState w1 = rngState w2 ->
  exists l1 w1' l2 w2',
    generateSolarSystem parentStar w1 = Returned l1 w1'
    /\ generateSolarSystem parentStar w2 = Returned l2 w2'
    /\ Forall2 sameOrbit l1 l2
    /\ rngState w1' = rngState w2'.
Proof.
  intros Hz E. unfold generateSolarSystem, bind.
  destruct (seededOnly_getRandomInt 3 18 w1 w2 E) as (N & s & R1 & R2).
  assert (3 <= 18)%Z as H318 by lia.
  pose proof (getRandomInt_range 3 18 w1 H318) as HN. unfold returns in HN.
  rewrite R1 in HN. destruct HN as [HN _].
  rewrite R1, R2, Hz.
  set (v1 := mkWorld s (tape w1) (taken w1)). set (v2 := mkWorld s (tape w2) (taken w2)).
  destruct (returns_inv _ _ _
              (returns_and _ _ _ _
                 (generatePlanets_spec parentStar habitableZone N (Z.to_nat N) 0 [] false v1)
                 (generatePlanets_rngState parentStar habitableZone N (Z.to_nat N) 0 []
                    false v1)))
    as ([planets1 added1] & u1 & L1 & (new1 & F1 & Len1 & A1 & _ & _ & Rad1) & S1).
  destruct (returns_inv _ _ _
              (returns_and _ _ _ _
                 (generatePlanets_spec parentStar habitableZone N (Z.to_nat N) 0 [] false v2)
                 (generatePlanets_rngState parentStar habitableZone N (Z.to_nat N) 0 []
                    false v2)))
    as ([planets2 added2] & u2 & L2 & (new2 & F2 & Len2 & A2 & _ & _ & Rad2) & S2).
  rewrite L1, L2. cbn [fst snd app orb] in *. subst planets1 planets2.
  assert (Forall2 sameOrbit new1 new2) as Hsame.
  { apply Forall2_same_length_lookup_2; [congruence |].
    intros j p1 p2 H1 H2. unfold sameOrbit.
    rewrite (Rad1 j p1 H1), (Rad2 j p2 H2). reflexivity. }
  assert (added2 = added1) as ->
    by (rewrite A1, A2; symmetry; apply existsb_inZone_sameOrbit; exact Hsame).
  assert (rngState u1 = rngState u2) as Eu by (rewrite S1, S2; reflexivity).
  destruct added1; cbn [negb ret].
  - do 4 eexists. split; [reflexivity |]. split; [reflexivity |].
    split; [apply sort_sameOrbit; exact Hsame | exact Eu].
  - assert (new1 <> []) as Hne by (intros ->; cbn in Len1; lia).
    destruct (adjustForHabitableZonePlanet_sameOrbit new1 new2 habitableZone u1 u2
                Hsame Eu Hne) as (l1 & u1' & l2 & u2' & A1' & A2' & Hl & Eu').
    rewrite A1', A2'.
    do 4 eexists. split; [reflexivity |]. split; [reflexivity |].
    split; [apply sort_sameOrbit; exact Hl | exact Eu'].
Qed.

(** X15.  Two calls of [generateOrbit] with the same seed, whatever the
    state of the seeded generator before each and whatever [Math.random]
    returns during each, both return, with the same parent star, the same
    habitable zone, the same number of planets and the same orbit radii,
    position by position, and they leave the seeded generator in the same
    state. *)
Theorem generateOrbit_same_seed_same_star_and_orbits (seed : Z) (w1 w2 : World) :
  exists orbit1 w1' orbit2 w2',
    generateOrbit (Some seed) w1 = Returned orbit1 w1'
    /\ generateOrbit (Some seed) w2 = Returned orbit2 w2'
    /\ Orbit.parentStar orbit1 = Orbit.parentStar orbit2
    /\ Orbit.habitableZone orbit1 = Orbit.habitableZone orbit2
    /\ length (Orbit.solarSystem orbit1) = length (Orbit.solarSystem orbit2)
    /\ Planet.orbitRadius <$> Orbit.solarSystem orbit1
       = Planet.orbitRadius <$> Orbit.solarSystem orbit2
    /\ rngState w1' = rngState w2'.
Proof.
  unfold generateOrbit, bind, set_random_seed.
  destruct (seededOnly_generateParentStar
              (mkWorld seed (tape w1) (taken w1)) (mkWorld seed (tape w2) (taken w2))
              eq_refl) as (star & s & R1 & R2).
  rewrite R1, R2. cbn [tape taken].
  set (star' := setHabitableZone _ star).
  destruct (generateSolarSystem_sameState star' _
              (mkWorld s (tape w1) (taken w1)) (mkWorld s (tape w2) (taken w2))
              eq_refl eq_refl) as (l1 & u1 & l2 & u2 & G1 & G2 & Hsame & Eu).
  rewrite G1, G2. do 4 eexists. split; [reflexivity |]. split; [reflexivity |].
  cbn [Orbit.parentStar Orbit.habitableZone Orbit.solarSystem ret].
  split; [reflexivity |]. split; [reflexivity |].
  split; [eapply Forall2_length; exact Hsame |].
  split; [| exact Eu].
  clear G1 G2. induction Hsame as [| p1 p2 l1' l2' Hp _ IH]; [reflexivity |].
  cbn [fmap list_fmap]. unfold sameOrbit in Hp. rewrite Hp. f_equal. exact IH.
Qed.

(** ** Rotation and revolution *)

Lemma clamp_range x : 0.00001 <= Rmax 0.00001 (Rmin x 0.0005) <= 0.0005.
Proof.
  split; [apply Rmax_l |].
  apply Rmax_lub; [lra | apply Rmin_r].
Qed.

Lemma Rabs_signed x (b : bool) : 0 <= x -> Rabs (x * (if b then 1 else -1)) = x.
Proof.
  intros Hx. destruct b.
  - rewrite Rmult_1_r. apply Rabs_pos_eq. exact Hx.
  - replace (x * -1) with (- x) by lra. rewrite Rabs_Ropp. apply Rabs_pos_eq. exact Hx.
Qed.

Lemma rotationSpeedToEarthHours_range v :
  0.00001 <= Rabs v <= 0.0005 ->
  4 * PI <= rotationSpeedToEarthHours v <= 200 * PI.
Proof.
  intros [Hlo Hhi]. unfold rotationSpeedToEarthHours, ROTATION_SPEED_SCALE.
  pose proof PI_RGT_0 as Hpi.
  set (x := Rabs v) in *.
  assert (0 < x) as Hx by lra.
  assert (2000 <= / x <= 100000) as [Hi1 Hi2].
  { split.
    - replace 2000 with (/ 0.0005) by lra. apply Rinv_le_contravar; lra.
    - replace 100000 with (/ 0.00001) by lra. apply Rinv_le_contravar; lra. }
  unfold Rdiv. split; nra.
Qed.

Lemma rotationSpeedToEarthHours_fast v :
  0.00005 <= Rabs v <= 0.0005 ->
  4 * PI <= rotationSpeedToEarthHours v <= 40 * PI.
Proof.
  intros [Hlo Hhi]. unfold rotationSpeedToEarthHours, ROTATION_SPEED_SCALE.
  pose proof PI_RGT_0 as Hpi.
  set (x := Rabs v) in *.
  assert (0 < x) as Hx by lra.
  assert (2000 <= / x <= 20000) as [Hi1 Hi2].
  { split.
    - replace 2000 with (/ 0.0005) by lra. apply Rinv_le_contravar; lra.
    - replace 20000 with (/ 0.00005) by lra. apply Rinv_le_contravar; lra. }
  unfold Rdiv. split; nra.
Qed.

Lemma getRotationSpeed_run orbitRadius habitableZone scale systemOuterEdge w :
  exists x : R,
    getRotationSpeed orbitRadius habitableZone scale systemOuterEdge w
    = Returned
        (Rmax 0.00001 (Rmin x 0.0005)
         * (if bool_decide (tape w (S (taken w)) < 0.5) then 1 else -1))
        (mkWorld (rngState w) (tape w) (S (S (taken w))))
    /\ x = (0.0001
            + orbitRadius / scale / (systemOuterEdge / scale)
              * (tape w (taken w)
                 * (1 + (Zone.outerBoundary habitableZone
                         - Zone.innerBoundary habitableZone) / 2))
              * 0.0001)
           * Rmax 0.5
               (1 - Rabs (orbitRadius / scale
                          - (Zone.innerBoundary habitableZone
                             + Zone.outerBoundary habitableZone) / 2)
                    / ((Zone.innerBoundary habitableZone
                        + Zone.outerBoundary habitableZone) / 2)).
Proof.
  eexists. split; [| reflexivity].
  unfold getRotationSpeed, bind, mathRandom, ret. cbn [rngState tape taken].
  reflexivity.
Qed.

(** X16.  For finite arguments with a scale, a system edge and a zone centre
    other than zero, [getRotationSpeed] returns a speed whose magnitude is
    between 0.00001 and 0.0005, so never zero, and whose sign is positive
    exactly when the second value of [Math.random] is below 0.5; the day
    that [rotationSpeedToEarthHours] computes from it lasts between 4π and
    200π hours.  The call takes two values from [Math.random] and none from
    the seeded source. *)
Theorem getRotationSpeed_magnitude (orbitRadius : R) (habitableZone : Zone.t)
    (scale systemOuterEdge : R) (w : World) :
  scale <> 0 ->
  systemOuterEdge <> 0 ->
  Zone.innerBoundary habitableZone + Zone.outerBoundary habitableZone <> 0 ->
  returns (getRotationSpeed orbitRadius habitableZone scale systemOuterEdge) w
    (fun rotationSpeed w' =>
       0.00001 <= Rabs rotationSpeed <= 0.0005
       /\ rotationSpeed <> 0
       /\ (0 < rotationSpeed <-> tape w (S (taken w)) < 0.5)
       /\ 4 * PI <= rotationSpeedToEarthHours rotationSpeed <= 200 * PI
       /\ w' = mkWorld (rngState w) (tape w) (S (S (taken w)))).
Proof.
  intros _ _ _.
  destruct (getRotationSpeed_run orbitRadius habitableZone scale systemOuterEdge w)
    as (x & Hrun & _).
  unfold returns. rewrite Hrun.
  pose proof (clamp_range x) as Hclamp.
  set (speed := Rmax 0.00001 (Rmin x 0.0005)) in *.
  assert (0 <= speed) as Hpos by lra.
  pose proof (Rabs_signed speed (bool_decide (tape w (S (taken w)) < 0.5)) Hpos)
    as Habs.
  split; [rewrite Habs; exact Hclamp |].
  split; [| split; [| split; [| reflexivity]]].
  - case_bool_decide; lra.
  - case_bool_decide; split; intros; lra.
  - apply rotationSpeedToEarthHours_range. rewrite Habs. exact Hclamp.
Qed.

Lemma getRotationSpeed_magnitude_witness :
  21840 <> 0 /\ 30 <> 0
  /\ Zone.innerBoundary (calculateHabitableZone 1.1)
     + Zone.outerBoundary (calculateHabitableZone 1.1) <> 0
  /\ returns (getRotationSpeed 1 (calculateHabitableZone 1.1) 21840 30)
       (mkWorld 7 (fun _ => 0) 0)
       (fun rotationSpeed _ => rotationSpeed <> 0).
Proof.
  assert (21840 <> 0) as H1 by lra.
  assert (30 <> 0) as H2 by lra.
  assert (Zone.innerBoundary (calculateHabitableZone 1.1)
          + Zone.outerBoundary (calculateHabitableZone 1.1) <> 0) as H3.
  { cbn [calculateHabitableZone Zone.innerBoundary Zone.outerBoundary].
    assert (0 < 1.1) as HL by lra. pose proof (zone_positive_ordered 1.1 HL). lra. }
  split; [exact H1 |]. split; [exact H2 |]. split; [exact H3 |].
  eapply returns_mono.
  - apply (getRotationSpeed_magnitude 1 (calculateHabitableZone 1.1) 21840 30
             (mkWorld 7 (fun _ => 0) 0) H1 H2 H3).
  - intros v w' (_ & Hne & _). exact Hne.
Defined.

Lemma sorted_last planets outermost :
  StronglySorted orbitLe planets ->
  last planets = Some outermost ->
  Forall (fun planet => Planet.orbitRadius planet <= Planet.orbitRadius outermost)
    planets.
Proof.
  induction 1 as [| x l Hl IH Hx]; intros Hlast; [constructor |].
  destruct l as [| y l'].
  - cbn in Hlast. injection Hlast as ->. constructor; [lra | constructor].
  - change (last (y :: l') = Some outermost) in Hlast.
    constructor; [| exact (IH Hlast)].
    assert (outermost ∈ y :: l') as Hin.
    { apply last_Some in Hlast. destruct Hlast as [l'' ->].
      apply elem_of_app. right. apply list_elem_of_here. }
    exact (proj1 (Forall_forall _ _) Hx outermost Hin).
Qed.

Lemma speedModifier_far luminosity orbitRadius :
  0.008 <= luminosity ->
  0 < orbitRadius < maxOrbitOf luminosity ->
  let zone := calculateHabitableZone luminosity in
  let habCenterAU := (Zone.innerBoundary zone + Zone.outerBoundary zone) / 2 in
  Rmax 0.5 (1 - Rabs (orbitRadius / AU_TO_SCENE_SCALE - habCenterAU) / habCenterAU)
  = 0.5.
Proof.
  intros HL [Hr0 Hr]. cbn zeta.
  cbn [calculateHabitableZone Zone.innerBoundary Zone.outerBoundary].
  unfold maxOrbitOf, AU_TO_SCENE_SCALE in *.
  assert (0 < luminosity) as Hpos by lra.
  pose proof (zone_positive_ordered _ Hpos) as [Hin Hout].
  assert (0.1 <= sqrt (luminosity / 0.53)) as Houter.
  { replace 0.1 with (sqrt (0.1 * 0.1)) by (apply sqrt_square; lra).
    apply sqrt_le_1_alt. lra. }
  set (inner := sqrt (luminosity / 1.1)) in *.
  set (outer := sqrt (luminosity / 0.53)) in *.
  assert (orbitRadius < 5460 * outer) as Hfar.
  { unfold Rmax in Hr. destruct (Rle_dec 50 (outer + 20)); lra. }
  set (c := (inner + outer) / 2).
  assert (outer / 2 < c) as Hc by (unfold c; lra).
  assert (orbitRadius / 21840 < c / 2) as Hsmall by lra.
  rewrite Rabs_left by lra.
  apply Rmax_left.
  assert (- (orbitRadius / 21840 - c) / c >= 1 / 2); [| lra].
  assert (0 < / c) as Hi by (apply Rinv_0_lt_compat; lra).
  assert (c * / c = 1) as Hci by (apply Rinv_r; lra).
  unfold Rdiv. nra.
Qed.

(** X17.  For every planet of a system that [generateOrbit] returns, the
    call of [getRotationSpeed] in [populateUniverseData] (scale 21840, the
    system edge the orbit radius of the last planet, which is the largest)
    returns: the distance from the centre of the habitable zone never
    changes the speed, its modifier being 0.5 for every planet.  With m the
    value of [Math.random], from 0 up to but not including 1, the magnitude
    of the speed is the smaller of 0.0005 and
    0.00005 * (1 + orbitRadius / edge * m * (1 + (outer - inner) / 2)), and
    the day that [rotationSpeedToEarthHours] computes from it lasts between
    4π and 40π hours. *)
Theorem populateUniverseData_rotation_speed (seed : option Z) (w : World) :
  returns (generateOrbit seed) w (fun orbitData _ =>
    exists outermost zone,
      last (Orbit.solarSystem orbitData) = Some outermost
      /\ Star.habitableZone (Orbit.parentStar orbitData) = Some zone
      /\ Forall (fun planet =>
           0 < Planet.orbitRadius planet <= Planet.orbitRadius outermost
           /\ forall w1 : World,
                0 <= tape w1 (taken w1) < 1 ->
                returns (rotationSpeedOf orbitData planet) w1 (fun rotationSpeed _ =>
                  Rabs rotationSpeed
                  = Rmin (0.00005
                          * (1 + Planet.orbitRadius planet
                                 / Planet.orbitRadius outermost
                                 * tape w1 (taken w1)
                                 * (1 + (Zone.outerBoundary zone
                                         - Zone.innerBoundary zone) / 2)))
                         0.0005
                  /\ 0.00005 <= Rabs rotationSpeed <= 0.0005
                  /\ 4 * PI <= rotationSpeedToEarthHours rotationSpeed
                     <= 40 * PI))
           (Orbit.solarSystem orbitData)).
Proof.
  eapply returns_mono.
  { apply returns_and; [apply generateOrbit_systemOf | apply generateOrbit_spec]. }
  cbn beta zeta.
  intros orbit w' [(Hband & Hz & _ & Hsys) (_ & _ & _ & Hsorted & Hlen & _)].
  pose proof (starInBand_luminosity _ Hband) as HL.
  set (star := Orbit.parentStar orbit) in *.
  set (L := Star.luminosity star) in *.
  assert (0 < L) as Hpos by lra.
  pose proof (zone_positive_ordered _ Hpos) as [Hin Hout].
  assert (Forall (fun planet => 0 < Planet.orbitRadius planet < maxOrbitOf L)
            (Orbit.solarSystem orbit)) as Hradii.
  { eapply systemOf_Forall; [exact Hsys |].
    intros M k planet HM Hk (Hr & _). split.
    - rewrite Hr.
      pose proof (getRandomOrbitRadius_range star M k) as Hrange.
      assert (1 <= M)%Z as H1 by lia.
      assert (Z.of_nat k < M)%Z as H2 by lia. specialize (Hrange H1 H2).
      fold L in Hrange. lra.
    - cbn [Planet.orbitRadius Planet.setOrbitRadius]. unfold zoneMidpoint, maxOrbitOf.
      cbn [calculateHabitableZone Zone.innerBoundary Zone.outerBoundary].
      pose proof (Rmax_r 50 (sqrt (L / 0.53) + 20)). lra. }
  destruct (last (Orbit.solarSystem orbit)) as [outermost |] eqn:Hlast;
    [| apply last_None in Hlast; rewrite Hlast in Hlen; cbn in Hlen; lia].
  exists outermost, (calculateHabitableZone L). split; [reflexivity |].
  split; [exact Hz |].
  pose proof (sorted_last _ _ Hsorted Hlast) as Hbelow.
  assert (0 < Planet.orbitRadius outermost) as Hedge.
  { apply last_Some in Hlast. destruct Hlast as [l' Hl'].
    rewrite Hl' in Hradii. apply Forall_app in Hradii. destruct Hradii as [_ Hr].
    apply Forall_cons in Hr. lra. }
  apply Forall_forall. intros planet Hin'.
  pose proof (proj1 (Forall_forall _ _) Hradii planet Hin') as Hr.
  pose proof (proj1 (Forall_forall _ _) Hbelow planet Hin') as Hle.
  split; [lra |]. intros w1 Hm.
  unfold rotationSpeedOf. rewrite Hlast. fold star. rewrite Hz.
  destruct (getRotationSpeed_run (Planet.orbitRadius planet)
              (Zone.mk (Zone.innerBoundary (calculateHabitableZone L))
                       (Zone.outerBoundary (calculateHabitableZone L)))
              AU_TO_SCENE_SCALE (Planet.orbitRadius outermost) w1)
    as (x & Hrun & Hx).
  unfold returns. rewrite Hrun.
  cbn [Zone.innerBoundary Zone.outerBoundary] in Hx.
  pose proof (speedModifier_far L (Planet.orbitRadius planet) (proj1 HL) Hr) as Hmod.
  cbn zeta in Hmod. rewrite Hmod in Hx.
  cbn [calculateHabitableZone Zone.innerBoundary Zone.outerBoundary] in *.
  set (inner := sqrt (L / 1.1)) in *. set (outer := sqrt (L / 0.53)) in *.
  set (r := Planet.orbitRadius planet) in *.
  set (edge := Planet.orbitRadius outermost) in *.
  set (m := tape w1 (taken w1)) in *.
  assert (r / AU_TO_SCENE_SCALE / (edge / AU_TO_SCENE_SCALE) = r / edge) as Hdp
    by (unfold AU_TO_SCENE_SCALE; field; lra).
  rewrite Hdp in Hx.
  assert (0 <= r / edge * m * (1 + (outer - inner) / 2)) as Hterm.
  { assert (0 <= r / edge) by (apply Rlt_le, Rdiv_lt_0_compat; lra).
    apply Rmult_le_pos; [apply Rmult_le_pos; lra | lra]. }
  assert (x = 0.00005 * (1 + r / edge * m * (1 + (outer - inner) / 2))) as Hx'
    by (rewrite Hx; lra).
  assert (0.00005 <= x) as Hlow by (rewrite Hx'; lra).
  assert (Rmax 0.00001 (Rmin x 0.0005) = Rmin x 0.0005) as Hclamp.
  { apply Rmax_right. apply Rmin_glb; lra. }
  rewrite Hclamp.
  assert (0.00005 <= Rmin x 0.0005 <= 0.0005) as Hrange
    by (split; [apply Rmin_glb; lra | apply Rmin_r]).
  pose proof (Rabs_signed (Rmin x 0.0005)
                (bool_decide (tape w1 (S (taken w1)) < 0.5))
                ltac:(lra)) as Habs.
  split; [rewrite Habs, <- Hx'; reflexivity |].
  split; [rewrite Habs; exact Hrange |].
  apply rotationSpeedToEarthHours_fast. rewrite Habs. exact Hrange.
Qed.

(** X18.  With the orbital speed that [populateUniverseData] gives a planet,
    0.00001 / (orbitRadius * 21840), the year that [orbitalSpeedToEarthDays]
    computes grows with the square of the orbit radius: it is
    209.664 π orbitRadius² Earth days; and [localDaysPerOrbit] is that year
    divided by the day of [rotationSpeedToEarthHours] counted in Earth
    days. *)
Theorem orbitalSpeedToEarthDays_quadratic (planet : Planet.t) (rotationSpeed : R) :
  Planet.orbitRadius planet <> 0 ->
  rotationSpeed <> 0 ->
  orbitalSpeedToEarthDays (orbitalSpeedOf planet) (Planet.orbitRadius planet)
  = 209.664 * PI * (Planet.orbitRadius planet * Planet.orbitRadius planet)
  /\ localDaysPerOrbit rotationSpeed (orbitalSpeedOf planet)
       (Planet.orbitRadius planet)
     = 2515968 * Rabs rotationSpeed
       * (Planet.orbitRadius planet * Planet.orbitRadius planet)
  /\ localDaysPerOrbit rotationSpeed (orbitalSpeedOf planet)
       (Planet.orbitRadius planet)
       * (rotationSpeedToEarthHours rotationSpeed / 24)
     = orbitalSpeedToEarthDays (orbitalSpeedOf planet) (Planet.orbitRadius planet).
Proof.
  intros Hr Hv.
  pose proof PI_RGT_0 as Hpi.
  assert (Rabs rotationSpeed <> 0) as Ha by (apply Rabs_no_R0; exact Hv).
  unfold localDaysPerOrbit, orbitalSpeedToEarthDays, rotationSpeedToEarthHours,
    orbitalSpeedOf, ORBITAL_SPEED_SCALE, ROTATION_SPEED_SCALE.
  set (r := Planet.orbitRadius planet) in *. set (a := Rabs rotationSpeed) in *.
  replace 0.00001 with (1 / 100000) by lra.
  replace 0.000000048 with (48 / 1000000000) by lra.
  replace 0.001 with (1 / 1000) by lra.
  replace 209.664 with (209664 / 1000) by lra.
  split; [| split]; field; repeat split; lra.
Qed.

Lemma orbitalSpeedToEarthDays_quadratic_witness :
  orbitalSpeedToEarthDays (orbitalSpeedOf gasGiant) (Planet.orbitRadius gasGiant)
  = 209.664 * PI * (Planet.orbitRadius gasGiant * Planet.orbitRadius gasGiant).
Proof.
  apply (orbitalSpeedToEarthDays_quadratic gasGiant 0.0001).
  - cbn [gasGiant Planet.orbitRadius]. lra.
  - lra.
Defined.

(** ** The star of the scene *)

(** X19.  The star that [generateStar] stores has the type and the age of
    the star that [generateParentStar] returns from the same state, a size
    and a mass drawn again in the ranges of that type, the luminosity of the
    new size and the habitable zone of that luminosity; the call takes six
    values from the seeded source, two of them for a size and a mass that
    are dropped, and none from [Math.random]. *)
Theorem generateStar_redraws_size_and_mass (w : World) :
  returns generateStar w (fun star w' =>
    (exists parentStar w1,
       generateParentStar w = Returned parentStar w1
       /\ Star.type star = Star.type parentStar
       /\ Star.age star = Star.age parentStar)
    /\ (exists class band,
          Star.type star = Some class
          /\ (class, band) ∈ starBands
          /\ StarBand.ageMin band <= Star.age star < StarBand.ageMax band
          /\ StarBand.sizeMin band <= Star.size star < StarBand.sizeMax band
          /\ StarBand.massMin band <= Star.mass star < StarBand.massMax band
          /\ Star.luminosity star = Star.size star * StarBand.multiplier band)
    /\ Star.habitableZone star
       = Some (calculateHabitableZone (Star.luminosity star))
    /\ w' = mkWorld
              (nextState (nextState (nextState (nextState (nextState (nextState
                 (rngState w)))))))
              (tape w) (taken w)).
Proof.
  unfold generateStar. apply returns_bind.
  destruct (returns_inv _ _ _ (generateParentStar_inBand w))
    as (parent & w1 & Hrun & Hband & _ & Hw1).
  eapply returns_intro; [exact Hrun |].
  destruct Hband as (class & band & Htype & Hband & Hage & _ & _ & _).
  rewrite Htype. apply returns_bind.
  eapply returns_mono;
    [apply (generateStarSizeAndMass_band class band (Star.age parent) w1 Hband) |].
  intros sm w2 (Hsize & Hmass & Hlum & Hw2). apply returns_ret.
  cbn [Star.type Star.age Star.size Star.mass Star.luminosity Star.habitableZone].
  split; [exists parent, w1; rewrite Htype; auto |].
  split; [exists class, band; auto 10 |].
  split; [reflexivity |].
  rewrite Hw2, Hw1. cbn [rngState tape taken]. reflexivity.
Qed.

Lemma orElse_nonzero x d : x <> 0 -> orElse (Some x) d = x.
Proof. intros H. unfold orElse. rewrite bool_decide_eq_false_2 by exact H. reflexivity. Qed.

Lemma temperatures_class class :
  class ∈ starTypes ->
  orElse (propertyOf temperatures (Some class)) 5800
  = calculateStarTemperature (Some class)
  /\ 3250 <= calculateStarTemperature (Some class) <= 35000.
Proof.
  intros H. apply starTypes_cases in H.
  destruct H as [-> | [-> | [-> | [-> | [-> | [-> | ->]]]]]];
    cbn [propertyOf property temperatures calculateStarTemperature strictEq
         String.eqb Ascii.eqb Bool.eqb];
    (split; [apply orElse_nonzero; lra | lra]).
Qed.

Lemma temperatures_unknown starType :
  (forall class, class ∈ starTypes -> starType <> Some class) ->
  orElse (propertyOf temperatures starType) 5800 = 5800
  /\ calculateStarTemperature starType = 5500.
Proof.
  intros Hnot.
  assert (forall class, class ∈ starTypes -> strictEq starType class = false) as Hfalse.
  { intros class Hclass. destruct starType as [s |]; [| reflexivity]. cbn.
    apply String.eqb_neq. intros ->. exact (Hnot class Hclass eq_refl). }
  split.
  - destruct starType as [s |]; [| reflexivity].
    assert (forall class, class ∈ starTypes -> String.eqb class s = false) as Hs.
    { intros class Hclass. rewrite String.eqb_sym. exact (Hfalse class Hclass). }
    unfold propertyOf, temperatures, property.
    rewrite !Hs by (unfold starTypes; rewrite !elem_of_cons; tauto).
    reflexivity.
  - unfold calculateStarTemperature.
    rewrite !Hfalse by (unfold starTypes; rewrite !elem_of_cons; tauto).
    reflexivity.
Qed.

(** X20.  For a star type that names no member inherited from
    [Object.prototype], the temperature that
    [calculateStarColorAndIntensity] looks up in its table and the one that
    [calculateStarTemperature] returns are the same for each of the seven
    star classes, between 3250 and 35000; for any other type, and for
    [undefined], the first is 5800 and the second 5500. *)
Theorem star_temperature_tables (starType : option string) :
  notInherited starType ->
  (exists class,
     starType = Some class /\ class ∈ starTypes
     /\ orElse (propertyOf temperatures starType) 5800
        = calculateStarTemperature starType
     /\ 3250 <= calculateStarTemperature starType <= 35000)
  \/ ((forall class, class ∈ starTypes -> starType <> Some class)
      /\ orElse (propertyOf temperatures starType) 5800 = 5800
      /\ calculateStarTemperature starType = 5500).
Proof.
  intros _. destruct starType as [s |].
  - destruct (In_dec string_dec s starTypes) as [Hin | Hout];
      rewrite <- list_elem_of_In in *.
    + left. exists s. split; [reflexivity |]. split; [exact Hin |].
      apply temperatures_class. exact Hin.
    + right.
      assert (forall class, class ∈ starTypes -> Some s <> Some class) as Hnot
        by (intros class Hclass [= ->]; exact (Hout Hclass)).
      split; [exact Hnot | apply temperatures_unknown; exact Hnot].
  - right.
    assert (forall class, class ∈ starTypes -> @None string <> Some class) as Hnot
      by (intros class _ [=]).
    split; [exact Hnot | apply temperatures_unknown; exact Hnot].
Qed.

Lemma star_temperature_tables_witness :
  notInherited (Some "X"%string)
  /\ orElse (propertyOf temperatures (Some "X"%string)) 5800 = 5800
  /\ calculateStarTemperature (Some "X"%string) = 5500.
Proof.
  assert (notInherited (Some "X"%string)) as H.
  { intros name Hname [= <-]. unfold inheritedNames in Hname.
    rewrite !elem_of_cons, elem_of_nil in Hname.
    repeat (destruct Hname as [Hname | Hname]; [discriminate Hname |]).
    exact Hname. }
  split; [exact H |].
  destruct (star_temperature_tables (Some "X"%string) H)
    as [(class & [= <-] & Hclass & _) | (_ & H1 & H2)].
  - exfalso. apply starTypes_cases in Hclass.
    destruct Hclass as [Hc | [Hc | [Hc | [Hc | [Hc | [Hc | Hc]]]]]]; discriminate Hc.
  - split; [exact H1 | exact H2].
Defined.

(** ** The colour of the star *)

Lemma mathRound_between (lo hi : Z) x :
  IZR lo <= x <= IZR hi -> (lo <= mathRound x <= hi)%Z.
Proof.
  intros [Hlo Hhi]. unfold mathRound.
  pose proof (Zfloor_bound (x + 1 / 2)) as [Hb1 Hb2]. split.
  - apply Zfloor_lub. lra.
  - assert (IZR (Zfloor (x + 1 / 2)) < IZR (hi + 1)) as H
      by (rewrite plus_IZR; lra).
    apply lt_IZR in H. lia.
Qed.

Lemma mathRound_IZR (n : Z) : mathRound (IZR n) = n.
Proof. unfold mathRound. apply Zfloor_eq. lra. Qed.

Lemma interpolateColors_three (a b c a' b' c' : Z) factor :
  interpolateColors [a; b; c] [a'; b'; c'] factor
  = Some [ mathRound (IZR a + factor * (IZR a' - IZR a));
           mathRound (IZR b + factor * (IZR b' - IZR b));
           mathRound (IZR c + factor * (IZR c' - IZR c)) ].
Proof. reflexivity. Qed.

Lemma channel_between (a a' : Z) factor :
  (0 <= a <= 255)%Z -> (0 <= a' <= 255)%Z -> 0 <= factor <= 1 ->
  (0 <= mathRound (IZR a + factor * (IZR a' - IZR a)) <= 255)%Z.
Proof.
  intros [Ha1 Ha2] [Hb1 Hb2] Hf. apply mathRound_between.
  apply IZR_le in Ha1, Ha2, Hb1, Hb2. nra.
Qed.

Lemma temperatureToRGB_of_color temperature r g b :
  temperatureColor temperature = Some [r; g; b] ->
  temperatureToRGB temperature = Some (rgbString r g b).
Proof. intros H. unfold temperatureToRGB. rewrite H. reflexivity. Qed.

Lemma temperatureColor_channels temperature :
  exists r g b : Z,
    temperatureColor temperature = Some [r; g; b]
    /\ (0 <= r <= 255)%Z /\ (0 <= g <= 255)%Z /\ (0 <= b <= 255)%Z.
Proof.
  unfold temperatureColor.
  set (t := (Rmin (Rmax temperature 3000) 40000 - 3000) / (40000 - 3000)).
  assert (0 <= t <= 1) as Ht.
  { assert (3000 <= Rmin (Rmax temperature 3000) 40000 <= 40000) as Hc.
    { split; [apply Rmin_glb; [apply Rmax_r | lra] | apply Rmin_r]. }
    unfold t. split.
    - apply Rmult_le_pos; [lra |]. apply Rlt_le, Rinv_0_lt_compat. lra.
    - apply Rmult_le_reg_r with (40000 - 3000); [lra |].
      unfold Rdiv. rewrite Rmult_assoc, Rinv_l by lra. lra. }
  unfold Colors.red, Colors.yellow, Colors.white, Colors.lightBlue, Colors.blue.
  repeat case_bool_decide; rewrite interpolateColors_three;
    do 3 eexists; (split; [reflexivity |]);
    repeat split; try (apply channel_between; [lia | lia | lra]);
    apply channel_between; try lia; lra.
Qed.

(** X21.  For every temperature [temperatureToRGB] returns the text
    "rgb(r, g, b)" of three whole numbers from 0 to 255; at 3000 and below
    it is pure red, at 40000 and above pure blue. *)
Theorem temperatureToRGB_channels (temperature : R) :
  (exists r g b : Z,
     (0 <= r <= 255)%Z /\ (0 <= g <= 255)%Z /\ (0 <= b <= 255)%Z
     /\ temperatureToRGB temperature = Some (rgbString r g b))
  /\ (temperature <= 3000 ->
      temperatureToRGB temperature = Some "rgb(255, 0, 0)"%string)
  /\ (40000 <= temperature ->
      temperatureToRGB temperature = Some "rgb(0, 0, 255)"%string).
Proof.
  split; [| split].
  - destruct (temperatureColor_channels temperature)
      as (r & g & b & Hc & Hr & Hg & Hb).
    exists r, g, b. repeat (split; [assumption |]).
    exact (temperatureToRGB_of_color _ _ _ _ Hc).
  - intros Hcold.
    assert (temperatureColor temperature = Some [255; 0; 0]%Z) as Hc.
    { unfold temperatureColor. rewrite Rmax_right by exact Hcold.
      rewrite Rmin_left by lra.
      replace ((3000 - 3000) / (40000 - 3000)) with 0 by lra.
      rewrite bool_decide_eq_true_2 by lra.
      unfold Colors.red, Colors.yellow. rewrite interpolateColors_three.
      replace (0 / 0.25) with 0 by lra. rewrite !Rmult_0_l, !Rplus_0_r.
      rewrite !mathRound_IZR. reflexivity. }
    rewrite (temperatureToRGB_of_color _ _ _ _ Hc). reflexivity.
  - intros Hhot.
    assert (temperatureColor temperature = Some [0; 0; 255]%Z) as Hc.
    { unfold temperatureColor.
      rewrite Rmin_right by (apply Rle_trans with temperature; [lra | apply Rmax_l]).
      replace ((40000 - 3000) / (40000 - 3000)) with 1 by (field; lra).
      rewrite !bool_decide_eq_false_2 by lra.
      unfold Colors.lightBlue, Colors.blue. rewrite interpolateColors_three.
      replace ((1 - 0.75) / 0.25) with 1 by lra. rewrite !Rmult_1_l.
      replace (IZR 173 + (IZR 0 - IZR 173)) with (IZR 0) by lra.
      replace (IZR 216 + (IZR 0 - IZR 216)) with (IZR 0) by lra.
      replace (IZR 230 + (IZR 255 - IZR 230)) with (IZR 255) by lra.
      rewrite !mathRound_IZR. reflexivity. }
    rewrite (temperatureToRGB_of_color _ _ _ _ Hc). reflexivity.
Qed.

Lemma temperatureToRGB_channels_witness :
  temperatureToRGB 2500 = Some "rgb(255, 0, 0)"%string.
Proof.
  apply (proj1 (proj2 (temperatureToRGB_channels 2500))). lra.
Defined.

Lemma applyVisualTemperatureVariance_run baseTemperature w :
  applyVisualTemperatureVariance baseTemperature w
  = Returned (baseTemperature
              + (tape w (taken w) * 2 - 1) * (baseTemperature * 0.05))
             (mkWorld (rngState w) (tape w) (S (taken w))).
Proof. reflexivity. Qed.

Lemma cool_star_color temperature :
  3087.5 <= temperature < 9187.5 ->
  exists g : Z, (2 <= g <= 171)%Z /\ temperatureColor temperature = Some [255; g; 0]%Z.
Proof.
  intros HT. unfold temperatureColor.
  rewrite Rmax_left by lra. rewrite Rmin_left by lra.
  set (t := (temperature - 3000) / (40000 - 3000)).
  assert (t = (temperature - 3000) / 37000) as Ht by (unfold t; f_equal; lra).
  assert (87.5 / 37000 <= t < 6187.5 / 37000) as Hrange.
  { rewrite Ht. unfold Rdiv. split.
    - apply Rmult_le_compat_r; lra.
    - apply Rmult_lt_compat_r; lra. }
  rewrite bool_decide_eq_true_2 by lra.
  unfold Colors.red, Colors.yellow. rewrite interpolateColors_three.
  exists (mathRound (IZR 0 + t / 0.25 * (IZR 255 - IZR 0))). split.
  - apply mathRound_between. lra.
  - replace (IZR 255 + t / 0.25 * (IZR 255 - IZR 255)) with (IZR 255) by lra.
    replace (IZR 0 + t / 0.25 * (IZR 0 - IZR 0)) with (IZR 0) by lra.
    rewrite !mathRound_IZR. reflexivity.
Qed.

(** X22.  For a star of class M, K, G, F or A and a value of [Math.random]
    from 0 up to but not including 1, [calculateStarColorAndIntensity]
    returns a colour between red and yellow, "rgb(255, g, 0)" with g from 2
    to 171, and the intensity min(luminosity, 300); it takes one value from
    [Math.random]. *)
Theorem calculateStarColorAndIntensity_cool_star (class : string)
    (starLuminosity : R) (w : World) :
  class ∈ ["M"; "K"; "G"; "F"; "A"]%string ->
  0 <= tape w (taken w) < 1 ->
  returns (calculateStarColorAndIntensity (Some class) starLuminosity) w
    (fun result w' =>
       (exists g : Z,
          (2 <= g <= 171)%Z
          /\ fst result = Some (rgbString 255 g 0))
       /\ snd result = Rmin starLuminosity 300
       /\ w' = mkWorld (rngState w) (tape w) (S (taken w))).
Proof.
  intros Hclass Hm.
  assert (class ∈ starTypes) as Hstar.
  { unfold starTypes. rewrite !elem_of_cons in *. tauto. }
  destruct (temperatures_class class Hstar) as [Hbase _].
  assert (3250 <= calculateStarTemperature (Some class) <= 8750) as Hcool.
  { rewrite !elem_of_cons, elem_of_nil in Hclass.
    destruct Hclass as [-> | [-> | [-> | [-> | [-> | []]]]]];
      cbn [calculateStarTemperature strictEq String.eqb Ascii.eqb Bool.eqb]; lra. }
  unfold calculateStarColorAndIntensity. rewrite Hbase.
  set (base := calculateStarTemperature (Some class)) in *.
  apply returns_bind.
  eapply returns_intro; [apply applyVisualTemperatureVariance_run |].
  apply returns_ret. cbn [fst snd].
  set (m := tape w (taken w)) in *.
  assert (3087.5 <= base + (m * 2 - 1) * (base * 0.05) < 9187.5) as HT by nra.
  destruct (cool_star_color _ HT) as (g & Hg & Hc).
  split; [| split; [f_equal; lra | reflexivity]].
  exists g. split; [exact Hg |].
  rewrite (temperatureToRGB_of_color _ _ _ _ Hc). reflexivity.
Qed.

Lemma calculateStarColorAndIntensity_cool_star_witness :
  "G"%string ∈ ["M"; "K"; "G"; "F"; "A"]%string
  /\ 0 <= tape (mkWorld 7 (fun _ => 0) 0) (taken (mkWorld 7 (fun _ => 0) 0)) < 1
  /\ returns (calculateStarColorAndIntensity (Some "G"%string) 1)
       (mkWorld 7 (fun _ => 0) 0) (fun result _ => snd result = Rmin 1 300).
Proof.
  assert ("G"%string ∈ ["M"; "K"; "G"; "F"; "A"]%string) as H1
    by (rewrite !elem_of_cons; tauto).
  assert (0 <= tape (mkWorld 7 (fun _ => 0) 0) (taken (mkWorld 7 (fun _ => 0) 0)) < 1)
    as H2 by (cbn; lra).
  split; [exact H1 |]. split; [exact H2 |].
  eapply returns_mono.
  - apply (calculateStarColorAndIntensity_cool_star "G" 1
             (mkWorld 7 (fun _ => 0) 0) H1 H2).
  - intros result w' (_ & Hi & _). exact Hi.
Defined.

(** ** The atmosphere shell *)


(** ** The name of the system *)

Lemma get_in_range (s : string) (n : nat) :
  (n < String.length s)%nat ->
  exists c, String.get n s = Some c /\ In c (list_ascii_of_string s).
Proof.
  revert n. induction s as [| a s IH]; intros n Hn; cbn in Hn; [lia |].
  destruct n as [| n]; cbn [String.get list_ascii_of_string].
  - exists a. split; [reflexivity | left; reflexivity].
  - destruct (IH n) as (c & Hc & Hin); [lia |].
    exists c. split; [exact Hc | right; exact Hin].
Qed.

Lemma charAt_random (chars : string) (m : R) :
  chars <> EmptyString -> 0 <= m < 1 ->
  exists c,
    charAt chars (Zfloor (m * INR (String.length chars))) = String c EmptyString
    /\ In c (list_ascii_of_string chars).
Proof.
  intros Hne Hm.
  assert (0 < INR (String.length chars)) as Hpos.
  { apply lt_0_INR. destruct chars; [congruence | cbn; lia]. }
  pose proof (Zfloor_bound (m * INR (String.length chars))) as Hb.
  assert (0 <= Zfloor (m * INR (String.length chars)))%Z as H0
    by (apply Zfloor_lub; simpl; nra).
  assert (Z.to_nat (Zfloor (m * INR (String.length chars))) < String.length chars)%nat
    as Hlt.
  { apply INR_lt. rewrite INR_IZR_INZ, Z2Nat.id by assumption. nra. }
  unfold charAt.
  destruct (Z.ltb_spec (Zfloor (m * INR (String.length chars))) 0); [lia |].
  destruct (get_in_range chars _ Hlt) as (c & -> & Hin).
  exists c. split; [reflexivity | exact Hin].
Qed.

Lemma appendRandomChars_run chars name w :
  chars <> EmptyString ->
  (forall n, 0 <= tape w n < 1) ->
  exists a b c,
    appendRandomChars chars name 3 w
    = Returned
        (String.append
           (String.append
              (String.append name (String a EmptyString)) (String b EmptyString))
           (String c EmptyString))
        (mkWorld (rngState w) (tape w) (S (S (S (taken w)))))
    /\ In a (list_ascii_of_string chars)
    /\ In b (list_ascii_of_string chars)
    /\ In c (list_ascii_of_string chars).
Proof.
  intros Hne Hunit.
  destruct (charAt_random chars (tape w (taken w)) Hne (Hunit _)) as (a & Ha & Hina).
  destruct (charAt_random chars (tape w (S (taken w))) Hne (Hunit _))
    as (b & Hb & Hinb).
  destruct (charAt_random chars (tape w (S (S (taken w)))) Hne (Hunit _))
    as (c & Hc & Hinc).
  exists a, b, c. split; [| auto].
  cbn [appendRandomChars]. unfold bind, mathRandom. cbn [rngState tape taken].
  rewrite Ha, Hb, Hc. reflexivity.
Qed.

(** X24.  When [Math.random] returns values from 0 up to but not including
    1, the name that [generateSystemName] stores has eight characters: "P",
    three characters out of the digits and the capital letters, "-", and
    three more of those; the call takes six values from [Math.random] and
    none from the seeded source. *)
Theorem generateSystemName_format (w : World) :
  (forall n, 0 <= tape w n < 1) ->
  returns generateSystemName w (fun name w' =>
    (exists a b c d e f : ascii,
       name = String "P" (String a (String b (String c
                (String "-" (String d (String e (String f EmptyString)))))))
       /\ Forall (fun x =>
                    In x (list_ascii_of_string "0123456789ABCDEFGHIJKLMNOPQRSTUVWXYZ"))
            [a; b; c; d; e; f])
    /\ String.length name = 8%nat
    /\ w' = mkWorld (rngState w) (tape w) (6 + taken w)).
Proof.
  intros Hunit. unfold generateSystemName.
  set (chars := "0123456789ABCDEFGHIJKLMNOPQRSTUVWXYZ"%string).
  assert (chars <> EmptyString) as Hne by discriminate.
  destruct (appendRandomChars_run chars "P" w Hne Hunit)
    as (a & b & c & Hrun1 & Ha & Hb & Hc).
  apply returns_bind. eapply returns_intro; [exact Hrun1 |].
  set (w1 := mkWorld (rngState w) (tape w) (S (S (S (taken w))))).
  assert (forall n, 0 <= tape w1 n < 1) as Hunit1 by exact Hunit.
  match goal with
  | |- returns (bind (appendRandomChars chars ?name 3) _) _ _ =>
      destruct (appendRandomChars_run chars name w1 Hne Hunit1)
        as (d & e & f & Hrun2 & Hd & He & Hf)
  end.
  apply returns_bind. eapply returns_intro; [exact Hrun2 |].
  apply returns_ret. cbn [String.append]. split; [| split; reflexivity].
  exists a, b, c, d, e, f. split; [reflexivity |].
  repeat (constructor; [assumption |]). constructor.
Qed.

Lemma generateSystemName_format_witness :
  (forall n, 0 <= tape (mkWorld 7 (fun _ => 0) 0) n < 1)
  /\ returns generateSystemName (mkWorld 7 (fun _ => 0) 0)
       (fun name _ => String.length name = 8%nat).
Proof.
  assert (forall n, 0 <= tape (mkWorld 7 (fun _ => 0) 0) n < 1) as H
    by (intros n; cbn; lra).
  split; [exact H |].
  eapply returns_mono.
  - apply (generateSystemName_format (mkWorld 7 (fun _ => 0) 0) H).
  - intros name w' (_ & Hlen & _). exact Hlen.
Defined.

(** ** The colour of the atmosphere *)

Lemma toInt32_small z :
  (- 2 ^ 31 <= z < 2 ^ 31)%Z -> Int32.toInt32 z = z.
Proof. intros H. unfold Int32.toInt32. rewrite Z.mod_small; lia. Qed.

Lemma band_255 x : (0 <= x < 2 ^ 31)%Z -> band x 255 = (x mod 256)%Z.
Proof.
  intros Hx. unfold band. rewrite !toInt32_small by lia.
  change 255%Z with (Z.ones 8). rewrite Z.land_ones by lia. reflexivity.
Qed.

Lemma band_255_range x : (0 <= band x 0xFF <= 255)%Z.
Proof.
  unfold band. change (Int32.toInt32 255) with (Z.ones 8).
  rewrite Z.land_ones by lia.
  pose proof (Z.mod_pos_bound (Int32.toInt32 x) (2 ^ 8)). lia.
Qed.

Lemma hexDigitValue_hexDigit d :
  (0 <= d < 16)%Z -> hexDigitValue (hexDigit d) = Some d.
Proof.
  intros Hd.
  assert (d = 0 \/ d = 1 \/ d = 2 \/ d = 3 \/ d = 4 \/ d = 5 \/ d = 6 \/ d = 7
          \/ d = 8 \/ d = 9 \/ d = 10 \/ d = 11 \/ d = 12 \/ d = 13 \/ d = 14
          \/ d = 15)%Z as H by lia.
  repeat (destruct H as [-> | H]; [reflexivity |]). subst d. reflexivity.
Qed.

Lemma toHexDigits_more fuel n acc :
  (16 <= n)%Z ->
  toHexDigits (S fuel) n acc
  = toHexDigits fuel (n / 16) (String (hexDigit (n mod 16)) acc).
Proof.
  intros Hn. cbn [toHexDigits]. destruct (Z.ltb_spec n 16); [lia | reflexivity].
Qed.

Lemma toHexDigits_last fuel n acc :
  (0 <= n < 16)%Z -> toHexDigits (S fuel) n acc = String (hexDigit n) acc.
Proof.
  intros Hn. cbn [toHexDigits]. rewrite Z.mod_small by lia.
  destruct (Z.ltb_spec n 16); [reflexivity | lia].
Qed.

Lemma digit_step (q d : Z) :
  (0 <= d < 16)%Z -> ((q * 16 + d) / 16 = q /\ (q * 16 + d) mod 16 = d)%Z.
Proof.
  intros Hd. split.
  - rewrite Z.div_add_l by lia. rewrite Z.div_small by lia. lia.
  - rewrite Z.add_comm, Z.mod_add by lia. apply Z.mod_small. lia.
Qed.

Lemma byte_digits c :
  (0 <= c <= 255)%Z ->
  (0 <= c / 16 < 16 /\ 0 <= c mod 16 < 16 /\ c = c / 16 * 16 + c mod 16)%Z.
Proof.
  intros Hc. pose proof (Z.div_mod c 16). pose proof (Z.mod_pos_bound c 16).
  assert (0 <= c / 16)%Z by (apply Z.div_pos; lia).
  assert (c / 16 < 16)%Z by (apply Z.div_lt_upper_bound; lia).
  lia.
Qed.

Lemma toHexDigits_rgb fuel (r g b : Z) :
  (0 <= r <= 255)%Z -> (0 <= g <= 255)%Z -> (0 <= b <= 255)%Z ->
  toHexDigits (7 + fuel) (16777216 + r * 65536 + g * 256 + b) EmptyString
  = String "1" (hexByte r (hexByte g (hexByte b EmptyString))).
Proof.
  intros Hr Hg Hb.
  destruct (byte_digits r Hr) as (Hr1 & Hr0 & Er).
  destruct (byte_digits g Hg) as (Hg1 & Hg0 & Eg).
  destruct (byte_digits b Hb) as (Hb1 & Hb0 & Eb).
  set (r1 := (r / 16)%Z) in *. set (r0 := (r mod 16)%Z) in *.
  set (g1 := (g / 16)%Z) in *. set (g0 := (g mod 16)%Z) in *.
  set (b1 := (b / 16)%Z) in *. set (b0 := (b mod 16)%Z) in *.
  unfold hexByte. fold r1 r0 g1 g0 b1 b0.
  change (7 + fuel)%nat with (S (S (S (S (S (S (S fuel))))))).
  replace (16777216 + r * 65536 + g * 256 + b)%Z
    with ((1048576 + r * 4096 + g * 16 + b1) * 16 + b0)%Z by lia.
  rewrite toHexDigits_more by lia.
  destruct (digit_step (1048576 + r * 4096 + g * 16 + b1) b0 Hb0) as [-> ->].
  replace (1048576 + r * 4096 + g * 16 + b1)%Z
    with ((65536 + r * 256 + g) * 16 + b1)%Z by lia.
  rewrite toHexDigits_more by lia.
  destruct (digit_step (65536 + r * 256 + g) b1 Hb1) as [-> ->].
  replace (65536 + r * 256 + g)%Z
    with ((4096 + r * 16 + g1) * 16 + g0)%Z by lia.
  rewrite toHexDigits_more by lia.
  destruct (digit_step (4096 + r * 16 + g1) g0 Hg0) as [-> ->].
  replace (4096 + r * 16 + g1)%Z with ((256 + r) * 16 + g1)%Z by lia.
  rewrite toHexDigits_more by lia.
  destruct (digit_step (256 + r) g1 Hg1) as [-> ->].
  replace (256 + r)%Z with ((16 + r1) * 16 + r0)%Z by lia.
  rewrite toHexDigits_more by lia.
  destruct (digit_step (16 + r1) r0 Hr0) as [-> ->].
  replace (16 + r1)%Z with (1 * 16 + r1)%Z by lia.
  rewrite toHexDigits_more by lia.
  destruct (digit_step 1 r1 Hr1) as [-> ->].
  rewrite toHexDigits_last by lia. reflexivity.
Qed.

Lemma toString16_rgb (r g b : Z) :
  (0 <= r <= 255)%Z -> (0 <= g <= 255)%Z -> (0 <= b <= 255)%Z ->
  toString16 (16777216 + r * 65536 + g * 256 + b)
  = String "1" (hexByte r (hexByte g (hexByte b EmptyString))).
Proof.
  intros Hr Hg Hb. unfold toString16.
  assert (Z.log2 (16777216 + r * 65536 + g * 256 + b) = 24%Z) as ->
    by (apply Z.log2_unique; lia).
  change (S (Z.to_nat 24)) with (7 + 18)%nat.
  apply toHexDigits_rgb; assumption.
Qed.

Lemma shl_byte c (n : Z) :
  (0 <= c <= 255)%Z -> (0 <= n <= 16)%Z -> shl c n = (c * 2 ^ n)%Z.
Proof.
  intros Hc Hn. unfold shl. rewrite (toInt32_small c) by lia.
  rewrite Z.shiftl_mul_pow2 by lia.
  assert (0 < 2 ^ n <= 2 ^ 16)%Z
    by (split; [apply Z.pow_pos_nonneg; lia | apply Z.pow_le_mono_r; lia]).
  apply toInt32_small. nia.
Qed.

Lemma channelsOf_hexBytes (r g b : Z) :
  (0 <= r <= 255)%Z -> (0 <= g <= 255)%Z -> (0 <= b <= 255)%Z ->
  channelsOf (String "#" (hexByte r (hexByte g (hexByte b EmptyString))))
  = (r, g, b).
Proof.
  intros Hr Hg Hb.
  destruct (byte_digits r Hr) as (Hr1 & Hr0 & Er).
  destruct (byte_digits g Hg) as (Hg1 & Hg0 & Eg).
  destruct (byte_digits b Hb) as (Hb1 & Hb0 & Eb).
  assert (parseInt16 (hexByte r (hexByte g (hexByte b EmptyString)))
          = Some (r * 65536 + g * 256 + b)%Z) as Hparse.
  { unfold parseInt16, hexByte. cbn [parseDigits].
    rewrite !hexDigitValue_hexDigit by assumption. f_equal. lia. }
  unfold channelsOf. cbn [dropFirst]. rewrite Hparse. unfold sar, operand.
  set (rgb := (r * 65536 + g * 256 + b)%Z).
  assert (0 <= rgb < 16777216)%Z as Hrgb by (unfold rgb; lia).
  rewrite toInt32_small by lia. rewrite !Z.shiftr_div_pow2 by lia.
  assert (rgb / 2 ^ 16 = r)%Z as ->.
  { unfold rgb. replace (r * 65536 + g * 256 + b)%Z with (r * 2 ^ 16 + (g * 256 + b))%Z by lia.
    rewrite Z.div_add_l by lia. rewrite Z.div_small by lia. lia. }
  assert (rgb / 2 ^ 8 = r * 256 + g)%Z as ->.
  { unfold rgb. replace (r * 65536 + g * 256 + b)%Z with ((r * 256 + g) * 2 ^ 8 + b)%Z by lia.
    rewrite Z.div_add_l by lia. rewrite Z.div_small by lia. lia. }
  rewrite !band_255 by lia.
  rewrite (Z.mod_small r) by lia.
  replace ((r * 256 + g) mod 256)%Z with g
    by (rewrite Z.add_comm, Z.mod_add by lia; symmetry; apply Z.mod_small; lia).
  replace (rgb mod 256)%Z with b.
  - reflexivity.
  - unfold rgb. replace (r * 65536 + g * 256 + b)%Z with (b + (r * 256 + g) * 256)%Z by lia.
    rewrite Z.mod_add by lia. symmetry. apply Z.mod_small. lia.
Qed.

Lemma varied_run channel w :
  (0 <= channel <= 255)%Z ->
  0 <= tape w (taken w) < 1 ->
  exists c : Z,
    varied channel w = Returned c (mkWorld (rngState w) (tape w) (S (taken w)))
    /\ (0 <= c <= 255)%Z /\ (-5 <= c - channel <= 5)%Z.
Proof.
  intros Hc Hm. eexists. split; [reflexivity |].
  pose proof (Zfloor_bound (tape w (taken w) * 11)) as Hb.
  assert (0 <= Zfloor (tape w (taken w) * 11))%Z by (apply Zfloor_lub; simpl; lra).
  assert (Zfloor (tape w (taken w) * 11) < 11)%Z
    by (apply lt_IZR; lra).
  lia.
Qed.

Lemma applyRandomVariation_spec color w :
  (forall n, 0 <= tape w n < 1) ->
  exists r g b : Z,
    applyRandomVariation color w
    = Returned (String "#" (hexByte r (hexByte g (hexByte b EmptyString))))
               (mkWorld (rngState w) (tape w) (S (S (S (taken w)))))
    /\ (0 <= r <= 255)%Z /\ (0 <= g <= 255)%Z /\ (0 <= b <= 255)%Z
    /\ (-5 <= r - fst (fst (channelsOf color)) <= 5)%Z
    /\ (-5 <= g - snd (fst (channelsOf color)) <= 5)%Z
    /\ (-5 <= b - snd (channelsOf color) <= 5)%Z.
Proof.
  intros Hunit. unfold applyRandomVariation, channelsOf. cbn [fst snd].
  set (rgb := parseInt16 (dropFirst color)).
  destruct (varied_run (band (sar rgb 16) 0xFF) w (band_255_range _) (Hunit _))
    as (r & Hrun1 & Hr & Hdr).
  set (w1 := mkWorld (rngState w) (tape w) (S (taken w))) in *.
  destruct (varied_run (band (sar rgb 8) 0xFF) w1 (band_255_range _) (Hunit _))
    as (g & Hrun2 & Hg & Hdg).
  set (w2 := mkWorld (rngState w1) (tape w1) (S (taken w1))) in *.
  destruct (varied_run (band (operand rgb) 0xFF) w2 (band_255_range _) (Hunit _))
    as (b & Hrun3 & Hb & Hdb).
  exists r, g, b. split; [| auto 10].
  unfold bind. rewrite Hrun1, Hrun2, Hrun3. unfold ret. f_equal. f_equal.
  change (shl 1 24) with 16777216%Z.
  rewrite (shl_byte r 16), (shl_byte g 8) by lia.
  change (2 ^ 16)%Z with 65536%Z. change (2 ^ 8)%Z with 256%Z.
  rewrite toString16_rgb by assumption. reflexivity.
Qed.

Lemma baseColors_truthy key color :
  propertyOf baseColors key = Some color ->
  negb (String.eqb color EmptyString) = true.
Proof.
  intros H.
  assert (exists k, (k, color) ∈ baseColors) as [k Hin].
  { destruct key as [k |]; eexists; apply property_pair_elem_of; exact H. }
  unfold baseColors in Hin. rewrite !elem_of_cons, elem_of_nil in Hin.
  repeat (destruct Hin as [[= _ ->] | Hin]; [reflexivity |]). destruct Hin.
Qed.

(** X25.  When [Math.random] returns values from 0 up to but not including
    1, [getAtmosphereColor] returns, for every composition that names no
    member inherited from [Object.prototype], also an unknown one or
    [undefined], a colour of seven characters, "#" and six
    hexadecimal digits: each of its three channels is between 0 and 255 and
    within 5 of that channel of the table's colour for the composition, or
    of "#add8e6" when the table has none.  The call takes three values from
    [Math.random]. *)
Theorem getAtmosphereColor_within_five (composition : option string) (w : World) :
  notInherited composition ->
  (forall n, 0 <= tape w n < 1) ->
  returns (getAtmosphereColor composition) w (fun color w' =>
    let base := default "#add8e6"%string (propertyOf baseColors composition) in
    exists r g b : Z,
      color = String "#" (hexByte r (hexByte g (hexByte b EmptyString)))
      /\ channelsOf color = (r, g, b)
      /\ String.length color = 7%nat
      /\ (0 <= r <= 255)%Z /\ (0 <= g <= 255)%Z /\ (0 <= b <= 255)%Z
      /\ (-5 <= r - fst (fst (channelsOf base)) <= 5)%Z
      /\ (-5 <= g - snd (fst (channelsOf base)) <= 5)%Z
      /\ (-5 <= b - snd (channelsOf base) <= 5)%Z
      /\ w' = mkWorld (rngState w) (tape w) (3 + taken w)).
Proof.
  intros _ Hunit. cbn zeta.
  assert (exists base,
            getAtmosphereColor composition = applyRandomVariation base
            /\ default "#add8e6"%string (propertyOf baseColors composition) = base)
    as (base & -> & ->).
  { unfold getAtmosphereColor.
    destruct (propertyOf baseColors composition) as [color |] eqn:E.
    - rewrite (baseColors_truthy _ _ E). exists color. split; reflexivity.
    - exists "#add8e6"%string. split; reflexivity. }
  destruct (applyRandomVariation_spec base w Hunit)
    as (r & g & b & Hrun & Hr & Hg & Hb & Hdr & Hdg & Hdb).
  unfold returns. rewrite Hrun. exists r, g, b.
  split; [reflexivity |]. split; [apply channelsOf_hexBytes; assumption |].
  split; [reflexivity |]. auto 10.
Qed.

Lemma getAtmosphereColor_within_five_witness :
  notInherited (Some "trace"%string)
  /\ (forall n, 0 <= tape (mkWorld 7 (fun _ => 0) 0) n < 1)
  /\ returns (getAtmosphereColor (Some "trace"%string)) (mkWorld 7 (fun _ => 0) 0)
       (fun color _ => String.length color = 7%nat).
Proof.
  assert (forall n, 0 <= tape (mkWorld 7 (fun _ => 0) 0) n < 1) as H
    by (intros n; cbn; lra).
  assert (notInherited (Some "trace"%string)) as Hown.
  { intros name Hname [= <-]. unfold inheritedNames in Hname.
    rewrite !elem_of_cons, elem_of_nil in Hname.
    repeat (destruct Hname as [Hname | Hname]; [discriminate Hname |]).
    exact Hname. }
  split; [exact Hown |]. split; [exact H |].
  eapply returns_mono.
  - apply (getAtmosphereColor_within_five (Some "trace"%string)
             (mkWorld 7 (fun _ => 0) 0) Hown H).
  - intros color w' (r & g & b & _ & _ & Hlen & _). exact Hlen.
Defined.

(** ** Bloom *)

Lemma ln_5_above : 4 / 3 < ln 5.
Proof.
  assert (exp (4 / 3) < 5) as H.
  { set (x := exp (4 / 3)).
    assert (0 < x) as Hx by apply exp_pos.
    assert (x * x * x = exp 1 * exp 1 * exp 1 * exp 1) as Hcube.
    { unfold x. rewrite <- !exp_plus. f_equal. lra. }
    pose proof exp_le_3 as H3. pose proof (exp_pos 1) as H1.
    assert (exp 1 * exp 1 <= 9) as H9 by nra.
    assert (exp 1 * exp 1 * exp 1 * exp 1 <= 81) as H81 by nra.
    destruct (Rlt_dec x 5) as [Hlt | Hge]; [exact Hlt |].
    assert (5 <= x) as H5 by lra.
    assert (25 <= x * x) by nra. assert (125 <= x * x * x) by nra. lra. }
  rewrite <- (ln_exp (4 / 3)). apply ln_increasing; [apply exp_pos | exact H].
Qed.

(** X26.  The bloom strength that [adjustBloomEffect] sets is
    1.75 - luminosity for a luminosity of at most 1, so above the intended
    maximum of 1 for every luminosity below 0.75, and the constant 0.75 for
    every luminosity above 1. *)
Theorem adjustBloomEffect_closed_form (starLuminosity : R) :
  (starLuminosity <= 1 -> adjustBloomEffect starLuminosity = 1.75 - starLuminosity)
  /\ (starLuminosity < 0.75 -> 1 < adjustBloomEffect starLuminosity)
  /\ (1 < starLuminosity -> adjustBloomEffect starLuminosity = 0.75).
Proof.
  assert (starLuminosity <= 1 ->
          adjustBloomEffect starLuminosity = 1.75 - starLuminosity) as Hlow.
  { intros HL. unfold adjustBloomEffect.
    rewrite bool_decide_eq_true_2 by lra.
    rewrite Rmax_left by lra. lra. }
  split; [exact Hlow |]. split.
  - intros HL. rewrite Hlow by lra. lra.
  - intros HL. unfold adjustBloomEffect.
    rewrite bool_decide_eq_false_2 by lra.
    apply Rmax_right.
    assert (ln 5 < ln (starLuminosity - 1.00 + 5)) as Hln
      by (apply ln_increasing; lra).
    pose proof ln_5_above as H5.
    assert (0 < ln (starLuminosity - 1.00 + 5)) as Hpos by lra.
    assert (/ ln (starLuminosity - 1.00 + 5) <= / (4 / 3)) as Hinv
      by (apply Rinv_le_contravar; lra).
    replace (/ (4 / 3)) with 0.75 in Hinv by lra. unfold Rdiv. lra.
Qed.

Lemma adjustBloomEffect_closed_form_witness :
  adjustBloomEffect 0.5 = 1.75 - 0.5.
Proof.
  apply (proj1 (adjustBloomEffect_closed_form 0.5)). lra.
Defined.

(** ** The order of the planet types *)

Lemma classified_rank luminosity r1 r2 type1 type2 :
  0 < luminosity -> r1 <= r2 ->
  classified luminosity r1 type1 -> classified luminosity r2 type2 ->
  (typeRank type1 <= typeRank type2)%nat.
Proof.
  intros HL Hr H1 H2. pose proof (zone_positive_ordered _ HL) as [Hin Hout].
  unfold classified in H1, H2.
  destruct H1 as [[Ha ->] | [[Ha [-> | ->]] | [[Ha ->] | [[Ha ->] | (Ha & Ha' & ->)]]]];
    destruct H2 as [[Hb ->] | [[Hb [-> | ->]] | [[Hb ->] | [[Hb ->] | (Hb & Hb' & ->)]]]];
    cbn [typeRank String.eqb Ascii.eqb Bool.eqb]; first [lia | exfalso; lra].
Qed.

(** X27.  In a system that [generateOrbit] returns and that has a
    Terrestrial or an Ocean World planet, the planet types follow the orbits
    outwards: every Lava Planet comes before every Terrestrial or Ocean
    World planet, these before every Gas Giant, these before every Ice
    Giant, and these before every Dwarf Planet. *)
Theorem generateOrbit_types_follow_orbits (seed : option Z) (w : World) :
  returns (generateOrbit seed) w (fun orbit _ =>
    Exists (fun planet =>
              Planet.type planet = "Terrestrial"%string
              \/ Planet.type planet = "Ocean World"%string)
      (Orbit.solarSystem orbit) ->
    StronglySorted typeRankLe (Orbit.solarSystem orbit)).
Proof.
  eapply returns_mono.
  { apply returns_and; [apply generateOrbit_systemOf | apply generateOrbit_spec]. }
  cbn beta zeta.
  intros orbit w' [(Hband & _ & _ & Hsys) (HL & _ & _ & Hsorted & _)] Hex.
  destruct (systemOf_habitable _ _ _ HL Hsys) as [[Hclass _] | [Hnone _]].
  - clear Hex Hsys.
    induction Hsorted as [| p l Hl IH Hp]; [constructor |].
    apply Forall_cons in Hclass. destruct Hclass as [Hcp Hcl].
    constructor; [exact (IH Hcl) |].
    apply Forall_forall. intros q Hq.
    pose proof (proj1 (Forall_forall _ _) Hp q Hq) as Hle.
    pose proof (proj1 (Forall_forall _ _) Hcl q Hq) as Hcq.
    exact (classified_rank _ _ _ _ _ HL Hle Hcp Hcq).
  - exfalso. apply Exists_exists in Hex. destruct Hex as (p & Hp & Ht).
    destruct (proj1 (Forall_forall _ _) Hnone p Hp) as (H1 & H2 & _). tauto.
Qed.

(** ** Stars for [generateSolarSystem] *)

(** X28.  [generateSolarSystem] throws on the star that [generateParentStar]
    returns, which has no habitable zone yet, and returns a system of 3 to
    18 planets in increasing order of orbit radius on the star that
    [generateStar] stores. *)
Theorem generateSolarSystem_needs_habitableZone (w : World) :
  returns generateParentStar w (fun parentStar w' =>
    generateSolarSystem parentStar w' = Thrown)
  /\ returns generateStar w (fun star w' =>
       returns (generateSolarSystem star) w' (fun planets _ =>
         (3 <= length planets <= 18)%nat
         /\ StronglySorted orbitLe planets)).
Proof.
  split.
  - eapply returns_mono; [apply generateParentStar_inBand |].
    intros star w' (_ & Hnone & _).
    unfold generateSolarSystem, bind. rewrite Hnone.
    destruct (getRandomInt 3 18 w'); reflexivity.
  - unfold generateStar. apply returns_bind.
    eapply returns_mono; [apply generateParentStar_inBand |].
    intros parent w1 _. apply returns_bind.
    destruct (generateStarSizeAndMass (Star.type parent) (Star.age parent) w1)
      as [sm w2 |] eqn:Hsm.
    + eapply returns_intro; [exact Hsm |]. apply returns_ret.
      eapply returns_mono; [apply generateSolarSystem_spec; reflexivity |].
      intros planets w3 (Hsorted & Hlen & _). split; [exact Hlen | exact Hsorted].
    + exfalso. revert Hsm. unfold generateStarSizeAndMass, sizeAndMass, bind.
      each_branch; try discriminate;
        unfold getRandomValue, bind, random;
        repeat (match goal with
                | |- context [splitmix32_next ?a] => destruct (splitmix32_next a)
                end; cbn [rngState tape taken ret]);
        discriminate.
Qed.
